(** * FastRegrid: the spatial mapper, the interpolator and the configuration
    builder, embedded in Rocq.

    Sources embedded here (all under [include/fastregrid]):
    - [types.h]          : [GridPoint], [SpatialData], the three enumerations;
    - [config.h]         : [RegridConfig], [RegridConfigBuilder];
    - [utils.h]          : [to_radians], [adjust_longitude], [km_to_degrees],
                           [compute_distance];
    - [spatial_index.h]  : [SpatialIndex::find_nearest_neighbors],
                           [SpatialIndex::find_idw_neighbors];
    - [interpolation.h]  : [Interpolator] and its three private methods.

    Conventions of the embedding.
    - A C++ [double] is a real number of the Standard Library ([R]): the
      arithmetic is exact, there is neither NaN nor infinity.  [std::cos],
      [std::sin], [std::sqrt], [std::abs], [std::pow] are [cos], [sin],
      [sqrt], [Rabs], [Rpower]; [M_PI] is [PI].  The one place where the
      binary64 format itself is at stake, the loops of [adjust_longitude], is
      embedded a second time over the primitive binary64 numbers (module
      [F64]).
    - [int] is [Z]; [size_t] is [N] for a stored quantity and [nat] for a
      position in a vector; [static_cast<size_t>] of an [int] wraps modulo
      2^64.
    - A function that can [throw] returns [outcome A]; the exception that
      leaves first is the error returned.
    - Writes to [std::cerr] under [config_.verbose] change no state and are
      left out. *)

From Stdlib Require Import Floats.
From Stdlib Require Import Ascii String.
From Stdlib Require Import Reals Lra Lia ZArith NArith List Bool.
From Stdlib Require Import Permutation Sorted.
Import ListNotations.

Local Open Scope R_scope.

(** ** Comparisons of doubles as booleans *)

Definition Rltb (x y : R) : bool := if Rlt_dec x y then true else false.
Definition Rleb (x y : R) : bool := if Rle_dec x y then true else false.
Definition Rgtb (x y : R) : bool := Rltb y x.
Definition Reqb (x y : R) : bool := if Req_dec_T x y then true else false.

(** ** Exceptions and fallible computations *)

(** [InvalidArgument] is [std::invalid_argument]; every other constructor is
    a [std::runtime_error], one per message of the sources. *)
Inductive error : Type :=
| InvalidArgument (what : string)
| EmptySourceList                 (* "Source point list is empty" *)
| InconsistentValueSizes          (* "Inconsistent value sizes in source points" *)
| NoValidSource (lon lat : R)     (* "No valid source points found for target (lon, lat)" *)
| InvalidTargetIndex              (* "Invalid target index in NN/IDW mapping" *)
| InvalidFallbackMapping          (* "Invalid fallback mapping: expected one source point" *)
| NoInterpolation.                (* "No points interpolated in NN/IDW mode" *)

Inductive outcome (A : Type) : Type :=
| Ok (a : A)
| Err (e : error).
Arguments Ok {A} a.
Arguments Err {A} e.

Definition bind {A B : Type} (r : outcome A) (k : A -> outcome B) : outcome B :=
  match r with
  | Ok a => k a
  | Err e => Err e
  end.

Notation "x <- r ;; k" := (bind r (fun x => k))
  (at level 61, r at next level, right associativity).
Notation "' p <- r ;; k" := (bind r (fun x => let p := x in k))
  (at level 61, p pattern, r at next level, right associativity).

(** ** types.h *)

Record GridPoint : Type := mkGridPoint {
  longitude : R;
  latitude : R
}.

Record SpatialData : Type := mkSpatialData {
  gridPoint : GridPoint;
  time_step : Z;
  values : list R
}.

Inductive InterpolationMethod : Type := NEAREST_NEIGHBOR | INVERSE_DISTANCE_WEIGHTED.
Inductive DistanceMetric : Type := EUCLIDEAN | HAVERSINE.
Inductive DataLayout : Type := YEAR_BY_YEAR | GRID_BY_TIME.

(** ** config.h *)

Record RegridConfig : Type := mkRegridConfig {
  interp_method : InterpolationMethod;
  distance_metric : DistanceMetric;
  data_layout : DataLayout;
  radius : R;
  power : R;
  max_points : Z;
  min_points : Z;
  adjust_longitude_flag : bool;   (* the field [adjust_longitude] *)
  precision : Z;
  verbose : bool;
  write_mappings : bool;
  nn_mappings_file : string;
  idw_mappings_file : string;
  chunk_size : N;
  output_path : string
}.

(** The default member initialisers of the struct. *)
Definition default_config : RegridConfig :=
  {| interp_method := INVERSE_DISTANCE_WEIGHTED;
     distance_metric := HAVERSINE;
     data_layout := GRID_BY_TIME;
     radius := 100;
     power := 2;
     max_points := 5;
     min_points := 5;
     adjust_longitude_flag := true;
     precision := 5;
     verbose := false;
     write_mappings := false;
     nn_mappings_file := "nn_mappings.txt";
     idw_mappings_file := "idw_mappings.txt";
     chunk_size := 1000;
     output_path := "./" |}.

Module Builder.

(** The builder owns one [RegridConfig], its member [config_]. *)
Record RegridConfigBuilder : Type := mk { config_ : RegridConfig }.

Definition new : RegridConfigBuilder := mk default_config.

Section Assign.
Variable c : RegridConfig.

Definition with_interp_method v :=
  mkRegridConfig v (distance_metric c) (data_layout c) (radius c) (power c)
    (max_points c) (min_points c) (adjust_longitude_flag c) (precision c)
    (verbose c) (write_mappings c) (nn_mappings_file c)
    (idw_mappings_file c) (chunk_size c) (output_path c).
Definition with_distance_metric v :=
  mkRegridConfig (interp_method c) v (data_layout c) (radius c) (power c)
    (max_points c) (min_points c) (adjust_longitude_flag c) (precision c)
    (verbose c) (write_mappings c) (nn_mappings_file c)
    (idw_mappings_file c) (chunk_size c) (output_path c).
Definition with_data_layout v :=
  mkRegridConfig (interp_method c) (distance_metric c) v (radius c) (power c)
    (max_points c) (min_points c) (adjust_longitude_flag c) (precision c)
    (verbose c) (write_mappings c) (nn_mappings_file c)
    (idw_mappings_file c) (chunk_size c) (output_path c).
Definition with_radius v :=
  mkRegridConfig (interp_method c) (distance_metric c) (data_layout c) v
    (power c) (max_points c) (min_points c) (adjust_longitude_flag c)
    (precision c) (verbose c) (write_mappings c) (nn_mappings_file c)
    (idw_mappings_file c) (chunk_size c) (output_path c).
Definition with_power v :=
  mkRegridConfig (interp_method c) (distance_metric c) (data_layout c)
    (radius c) v (max_points c) (min_points c) (adjust_longitude_flag c)
    (precision c) (verbose c) (write_mappings c) (nn_mappings_file c)
    (idw_mappings_file c) (chunk_size c) (output_path c).
Definition with_max_points v :=
  mkRegridConfig (interp_method c) (distance_metric c) (data_layout c)
    (radius c) (power c) v (min_points c) (adjust_longitude_flag c)
    (precision c) (verbose c) (write_mappings c) (nn_mappings_file c)
    (idw_mappings_file c) (chunk_size c) (output_path c).
Definition with_min_points v :=
  mkRegridConfig (interp_method c) (distance_metric c) (data_layout c)
    (radius c) (power c) (max_points c) v (adjust_longitude_flag c)
    (precision c) (verbose c) (write_mappings c) (nn_mappings_file c)
    (idw_mappings_file c) (chunk_size c) (output_path c).
Definition with_adjust_longitude v :=
  mkRegridConfig (interp_method c) (distance_metric c) (data_layout c)
    (radius c) (power c) (max_points c) (min_points c) v (precision c)
    (verbose c) (write_mappings c) (nn_mappings_file c)
    (idw_mappings_file c) (chunk_size c) (output_path c).
Definition with_precision v :=
  mkRegridConfig (interp_method c) (distance_metric c) (data_layout c)
    (radius c) (power c) (max_points c) (min_points c)
    (adjust_longitude_flag c) v (verbose c) (write_mappings c)
    (nn_mappings_file c) (idw_mappings_file c) (chunk_size c)
    (output_path c).
Definition with_verbose v :=
  mkRegridConfig (interp_method c) (distance_metric c) (data_layout c)
    (radius c) (power c) (max_points c) (min_points c)
    (adjust_longitude_flag c) (precision c) v (write_mappings c)
    (nn_mappings_file c) (idw_mappings_file c) (chunk_size c)
    (output_path c).
Definition with_write_mappings v :=
  mkRegridConfig (interp_method c) (distance_metric c) (data_layout c)
    (radius c) (power c) (max_points c) (min_points c)
    (adjust_longitude_flag c) (precision c) (verbose c) v
    (nn_mappings_file c) (idw_mappings_file c) (chunk_size c)
    (output_path c).
Definition with_nn_mappings_file v :=
  mkRegridConfig (interp_method c) (distance_metric c) (data_layout c)
    (radius c) (power c) (max_points c) (min_points c)
    (adjust_longitude_flag c) (precision c) (verbose c) (write_mappings c)
    v (idw_mappings_file c) (chunk_size c) (output_path c).
Definition with_idw_mappings_file v :=
  mkRegridConfig (interp_method c) (distance_metric c) (data_layout c)
    (radius c) (power c) (max_points c) (min_points c)
    (adjust_longitude_flag c) (precision c) (verbose c) (write_mappings c)
    (nn_mappings_file c) v (chunk_size c) (output_path c).
Definition with_chunk_size v :=
  mkRegridConfig (interp_method c) (distance_metric c) (data_layout c)
    (radius c) (power c) (max_points c) (min_points c)
    (adjust_longitude_flag c) (precision c) (verbose c) (write_mappings c)
    (nn_mappings_file c) (idw_mappings_file c) v (output_path c).
Definition with_output_path v :=
  mkRegridConfig (interp_method c) (distance_metric c) (data_layout c)
    (radius c) (power c) (max_points c) (min_points c)
    (adjust_longitude_flag c) (precision c) (verbose c) (write_mappings c)
    (nn_mappings_file c) (idw_mappings_file c) (chunk_size c) v.
End Assign.

(** [filename.empty()] *)
Definition empty (s : string) : bool :=
  match s with EmptyString => true | String _ _ => false end.

Section Setters.
Variable b : RegridConfigBuilder.

Definition set_interpolation (method : InterpolationMethod) :=
  Ok (mk (with_interp_method (config_ b) method)).

Definition set_distance_metric (metric : DistanceMetric) :=
  Ok (mk (with_distance_metric (config_ b) metric)).

Definition set_data_layout (layout : DataLayout) :=
  Ok (mk (with_data_layout (config_ b) layout)).

Definition set_radius (radius : R) : outcome RegridConfigBuilder :=
  if Rltb radius 0
  then Err (InvalidArgument "Radius must be non-negative")
  else Ok (mk (with_radius (config_ b) radius)).

Definition set_power (power : R) : outcome RegridConfigBuilder :=
  if Rleb power 0
  then Err (InvalidArgument "Power must be positive")
  else Ok (mk (with_power (config_ b) power)).

Definition set_max_points (max_points : Z) : outcome RegridConfigBuilder :=
  if (max_points <=? 0)%Z
  then Err (InvalidArgument "Max points must be positive")
  else
    let c := with_max_points (config_ b) max_points in
    if (min_points c >? max_points)%Z
    then Ok (mk (with_min_points c max_points))
    else Ok (mk c).

Definition set_min_points (min_points : Z) : outcome RegridConfigBuilder :=
  if (min_points <=? 0)%Z
  then Err (InvalidArgument "Min points must be positive")
  else if (min_points >? max_points (config_ b))%Z
  then Err (InvalidArgument "Min points cannot exceed max points")
  else Ok (mk (with_min_points (config_ b) min_points)).

Definition set_adjust_longitude (adjust : bool) :=
  Ok (mk (with_adjust_longitude (config_ b) adjust)).

Definition set_precision (precision : Z) : outcome RegridConfigBuilder :=
  if (precision <? 0)%Z
  then Err (InvalidArgument "Precision must be non-negative")
  else Ok (mk (with_precision (config_ b) precision)).

Definition set_verbose (verbose : bool) :=
  Ok (mk (with_verbose (config_ b) verbose)).

Definition set_write_mappings (write : bool) :=
  Ok (mk (with_write_mappings (config_ b) write)).

Definition set_nn_mappings_file (filename : string) : outcome RegridConfigBuilder :=
  if empty filename
  then Err (InvalidArgument "Nearest Neighbor mappings filename cannot be empty")
  else Ok (mk (with_nn_mappings_file (config_ b) filename)).

Definition set_idw_mappings_file (filename : string) : outcome RegridConfigBuilder :=
  if empty filename
  then Err (InvalidArgument "IDW mappings filename cannot be empty")
  else Ok (mk (with_idw_mappings_file (config_ b) filename)).

Definition set_chunk_size (chunk_size : N) : outcome RegridConfigBuilder :=
  if (chunk_size =? 0)%N
  then Err (InvalidArgument "Chunk size must be positive")
  else Ok (mk (with_chunk_size (config_ b) chunk_size)).

Definition set_output_path (path : string) :=
  Ok (mk (with_output_path (config_ b) path)).

Definition build : RegridConfig := config_ b.
End Setters.

(** One call of a setter, with its argument. *)
Inductive setter_call : Type :=
| SetInterpolation (method : InterpolationMethod)
| SetDistanceMetric (metric : DistanceMetric)
| SetDataLayout (layout : DataLayout)
| SetRadius (radius : R)
| SetPower (power : R)
| SetMaxPoints (max_points : Z)
| SetMinPoints (min_points : Z)
| SetAdjustLongitude (adjust : bool)
| SetPrecision (precision : Z)
| SetVerbose (verbose : bool)
| SetWriteMappings (write : bool)
| SetNNMappingsFile (filename : string)
| SetIDWMappingsFile (filename : string)
| SetChunkSize (chunk_size : N)
| SetOutputPath (path : string).

Definition call (b : RegridConfigBuilder) (s : setter_call)
  : outcome RegridConfigBuilder :=
  match s with
  | SetInterpolation v => set_interpolation b v
  | SetDistanceMetric v => set_distance_metric b v
  | SetDataLayout v => set_data_layout b v
  | SetRadius v => set_radius b v
  | SetPower v => set_power b v
  | SetMaxPoints v => set_max_points b v
  | SetMinPoints v => set_min_points b v
  | SetAdjustLongitude v => set_adjust_longitude b v
  | SetPrecision v => set_precision b v
  | SetVerbose v => set_verbose b v
  | SetWriteMappings v => set_write_mappings b v
  | SetNNMappingsFile v => set_nn_mappings_file b v
  | SetIDWMappingsFile v => set_idw_mappings_file b v
  | SetChunkSize v => set_chunk_size b v
  | SetOutputPath v => set_output_path b v
  end.

(** A chain [b.set_x(..).set_y(..)...]: the first exception ends it. *)
Fixpoint chain (b : RegridConfigBuilder) (calls : list setter_call)
  : outcome RegridConfigBuilder :=
  match calls with
  | [] => Ok b
  | s :: rest => b' <- call b s ;; chain b' rest
  end.

(** A sequence of calls on one builder object in which the caller catches
    each exception and goes on: a setter throws before it assigns, so a
    rejected call leaves [config_] as it was. *)
Fixpoint run (b : RegridConfigBuilder) (calls : list setter_call)
  : RegridConfigBuilder :=
  match calls with
  | [] => b
  | s :: rest =>
      match call b s with
      | Ok b' => run b' rest
      | Err _ => run b rest
      end
  end.

(** What the builder is meant to guarantee of a configuration. *)
Record valid (c : RegridConfig) : Prop := {
  valid_radius : 0 <= radius c;
  valid_power : 0 < power c;
  valid_max_points : (0 < max_points c)%Z;
  valid_min_points : (0 < min_points c)%Z;
  valid_min_max : (min_points c <= max_points c)%Z;
  valid_chunk_size : chunk_size c <> 0%N;
  valid_nn_file : nn_mappings_file c <> ""%string;
  valid_idw_file : idw_mappings_file c <> ""%string
}.

Definition rejects (r : outcome RegridConfigBuilder) : Prop :=
  exists what, r = Err (InvalidArgument what).

End Builder.

(** ** utils.h *)

(** [std::numeric_limits<double>::max()], that is (2 - 2^-52) * 2^1023. *)
Definition DBL_MAX : R := Eval cbv in IZR (2 ^ 1024 - 2 ^ 971).

(** [std::atan2 (y, x)]: the angle of the point (x, y), in (-PI, PI]. *)
Definition atan2 (y x : R) : R :=
  if Rltb 0 x then atan (y / x)
  else if Rltb x 0 then
    (if Rleb 0 y then atan (y / x) + PI else atan (y / x) - PI)
  else if Rltb 0 y then PI / 2
  else if Rltb y 0 then - PI / 2
  else 0.

Definition to_radians (degrees : R) : R := degrees * PI / 180.

(** The two loops of [adjust_longitude], with the rounding of the shifted
    value explicit: [rnd] is the rounding of the arithmetic ([fun x => x] for
    exact arithmetic).  [fuel] bounds the number of iterations of each loop;
    [None] is a loop that has not ended within [fuel] iterations. *)
Section AdjustLongitude.
Variable rnd : R -> R.

Fixpoint shift_down (fuel : nat) (lon : R) : option R :=
  if Rgtb lon 180 then
    match fuel with
    | O => None
    | S fuel' => shift_down fuel' (rnd (lon - 360))
    end
  else Some lon.

Fixpoint shift_up (fuel : nat) (lon : R) : option R :=
  if Rltb lon (-180) then
    match fuel with
    | O => None
    | S fuel' => shift_up fuel' (rnd (lon + 360))
    end
  else Some lon.

Definition adjust_longitude (fuel : nat) (lon : R) : option R :=
  match shift_down fuel lon with
  | Some lon' => shift_up fuel lon'
  | None => None
  end.
End AdjustLongitude.

(** What is used of a rounding to nearest in binary64: it is monotone, it
    leaves the representable numbers 180 and -180 as they are, and from
    magnitude 1 on its relative error is at most 2^-53. *)
Definition rounding (rnd : R -> R) : Prop :=
  (forall x y, x <= y -> rnd x <= rnd y) /\
  rnd 180 = 180 /\
  rnd (-180) = -180 /\
  (forall x, 1 <= Rabs x -> Rabs (rnd x - x) <= Rabs x / 9007199254740992).

(** [adjust_longitude] once more, on the binary64 numbers themselves. *)
Module F64.

Fixpoint shift_down (fuel : nat) (lon : float) : option float :=
  if PrimFloat.ltb 180%float lon then
    match fuel with
    | O => None
    | S fuel' => shift_down fuel' (lon - 360)%float
    end
  else Some lon.

Fixpoint shift_up (fuel : nat) (lon : float) : option float :=
  if PrimFloat.ltb lon (-180)%float then
    match fuel with
    | O => None
    | S fuel' => shift_up fuel' (lon + 360)%float
    end
  else Some lon.

Definition adjust_longitude (fuel : nat) (lon : float) : option float :=
  match shift_down fuel lon with
  | Some lon' => shift_up fuel lon'
  | None => None
  end.

(** 2^1000, a finite binary64 number. *)
Definition two_pow_1000 : float := 0x1p+1000%float.

(** A finite binary64 number: neither NaN nor an infinity. *)
Definition finite (x : float) : bool :=
  negb (PrimFloat.is_nan x) && negb (PrimFloat.is_infinity x).
End F64.

Definition km_to_degrees (km latitude : R) : outcome R :=
  if Rltb km 0
  then Err (InvalidArgument "Distance in km must be non-negative")
  else if Rgtb (Rabs latitude) 90
  then Err (InvalidArgument "Latitude must be in [-90, 90]")
  else
    let cos_lat := cos (to_radians latitude) in
    let cos_lat := if Rltb (Rabs cos_lat) 1e-10 then 1e-10 else cos_lat in
    Ok (km / (111.32 * cos_lat)).

Definition compute_distance (lon1 lat1 lon2 lat2 : R) (metric : DistanceMetric)
  : outcome R :=
  if Rgtb (Rabs lat1) 90 || Rgtb (Rabs lat2) 90
  then Err (InvalidArgument "Latitudes must be in [-90, 90]")
  else if Rgtb (Rabs lon1) 360 || Rgtb (Rabs lon2) 360
  then Err (InvalidArgument "Longitudes must be in [-360, 360]")
  else
    match metric with
    | HAVERSINE =>
        let EARTH_RADIUS_KM := 6371 in
        let lat1_rad := to_radians lat1 in
        let lat2_rad := to_radians lat2 in
        let delta_lat := to_radians (lat2 - lat1) in
        let delta_lon := to_radians (lon2 - lon1) in
        let a := sin (delta_lat / 2) * sin (delta_lat / 2) +
                 cos lat1_rad * cos lat2_rad *
                   sin (delta_lon / 2) * sin (delta_lon / 2) in
        let c := 2 * atan2 (sqrt a) (sqrt (1 - a)) in
        Ok (EARTH_RADIUS_KM * c)
    | EUCLIDEAN =>
        let delta_lon := lon2 - lon1 in
        let delta_lat := lat2 - lat1 in
        Ok (sqrt (delta_lon * delta_lon + delta_lat * delta_lat))
    end.

(** ** spatial_index.h *)

(** [std::tuple<double, double, double>]: (source_lon, source_lat, distance). *)
Definition neighbor : Type := (R * R * R)%type.

(** [std::get<2>] of a neighbor: its distance. *)
Definition get2 (n : neighbor) : R := snd n.

(** The six-component tuple of an NN mapping, with the names of the
    structured binding in [interpolate_nearest_neighbor]. *)
Record NNMapping : Type := mkNNMapping {
  nn_target_lon : R;
  nn_target_lat : R;
  nn_source_lon : R;
  nn_source_lat : R;
  nn_distance : R;
  nn_target_idx : nat
}.

(** The five-component tuple of an IDW mapping. *)
Record IDWMapping : Type := mkIDWMapping {
  idw_target_lon : R;
  idw_target_lat : R;
  idw_sources : list neighbor;
  idw_target_idx : nat;
  idw_is_fallback : bool
}.

(** [static_cast<size_t>] of an [int], on a 64-bit target. *)
Definition size_t_of_int (i : Z) : Z := (i mod 2 ^ 64)%Z.

(** What [std::sort] with the comparator [get<2>(a) < get<2>(b)] promises:
    some rearrangement of the input in which no element is followed by one
    of smaller distance.  The order of elements of equal distance is left
    open, as [std::sort] is not stable. *)
Definition sorts (std_sort : list neighbor -> list neighbor) : Prop :=
  forall l, Permutation l (std_sort l) /\
            StronglySorted (fun a b => get2 a <= get2 b) (std_sort l).

(** An insertion sort, one function that [sorts]. *)
Fixpoint insert_neighbor (n : neighbor) (l : list neighbor) : list neighbor :=
  match l with
  | [] => [n]
  | m :: rest =>
      if Rltb (get2 n) (get2 m) then n :: l else m :: insert_neighbor n rest
  end.

Definition insertion_sort (l : list neighbor) : list neighbor :=
  fold_right insert_neighbor [] l.

(** The loop [for (t_idx = 0; t_idx < target_points.size (); ++t_idx)] with
    its [emplace_back] at the end of each iteration. *)
Fixpoint for_each_target {A : Type} (body : nat -> SpatialData -> outcome A)
    (t_idx : nat) (target_points : list SpatialData) : outcome (list A) :=
  match target_points with
  | [] => Ok []
  | target :: rest =>
      m <- body t_idx target ;;
      ms <- for_each_target body (S t_idx) rest ;;
      Ok (m :: ms)
  end.

Module SpatialIndex.

Record t : Type := mk {
  source_points_ : list SpatialData;
  config_ : RegridConfig
}.

(** The constructor. *)
Definition new (source_points : list SpatialData) (config : RegridConfig)
  : outcome t :=
  match source_points with
  | [] => Err EmptySourceList
  | _ :: _ => Ok (mk source_points config)
  end.

Section Methods.
Variable std_sort : list neighbor -> list neighbor.
Variable self : t.

(** The conditional expression that turns a distance of the metric into
    kilometres; it is written out three times in the source. *)
Definition dist_km (target : SpatialData) (min_distance : R) : R :=
  match distance_metric (config_ self) with
  | HAVERSINE => min_distance
  | EUCLIDEAN =>
      min_distance * 111.32 *
      cos (to_radians (latitude (gridPoint target)))
  end.

(** The scan [for (const auto &source : source_points_)] for the nearest
    source; the state is (min_distance, source_lon, source_lat). *)
Fixpoint nearest_scan (target : SpatialData) (sources : list SpatialData)
    (st : R * R * R) : outcome (R * R * R) :=
  match sources with
  | [] => Ok st
  | source :: rest =>
      distance <- compute_distance
                    (longitude (gridPoint target)) (latitude (gridPoint target))
                    (longitude (gridPoint source)) (latitude (gridPoint source))
                    (distance_metric (config_ self)) ;;
      let '(min_distance, _, _) := st in
      if Rltb distance min_distance
      then nearest_scan target rest
             (distance, longitude (gridPoint source), latitude (gridPoint source))
      else nearest_scan target rest st
  end.

Definition nearest_neighbor (t_idx : nat) (target : SpatialData)
  : outcome NNMapping :=
  '(min_distance, source_lon, source_lat) <-
     nearest_scan target (source_points_ self) (DBL_MAX, 0, 0) ;;
  if Reqb min_distance DBL_MAX
  then Err (NoValidSource (longitude (gridPoint target))
                          (latitude (gridPoint target)))
  else
    Ok (mkNNMapping (longitude (gridPoint target)) (latitude (gridPoint target))
          source_lon source_lat (dist_km target min_distance) t_idx).

Definition find_nearest_neighbors (target_points : list SpatialData)
  : outcome (list NNMapping) :=
  for_each_target nearest_neighbor 0 target_points.

(** The admission test of one source for the IDW candidate list. *)
Definition admitted (target : SpatialData) (distance : R) : outcome bool :=
  match distance_metric (config_ self) with
  | EUCLIDEAN =>
      radius_deg <- km_to_degrees (radius (config_ self))
                      (latitude (gridPoint target)) ;;
      Ok (Rleb distance radius_deg)
  | HAVERSINE => Ok (Rleb distance (radius (config_ self)))
  end.

(** The first loop over the sources: the candidates, in source order,
    with their distances in the unit of the metric. *)
Fixpoint candidates (target : SpatialData) (sources : list SpatialData)
  : outcome (list neighbor) :=
  match sources with
  | [] => Ok []
  | source :: rest =>
      distance <- compute_distance
                    (longitude (gridPoint target)) (latitude (gridPoint target))
                    (longitude (gridPoint source)) (latitude (gridPoint source))
                    (distance_metric (config_ self)) ;;
      keep <- admitted target distance ;;
      neighbors <- candidates target rest ;;
      Ok (if keep
          then (longitude (gridPoint source), latitude (gridPoint source),
                distance) :: neighbors
          else neighbors)
  end.

(** [neighbors.resize (config_.max_points)] when the size exceeds it. *)
Definition truncate (neighbors : list neighbor) : list neighbor :=
  if (Z.of_nat (length neighbors) >? size_t_of_int (max_points (config_ self)))%Z
  then firstn (Z.to_nat (size_t_of_int (max_points (config_ self)))) neighbors
  else neighbors.

(** The conversion of the retained distances, for the Euclidean metric. *)
Definition convert (target : SpatialData) (neighbors : list neighbor)
  : list neighbor :=
  match distance_metric (config_ self) with
  | EUCLIDEAN =>
      map (fun nb : neighbor =>
             (fst nb,
              get2 nb * 111.32 *
              cos (to_radians (latitude (gridPoint target)))))
          neighbors
  | HAVERSINE => neighbors
  end.

Definition idw_neighbors (t_idx : nat) (target : SpatialData)
  : outcome IDWMapping :=
  neighbors <- candidates target (source_points_ self) ;;
  '(neighbors, is_fallback) <-
     (if (Z.of_nat (length neighbors) <?
          size_t_of_int (min_points (config_ self)))%Z
      then
        '(min_distance, source_lon, source_lat) <-
           nearest_scan target (source_points_ self) (DBL_MAX, 0, 0) ;;
        Ok (if negb (Reqb min_distance DBL_MAX)
            then [(source_lon, source_lat, dist_km target min_distance)]
            else [],
            true)
      else
        Ok (convert target (truncate (std_sort neighbors)), false)) ;;
  match neighbors with
  | [] => Err (NoValidSource (longitude (gridPoint target))
                             (latitude (gridPoint target)))
  | _ :: _ =>
      Ok (mkIDWMapping (longitude (gridPoint target))
            (latitude (gridPoint target)) neighbors t_idx is_fallback)
  end.

Definition find_idw_neighbors (target_points : list SpatialData)
  : outcome (list IDWMapping) :=
  for_each_target idw_neighbors 0 target_points.

End Methods.
End SpatialIndex.

(** ** interpolation.h *)

Module Interpolator.

Record t : Type := mk {
  source_points_ : list SpatialData;
  config_ : RegridConfig
}.

(** The constructor: a non-empty source list whose value vectors all have
    the size of the first one. *)
Definition new (source_points : list SpatialData) (config : RegridConfig)
  : outcome t :=
  match source_points with
  | [] => Err EmptySourceList
  | first :: _ =>
      let value_size := length (values first) in
      if forallb (fun point => Nat.eqb (length (values point)) value_size)
                 source_points
      then Ok (mk source_points config)
      else Err InconsistentValueSizes
  end.

(** [interpolated.values = ...] *)
Definition set_values (p : SpatialData) (vs : list R) : SpatialData :=
  mkSpatialData (gridPoint p) (time_step p) vs.

(** The test by which a source record answers to the coordinates of a
    mapping; it is written out in both searches of the source. *)
Definition same_point (src : SpatialData) (source_lon source_lat : R)
    (target : SpatialData) : bool :=
  Rltb (Rabs (longitude (gridPoint src) - source_lon)) 1e-6 &&
  Rltb (Rabs (latitude (gridPoint src) - source_lat)) 1e-6 &&
  (time_step src =? time_step target)%Z.

Section Methods.
Variable self : t.

(** The loop of [find_and_copy_source_values] over the sources that are
    left; the pair is the returned [bool] and the record [interpolated]
    as the call leaves it. *)
Fixpoint find_and_copy_from (sources : list SpatialData)
    (target : SpatialData) (source_lon source_lat : R)
    (interpolated : SpatialData) : bool * SpatialData :=
  match sources with
  | [] => (false, interpolated)
  | src :: rest =>
      if same_point src source_lon source_lat target
      then (true, set_values interpolated (values src))
      else find_and_copy_from rest target source_lon source_lat interpolated
  end.

Definition find_and_copy_source_values (target : SpatialData)
    (source_lon source_lat : R) (interpolated : SpatialData)
  : bool * SpatialData :=
  find_and_copy_from (source_points_ self) target source_lon source_lat
    interpolated.

(** One iteration of the loop of [interpolate_nearest_neighbor]. *)
Definition nn_step (target_points : list SpatialData) (mapping : NNMapping)
    (result : list SpatialData) : outcome (list SpatialData) :=
  match nth_error target_points (nn_target_idx mapping) with
  | None => Err InvalidTargetIndex
  | Some target =>
      let interpolated := target in
      let '(found, interpolated) :=
        find_and_copy_source_values target (nn_source_lon mapping)
          (nn_source_lat mapping) interpolated in
      Ok (if found then result ++ [interpolated] else result)
  end.

Fixpoint nn_loop (target_points : list SpatialData)
    (mappings : list NNMapping) (result : list SpatialData)
  : outcome (list SpatialData) :=
  match mappings with
  | [] => Ok result
  | mapping :: rest =>
      result' <- nn_step target_points mapping result ;;
      nn_loop target_points rest result'
  end.

Definition interpolate_nearest_neighbor (target_points : list SpatialData)
    (mappings : list NNMapping) : outcome (list SpatialData) :=
  result <- nn_loop target_points mappings [] ;;
  match result with
  | [] => Err NoInterpolation
  | _ :: _ => Ok result
  end.

(** The inner search of [interpolate_idw]: the pointer [source], [None]
    for [nullptr]. *)
Fixpoint find_source (sources : list SpatialData) (source_lon source_lat : R)
    (target : SpatialData) : option SpatialData :=
  match sources with
  | [] => None
  | src :: rest =>
      if same_point src source_lon source_lat target
      then Some src
      else find_source rest source_lon source_lat target
  end.

Definition weight_of (distance : R) : R :=
  if Rgtb distance 1e-6
  then 1 / Rpower distance (power (config_ self))
  else 1e6.

(** "Collect source points and weights": the two vectors [weights] and
    [source_points] grow together. *)
Fixpoint collect (target : SpatialData) (sources : list neighbor)
    (weights : list R) (source_points : list SpatialData)
  : list R * list SpatialData :=
  match sources with
  | [] => (weights, source_points)
  | (source_lon, source_lat, distance) :: rest =>
      match find_source (source_points_ self) source_lon source_lat target with
      | None => collect target rest weights source_points
      | Some source =>
          let weight := weight_of distance in
          collect target rest (weights ++ [weight]) (source_points ++ [source])
      end
  end.

(** The loop over [j]: [values[j] += weight * source_values[j]] for each
    position [j] of [values], starting at position [j0]. *)
Fixpoint add_weighted (weight : R) (source_values : list R) (j0 : nat)
    (values : list R) : list R :=
  match values with
  | [] => []
  | value :: rest =>
      (value + weight * nth j0 source_values 0)
        :: add_weighted weight source_values (S j0) rest
  end.

(** The loop over [i], on the state (weight_sum, interpolated.values). *)
Definition accumulate (weights : list R) (source_points : list SpatialData)
    (st : R * list R) : R * list R :=
  fold_left
    (fun (st : R * list R) (i : nat) =>
       let '(weight_sum, vals) := st in
       (weight_sum + nth i weights 0,
        add_weighted (nth i weights 0)
          (nth i (map values source_points) []) 0 vals))
    (seq 0 (length source_points)) st.

(** The values of a target in the IDW branch proper; [None] when no
    neighbor resolved and the target is skipped. *)
Definition idw_values (target : SpatialData) (sources : list neighbor)
  : option (list R) :=
  let '(weights, source_points) := collect target sources [] [] in
  match source_points with
  | [] => None
  | first :: _ =>
      let '(weight_sum, vals) :=
        accumulate weights source_points
          (0, repeat 0 (length (values first))) in
      Some (map (fun value => value / weight_sum) vals)
  end.

(** One iteration of the loop of [interpolate_idw]. *)
Definition idw_step (target_points : list SpatialData) (mapping : IDWMapping)
    (result : list SpatialData) : outcome (list SpatialData) :=
  match nth_error target_points (idw_target_idx mapping) with
  | None => Err InvalidTargetIndex
  | Some target =>
      let interpolated := set_values target [] in
      if idw_is_fallback mapping then
        match idw_sources mapping with
        | [(source_lon, source_lat, distance)] =>
            let '(found, interpolated) :=
              find_and_copy_source_values target source_lon source_lat
                interpolated in
            Ok (if found then result ++ [interpolated] else result)
        | _ => Err InvalidFallbackMapping
        end
      else
        match idw_values target (idw_sources mapping) with
        | None => Ok result
        | Some vals => Ok (result ++ [set_values interpolated vals])
        end
  end.

Fixpoint idw_loop (target_points : list SpatialData)
    (mappings : list IDWMapping) (result : list SpatialData)
  : outcome (list SpatialData) :=
  match mappings with
  | [] => Ok result
  | mapping :: rest =>
      result' <- idw_step target_points mapping result ;;
      idw_loop target_points rest result'
  end.

Definition interpolate_idw (target_points : list SpatialData)
    (mappings : list IDWMapping) : outcome (list SpatialData) :=
  result <- idw_loop target_points mappings [] ;;
  match result with
  | [] => Err NoInterpolation
  | _ :: _ => Ok result
  end.

(** The enumeration is closed, so the last branch of the source, "Unknown
    interpolation method", has no counterpart. *)
Definition interpolate (target_points : list SpatialData)
    (nn_mappings : list NNMapping) (idw_mappings : list IDWMapping)
  : outcome (list SpatialData) :=
  match interp_method (config_ self) with
  | NEAREST_NEIGHBOR => interpolate_nearest_neighbor target_points nn_mappings
  | INVERSE_DISTANCE_WEIGHTED => interpolate_idw target_points idw_mappings
  end.

End Methods.
End Interpolator.

(** ** Well-formed inputs *)

(** The invariant of a grid point that the reader enforces on every line it
    accepts, and that [compute_distance] checks again. *)
Definition valid_point (p : SpatialData) : Prop :=
  Rabs (latitude (gridPoint p)) <= 90 /\ Rabs (longitude (gridPoint p)) <= 360.

(** [INT_MAX]: the model of an [int] is an integer of magnitude at most it. *)
Definition INT_MAX : Z := 2147483647.

(** The configurations the data model admits, as far as the spatial mapper
    reads them: a non-negative radius and 1 <= min_points <= max_points. *)
Definition well_formed (c : RegridConfig) : Prop :=
  0 <= radius c /\
  (1 <= min_points c)%Z /\
  (min_points c <= max_points c)%Z /\
  (max_points c <= INT_MAX)%Z.

(** ** The vocabulary of the claims *)

(** The distance of the configured metric from a target to a source. *)
Definition distance_to (metric : DistanceMetric) (target source : SpatialData)
  : outcome R :=
  compute_distance (longitude (gridPoint target)) (latitude (gridPoint target))
    (longitude (gridPoint source)) (latitude (gridPoint source)) metric.

(** The source at position [k] is at distance [d] from the target, no source
    is nearer, and every source before it is strictly farther: the nearest
    source, the first seen among equals. *)
Definition first_nearest (metric : DistanceMetric) (target : SpatialData)
    (sources : list SpatialData) (k : nat) (source : SpatialData) (d : R)
  : Prop :=
  nth_error sources k = Some source /\
  distance_to metric target source = Ok d /\
  forall j s' d', nth_error sources j = Some s' ->
                  distance_to metric target s' = Ok d' ->
                  d <= d' /\ ((j < k)%nat -> d < d').

(** A distance of the metric, expressed in kilometres at the latitude of the
    target. *)
Definition in_km (metric : DistanceMetric) (target : SpatialData) (d : R) : R :=
  match metric with
  | HAVERSINE => d
  | EUCLIDEAN => d * 111.32 * cos (to_radians (latitude (gridPoint target)))
  end.

(** The admission test of the claims: Haversine compares the distance with
    the radius, both in km; Euclidean compares the distance in degrees with
    [km_to_degrees (radius, target latitude)]. *)
Definition passes (c : RegridConfig) (target source : SpatialData) : bool :=
  match distance_to (distance_metric c) target source with
  | Ok d =>
      match distance_metric c with
      | HAVERSINE => Rleb d (radius c)
      | EUCLIDEAN =>
          match km_to_degrees (radius c) (latitude (gridPoint target)) with
          | Ok radius_deg => Rleb d radius_deg
          | Err _ => false
          end
      end
  | Err _ => false
  end.

(** The number of sources that pass the admission test. *)
Definition admitted_count (c : RegridConfig) (target : SpatialData)
    (sources : list SpatialData) : nat :=
  length (filter (passes c target) sources).

(** What is known of a candidate of the IDW search: its distance is
    non-negative and, in kilometres, within the radius; and the latitude of
    the target is in range. *)
Definition candidate_ok (c : RegridConfig) (target : SpatialData) (nb : neighbor)
  : Prop :=
  0 <= get2 nb /\
  in_km (distance_metric c) target (get2 nb) <= radius c /\
  Rabs (latitude (gridPoint target)) <= 90.

(** [nb] is an admitted source of the list, with its distance in the unit of
    the metric. *)
Definition candidate_of (c : RegridConfig) (target : SpatialData)
    (sources : list SpatialData) (nb : neighbor) : Prop :=
  exists source d,
    In source sources /\
    distance_to (distance_metric c) target source = Ok d /\
    passes c target source = true /\
    nb = (longitude (gridPoint source), latitude (gridPoint source), d).


(** ** Sample data *)

(** One source record at the origin, for time step 1. *)
Definition origin : SpatialData := mkSpatialData (mkGridPoint 0 0) 1 [7].

(** The default configuration with min_points lowered to 1, as
    [set_min_points (1)] leaves it. *)
Definition config_min1 : RegridConfig := Builder.with_min_points default_config 1.

(** ** The vocabulary of the interpolation claims *)

(** Source resolution: the first-seen source whose longitude and latitude
    are within 1e-6 of the reported ones and whose time_step is the
    target's. *)
Definition resolve (sources : list SpatialData) (source_lon source_lat : R)
    (target : SpatialData) : option SpatialData :=
  find (fun src => Interpolator.same_point src source_lon source_lat target)
       sources.

(** The weight of a neighbor: 1 / dist^power when dist > 1e-6, and the cap
    1e6 otherwise. *)
Definition idw_weight (power distance : R) : R :=
  if Rgtb distance 1e-6 then 1 / Rpower distance power else 1e6.

(** The neighbors that resolve, in order, each with its weight. *)
Definition resolved_neighbors (sources : list SpatialData) (power : R)
    (target : SpatialData) (nbs : list neighbor) : list (R * SpatialData) :=
  flat_map
    (fun nb : neighbor =>
       let '(source_lon, source_lat, distance) := nb in
       match resolve sources source_lon source_lat target with
       | Some source => [(idw_weight power distance, source)]
       | None => []
       end)
    nbs.

Definition Rsum (l : list R) : R := fold_right Rplus 0 l.

(** Component [j] of the weighted mean:
    (sum_i w_i * source_i.values[j]) / (sum_i w_i). *)
Definition weighted_mean (rs : list (R * SpatialData)) (j : nat) : R :=
  Rsum (map (fun r : R * SpatialData => fst r * nth j (values (snd r)) 0) rs)
  / Rsum (map fst rs).

(** A source of the year 2000 at the origin, and a target at the same place
    for the year 2001: the time steps do not match. *)
Definition source_2000 : SpatialData := mkSpatialData (mkGridPoint 0 0) 2000 [7].
Definition target_2001 : SpatialData := mkSpatialData (mkGridPoint 0 0) 2001 [0].

Definition config_nn : RegridConfig :=
  Builder.with_interp_method
    (Builder.with_distance_metric default_config EUCLIDEAN) NEAREST_NEIGHBOR.



(** * The reader, the writer, the pipeline, paths and the logger

    Further sources embedded (all under [include/fastregrid]):
    - [filesystem.h] : [path::operator/];
    - [logger.h]     : [FastRegridLogger::log], [setMinLevel];
    - [io.h]         : the loop of [InputReader::read_grid], the constructor
                       of [OutputWriter];
    - [regridder.h]  : the constructor of [Regridder] and [regrid].

    Conventions.  The content of a file enters as the value the stream
    extractions deliver, and what is written leaves as a value: the file
    system itself, [create_directory], [remove], [initialize] and the
    formatting of numbers are not embedded.  The messages under
    [config_.verbose] are left out as before. *)

(** ** filesystem.h *)

Module filesystem.

(** The character ['\\']. *)
Definition backslash : ascii := ascii_of_nat 92.

(** [s.back ()], [None] on the empty string, where the source never asks. *)
Fixpoint back (s : string) : option ascii :=
  match s with
  | EmptyString => None
  | String c EmptyString => Some c
  | String _ rest => back rest
  end.

(** [s.back () != c] *)
Definition back_ne (s : string) (c : ascii) : bool :=
  match back s with
  | Some b => negb (Ascii.eqb b c)
  | None => true
  end.

Record path : Type := mk_path { path_ : string }.

(** [path::operator/] *)
Definition div (self : path) (other : string) : path :=
  let result := path_ self in
  let result :=
    if negb (Builder.empty result) && back_ne result "/" &&
       back_ne result backslash
    then (result ++ "/")%string
    else result in
  let result := (result ++ other)%string in
  mk_path result.

(** [path::string] *)
Definition string_of (self : path) : string := path_ self.

End filesystem.

(** ** logger.h *)

Module FastRegridLogger.

Inductive LogLevel : Type := DEBUG | INFO | WARN | ERROR.

(** The values of the enumerators, by which [level < minLevel_] compares. *)
Definition rank (level : LogLevel) : nat :=
  match level with
  | DEBUG => 0
  | INFO => 1
  | WARN => 2
  | ERROR => 3
  end.

Definition LogLevel_eqb (a b : LogLevel) : bool := Nat.eqb (rank a) (rank b).

(** The members of the logger; of [logFile_] only whether it is open. *)
Record t : Type := mk {
  logFile_is_open : bool;
  minLevel_ : LogLevel;
  initialized_ : bool
}.

(** The state of the instance before [initialize]. *)
Definition instance : t := mk false INFO false.

Inductive stream : Type := cout | cerr | logFile.

Definition levelToString (level : LogLevel) : string :=
  match level with
  | DEBUG => "DEBUG"
  | INFO => "INFO"
  | WARN => "WARN"
  | ERROR => "ERROR"
  end.

(** [log]: the lines it puts out, in order, each with the stream it goes
    to.  [timestamp] is what [getTimestamp] returns at the call. *)
Definition log (self : t) (timestamp : string) (level : LogLevel)
    (message details : string) : list (stream * string) :=
  if negb (initialized_ self) || (rank level <? rank (minLevel_ self))%nat
  then []
  else
    let levelStr := levelToString level in
    let prefix :=
      if LogLevel_eqb level WARN then "[WARNING]"%string
      else if LogLevel_eqb level ERROR then "[ERROR]"%string
      else ("[" ++ levelStr ++ "]")%string in
    let logMessage :=
      ("[FastRegrid][" ++ timestamp ++ "] " ++ prefix ++ " " ++ message)%string
    in
    let logMessage :=
      if negb (Builder.empty details)
      then (logMessage ++ " [" ++ details ++ "]")%string
      else logMessage in
    (if LogLevel_eqb level DEBUG then
       if LogLevel_eqb (minLevel_ self) DEBUG && LogLevel_eqb level DEBUG
       then [(cout, logMessage)]
       else []
     else if LogLevel_eqb level ERROR then
       [(cerr, logMessage); (cout, logMessage)]
     else
       [(cout, logMessage)])
    ++ (if logFile_is_open self then [(logFile, logMessage)] else []).

Definition setMinLevel (self : t) (level : LogLevel) : t :=
  mk (logFile_is_open self) level (initialized_ self).

End FastRegridLogger.

(** ** io.h *)

Module InputReader.

(** A data line as the extractions of [read_grid] see it.  [coords] is what
    [iss >> longitude >> latitude >> time_step] delivers, [None] when it
    fails; [numbers] are the doubles that the extractions after it deliver,
    one after the other, up to the first that fails. *)
Record line : Type := mkLine {
  coords : option (R * R * Z);
  numbers : list R
}.

(** The exceptions of [read_grid] once the file is open, each with the line
    number of its message. *)
Inductive failure : Type :=
| InvalidCoordinates (line_num : N)    (* "Invalid coordinates at line ..." *)
| MissingMonthlyValues (line_num : N)  (* "Missing monthly values at line ..." *)
| NoValuesFound (line_num : N)         (* "No values found at line ..." *)
| EmptyInputFile.                      (* "Empty input file: ..." *)

(** [OutOfFuel]: a loop of [adjust_longitude] has not ended within the
    fuel. *)
Inductive run (A : Type) : Type :=
| Returns (a : A)
| Throws (f : failure)
| OutOfFuel.
Arguments Returns {A} a.
Arguments Throws {A} f.
Arguments OutOfFuel {A}.

Section ReadGrid.
Variable rnd : R -> R.
Variable fuel : nat.
Variable config_ : RegridConfig.

(** The body of the loop over the lines: [None] for [continue], the point
    that is pushed back otherwise. *)
Definition read_line (line_num : N) (l : line) : run (option SpatialData) :=
  match coords l with
  | None => Returns None
  | Some (longitude, latitude, time_step) =>
      if Rgtb (Rabs latitude) 90 || Rgtb (Rabs longitude) 360
      then Throws (InvalidCoordinates line_num)
      else
        match (if adjust_longitude_flag config_
               then adjust_longitude rnd fuel longitude
               else Some longitude) with
        | None => OutOfFuel
        | Some longitude =>
            match data_layout config_ with
            | GRID_BY_TIME =>
                if (length (numbers l) <? 12)%nat
                then Throws (MissingMonthlyValues line_num)
                else Returns
                       (Some (mkSpatialData (mkGridPoint longitude latitude)
                                time_step (firstn 12 (numbers l))))
            | YEAR_BY_YEAR =>
                match numbers l with
                | [] => Throws (NoValuesFound line_num)
                | _ :: _ =>
                    Returns
                      (Some (mkSpatialData (mkGridPoint longitude latitude)
                               time_step (numbers l)))
                end
            end
        end
  end.

(** [while (std::getline (file, line))], on the lines after the header. *)
Fixpoint read_lines (line_num : N) (lines : list line)
    (points : list SpatialData) : run (list SpatialData) :=
  match lines with
  | [] => Returns points
  | l :: rest =>
      let line_num := (line_num + 1)%N in
      match read_line line_num l with
      | Returns None => read_lines line_num rest points
      | Returns (Some point) => read_lines line_num rest (points ++ [point])
      | Throws f => Throws f
      | OutOfFuel => OutOfFuel
      end
  end.

Definition read_grid (lines : list line) : run (list SpatialData) :=
  match read_lines 1 lines [] with
  | Returns [] => Throws EmptyInputFile
  | r => r
  end.

End ReadGrid.
End InputReader.

Module OutputWriter.

Record t : Type := mk {
  config_ : RegridConfig;
  output_path_ : string
}.

(** The directory prefix the constructor computes. *)
Definition normalized (config : RegridConfig) : string :=
  let output_path_ :=
    if Builder.empty (output_path config) then "./"%string
    else output_path config in
  if filesystem.back_ne output_path_ "/" &&
     filesystem.back_ne output_path_ filesystem.backslash
  then (output_path_ ++ "/")%string
  else output_path_.

(** The constructor.  [mkdir_fails path] tells whether [mkdir] on [path]
    returns non-zero with [errno] other than [EEXIST]; [None] is the
    [std::runtime_error] "Cannot create output directory". *)
Definition new (mkdir_fails : string -> bool) (config : RegridConfig)
  : option t :=
  let output_path_ := normalized config in
  if negb (Builder.empty output_path_) &&
     negb (String.eqb output_path_ "./")
  then
    if mkdir_fails output_path_ then None
    else Some (mk config output_path_)
  else Some (mk config output_path_).

(** The name under which a writer opens [filename]. *)
Definition file_name (self : t) (filename : string) : string :=
  (output_path_ self ++ filename)%string.

End OutputWriter.

(** ** regridder.h *)

Module Regridder.

(** The exceptions that leave [regrid]: its own [std::runtime_error]s, and
    those of the mapper and of the interpolator. *)
Inductive failure : Type :=
| InvalidHeaders          (* "Invalid headers in source or target file" *)
| GridByTimeColumns       (* "GRID_BY_TIME requires 12 monthly value columns plus Lon, Lat, Year" *)
| DifferentColumns        (* "Source and target files have different number of columns" *)
| Raised (e : error).

Inductive run (A : Type) : Type :=
| Returns (a : A)
| Throws (f : failure).
Arguments Returns {A} a.
Arguments Throws {A} f.

Definition lift {A : Type} (r : outcome A) : run A :=
  match r with
  | Ok a => Returns a
  | Err e => Throws (Raised e)
  end.

Definition and_then {A B : Type} (r : run A) (k : A -> run B) : run B :=
  match r with
  | Returns a => k a
  | Throws f => Throws f
  end.

Record t : Type := mk {
  source_file_ : string;
  target_file_ : string;
  config_ : RegridConfig
}.

(** The constructor; [None] is "Source or target file path is empty". *)
Definition new (source_file target_file : string) (config : RegridConfig)
  : option t :=
  if Builder.empty source_file || Builder.empty target_file
  then None
  else Some (mk source_file target_file config).

(** What the two readers return to [regrid]. *)
Record inputs : Type := mkInputs {
  source_points : list SpatialData;
  target_points : list SpatialData;
  headers : list string;
  target_headers : list string
}.

(** What [regrid] hands to the writer: the mappings that are written, if
    any, and the rows and the headers of "regridded.txt". *)
Record outputs : Type := mkOutputs {
  nn_mappings_written : option (list NNMapping);
  idw_mappings_written : option (list IDWMapping);
  interpolated_points : list SpatialData;
  regridded_headers : list string
}.

Definition is_nearest_neighbor (m : InterpolationMethod) : bool :=
  match m with NEAREST_NEIGHBOR => true | INVERSE_DISTANCE_WEIGHTED => false end.

Definition is_idw (m : InterpolationMethod) : bool :=
  match m with NEAREST_NEIGHBOR => false | INVERSE_DISTANCE_WEIGHTED => true end.

Definition is_grid_by_time (l : DataLayout) : bool :=
  match l with GRID_BY_TIME => true | YEAR_BY_YEAR => false end.

Definition nonempty {A : Type} (l : list A) : bool :=
  match l with [] => false | _ :: _ => true end.

Section Regrid.
Variable std_sort : list neighbor -> list neighbor.
Variable self : t.

(** [regrid], from the validation of the headers to the call of
    [write_regridded_data].  The two calls of [write_gridlist], which read
    the files once more and write the lists of coordinates, are left out
    with the file system. *)
Definition regrid (input : inputs) : run outputs :=
  let source_points := source_points input in
  let target_points := target_points input in
  let headers := headers input in
  let target_headers := target_headers input in
  if (length headers <? 3)%nat || (length target_headers <? 3)%nat
  then Throws InvalidHeaders
  else if is_grid_by_time (data_layout (config_ self)) &&
          negb (length headers =? 15)%nat
  then Throws GridByTimeColumns
  else if negb (length headers =? length target_headers)%nat
  then Throws DifferentColumns
  else
    and_then (lift (SpatialIndex.new source_points (config_ self)))
      (fun index =>
    and_then
      (if is_nearest_neighbor (interp_method (config_ self)) ||
          write_mappings (config_ self)
       then lift (SpatialIndex.find_nearest_neighbors index target_points)
       else Returns [])
      (fun nn_mappings =>
    and_then
      (if is_idw (interp_method (config_ self)) ||
          write_mappings (config_ self)
       then lift (SpatialIndex.find_idw_neighbors std_sort index target_points)
       else Returns [])
      (fun idw_mappings =>
    and_then (lift (Interpolator.new source_points (config_ self)))
      (fun interpolator =>
    and_then
      (lift (Interpolator.interpolate interpolator target_points
               nn_mappings idw_mappings))
      (fun interpolated_points =>
    Returns
      (mkOutputs
         (if write_mappings (config_ self) && nonempty nn_mappings
          then Some nn_mappings else None)
         (if write_mappings (config_ self) && nonempty idw_mappings
          then Some idw_mappings else None)
         interpolated_points headers)))))).

End Regrid.
End Regridder.

(** ** Vocabulary of the reader and of the pipeline *)

(** What [read_grid] guarantees of a record under a configuration: a
    latitude within 90 degrees, a longitude within 360 degrees, within 180
    when [adjust_longitude] is set, and twelve values under GRID_BY_TIME,
    at least one under YEAR_BY_YEAR. *)
Definition well_read (c : RegridConfig) (p : SpatialData) : Prop :=
  valid_point p /\
  (adjust_longitude_flag c = true ->
   -180 <= longitude (gridPoint p) <= 180) /\
  match data_layout c with
  | GRID_BY_TIME => length (values p) = 12%nat
  | YEAR_BY_YEAR => (1 <= length (values p))%nat
  end.

(** A well-formed line of a GRID_BY_TIME file, with fourteen numbers after
    the year, and a line that does not parse. *)
Definition sample_line : InputReader.line :=
  InputReader.mkLine (Some (190, 45, 2000%Z))
    [1; 2; 3; 4; 5; 6; 7; 8; 9; 10; 11; 12; 13; 14].
Definition malformed_line : InputReader.line := InputReader.mkLine None [].

(** The NN configuration for a YEAR_BY_YEAR file, a regridder on it, and
    what the readers hand over for a file of one record, read as source and
    as target. *)
Definition config_year_nn : RegridConfig :=
  Builder.with_data_layout config_nn YEAR_BY_YEAR.
Definition sample_headers : list string :=
  ["Lon"%string; "Lat"%string; "Year"%string; "Value"%string].
Definition sample_regridder : Regridder.t :=
  Regridder.mk "source.txt" "target.txt" config_year_nn.
Definition sample_inputs : Regridder.inputs :=
  Regridder.mkInputs [origin] [origin] sample_headers sample_headers.

(** * Properties *)

(** ** The boolean comparisons *)

Lemma Rltb_true (x y : R) : Rltb x y = true <-> x < y.
Proof. unfold Rltb; destruct (Rlt_dec x y); split; intros; try easy. Qed.

Lemma Rltb_false (x y : R) : Rltb x y = false <-> y <= x.
Proof.
  unfold Rltb; destruct (Rlt_dec x y); split; intros; try easy; lra.
Qed.

Lemma Rleb_true (x y : R) : Rleb x y = true <-> x <= y.
Proof. unfold Rleb; destruct (Rle_dec x y); split; intros; try easy. Qed.

Lemma Rleb_false (x y : R) : Rleb x y = false <-> y < x.
Proof.
  unfold Rleb; destruct (Rle_dec x y); split; intros; try easy; lra.
Qed.

Lemma Rgtb_true (x y : R) : Rgtb x y = true <-> y < x.
Proof. apply Rltb_true. Qed.

Lemma Rgtb_false (x y : R) : Rgtb x y = false <-> x <= y.
Proof. apply Rltb_false. Qed.

Lemma Reqb_true (x y : R) : Reqb x y = true <-> x = y.
Proof. unfold Reqb; destruct (Req_dec_T x y); split; intros; try easy. Qed.

Lemma Reqb_false (x y : R) : Reqb x y = false <-> x <> y.
Proof. unfold Reqb; destruct (Req_dec_T x y); split; intros; try easy. Qed.

(** Decide one comparison, keeping the fact. *)
Ltac cmp_lt x y :=
  let H := fresh "Hcmp" in
  destruct (Rltb x y) eqn:H; [apply Rltb_true in H | apply Rltb_false in H].

Ltac cmp_le x y :=
  let H := fresh "Hcmp" in
  destruct (Rleb x y) eqn:H; [apply Rleb_true in H | apply Rleb_false in H].

(** ** The configuration builder *)

Module BuilderFacts.
Import Builder.


Lemma default_valid : valid (build new).
Proof.
  constructor; simpl; try lra; try lia; try discriminate.
Qed.

(** Every accepted call keeps a valid configuration valid. *)
Lemma call_valid (b b' : RegridConfigBuilder) (s : setter_call) :
  valid (config_ b) -> call b s = Ok b' -> valid (config_ b').
Proof.
  intros [Hr Hp Hmax Hmin Hmm Hc Hn Hi] Hcall.
  destruct s; simpl in Hcall;
    unfold set_interpolation, set_distance_metric, set_data_layout,
      set_radius, set_power, set_max_points, set_min_points,
      set_adjust_longitude, set_precision, set_verbose, set_write_mappings,
      set_nn_mappings_file, set_idw_mappings_file, set_chunk_size,
      set_output_path in Hcall.
  - inversion Hcall; subst; constructor; simpl; assumption.
  - inversion Hcall; subst; constructor; simpl; assumption.
  - inversion Hcall; subst; constructor; simpl; assumption.
  - cmp_lt radius0 0; inversion Hcall; subst; constructor; simpl; assumption.
  - cmp_le power0 0; inversion Hcall; subst; constructor; simpl; assumption.
  - destruct (max_points0 <=? 0)%Z eqn:E; [discriminate|].
    apply Z.leb_gt in E. simpl in Hcall.
    destruct (min_points (config_ b) >? max_points0)%Z eqn:E2;
      inversion Hcall; subst; constructor; simpl; try assumption; lia.
  - destruct (min_points0 <=? 0)%Z eqn:E; [discriminate|].
    apply Z.leb_gt in E.
    destruct (min_points0 >? max_points (config_ b))%Z eqn:E2; [discriminate|].
    rewrite Z.gtb_ltb in E2. apply Z.ltb_ge in E2.
    inversion Hcall; subst; constructor; simpl; assumption.
  - inversion Hcall; subst; constructor; simpl; assumption.
  - destruct (precision0 <? 0)%Z; inversion Hcall; subst;
      constructor; simpl; assumption.
  - inversion Hcall; subst; constructor; simpl; assumption.
  - inversion Hcall; subst; constructor; simpl; assumption.
  - destruct (empty filename) eqn:E; [discriminate|].
    inversion Hcall; subst; constructor; simpl; try assumption.
    intros ->; discriminate.
  - destruct (empty filename) eqn:E; [discriminate|].
    inversion Hcall; subst; constructor; simpl; try assumption.
    intros ->; discriminate.
  - destruct (chunk_size0 =? 0)%N eqn:E; [discriminate|].
    apply N.eqb_neq in E.
    inversion Hcall; subst; constructor; simpl; assumption.
  - inversion Hcall; subst; constructor; simpl; assumption.
Qed.


Lemma chain_valid (calls : list setter_call) (b b' : RegridConfigBuilder) :
  valid (config_ b) -> chain b calls = Ok b' -> valid (config_ b').
Proof.
  revert b; induction calls as [|s rest IH]; intros b Hb Hc; simpl in Hc.
  - inversion Hc; subst; exact Hb.
  - destruct (call b s) as [b1|e] eqn:E; simpl in Hc; [|discriminate].
    eapply IH; [|exact Hc]. eapply call_valid; eauto.
Qed.


(** C10.  After any chain of setter calls that all succeed, the built
    configuration has min_points <= max_points; and [set_max_points] with a
    positive argument never throws: it stores the new max_points and lowers
    min_points to it when min_points was larger. *)
Theorem build_min_le_max :
  (forall calls b, chain new calls = Ok b ->
                   (min_points (build b) <= max_points (build b))%Z) /\
  (forall b m, (0 < m)%Z ->
     exists b', set_max_points b m = Ok b' /\
                max_points (build b') = m /\
                min_points (build b') = Z.min (min_points (build b)) m).
Proof.
  split.
  - intros calls b H.
    apply (valid_min_max _ (chain_valid calls new b default_valid H)).
  - intros b m Hm. unfold set_max_points, build.
    destruct (m <=? 0)%Z eqn:E; [apply Z.leb_le in E; lia|].
    simpl. destruct (min_points (config_ b) >? m)%Z eqn:E2.
    + eexists; split; [reflexivity|]. simpl.
      rewrite Z.gtb_ltb in E2. apply Z.ltb_lt in E2. lia.
    + eexists; split; [reflexivity|]. simpl.
      rewrite Z.gtb_ltb in E2. apply Z.ltb_ge in E2. lia.
Qed.

(** The default builder has min_points = max_points = 5; lowering
    max_points to 3 succeeds and pulls min_points down with it. *)
Lemma build_min_le_max_witness :
  chain new [SetMaxPoints 3] = Ok (mk (with_min_points (with_max_points default_config 3) 3)) /\
  (min_points (with_min_points (with_max_points default_config 3) 3)
     <= max_points (with_min_points (with_max_points default_config 3) 3))%Z.
Proof.
  split; [reflexivity|].
  apply (proj1 build_min_le_max [SetMaxPoints 3]
           (mk (with_min_points (with_max_points default_config 3) 3))).
  reflexivity.
Defined.

End BuilderFacts.

(** ** Geodesy primitives *)

Lemma Rabs_le_inv (a b : R) : Rabs a <= b -> - b <= a <= b.
Proof. unfold Rabs; destruct (Rcase_abs a); lra. Qed.

Lemma to_radians_bounds (lat : R) :
  Rabs lat <= 90 -> - (PI / 2) <= to_radians lat <= PI / 2.
Proof.
  intros H. unfold to_radians.
  assert (Hpi := PI_RGT_0).
  apply Rabs_le_inv in H. destruct H as [H1 H2].
  split; nra.
Qed.

Lemma cos_lat_nonneg (lat : R) : Rabs lat <= 90 -> 0 <= cos (to_radians lat).
Proof.
  intros H. destruct (to_radians_bounds lat H). now apply cos_ge_0.
Qed.

Lemma km_to_degrees_rejects (km lat : R) :
  km < 0 \/ Rabs lat > 90 ->
  exists what, km_to_degrees km lat = Err (InvalidArgument what).
Proof.
  intros H. unfold km_to_degrees. cmp_lt km 0; [eauto|].
  destruct (Rgtb (Rabs lat) 90) eqn:E; [eauto|].
  apply Rgtb_false in E. lra.
Qed.

Lemma km_to_degrees_value (km lat : R) :
  0 <= km -> Rabs lat <= 90 ->
  km_to_degrees km lat
    = Ok (km / (111.32 * Rmax (cos (to_radians lat)) 1e-10)).
Proof.
  intros Hkm Hlat. unfold km_to_degrees.
  cmp_lt km 0; [lra|].
  destruct (Rgtb (Rabs lat) 90) eqn:E; [apply Rgtb_true in E; lra|].
  assert (Hcos := cos_lat_nonneg lat Hlat).
  rewrite (Rabs_right (cos (to_radians lat))) by lra.
  unfold Rmax.
  cmp_lt (cos (to_radians lat)) 1e-10;
    destruct (Rle_dec (cos (to_radians lat)) 1e-10) as [L|L];
    try reflexivity; try lra.
  replace (cos (to_radians lat)) with 1e-10 by lra. reflexivity.
Qed.

(** A returned value tells that the arguments were accepted. *)
Lemma km_to_degrees_inv (km lat rd : R) :
  km_to_degrees km lat = Ok rd ->
  0 <= km /\ Rabs lat <= 90 /\
  rd = km / (111.32 * Rmax (cos (to_radians lat)) 1e-10).
Proof.
  intros H.
  destruct (Rlt_dec km 0) as [L|L].
  { destruct (km_to_degrees_rejects km lat (or_introl L)) as [w Hw].
    congruence. }
  destruct (Rgt_dec (Rabs lat) 90) as [G|G].
  { destruct (km_to_degrees_rejects km lat (or_intror G)) as [w Hw].
    congruence. }
  rewrite km_to_degrees_value in H by lra.
  inversion H. repeat split; lra.
Qed.

(** C6.  [km_to_degrees km lat] fails, with [InvalidArgument], exactly when
    km < 0 or |lat| > 90; otherwise it returns km / (111.32 * c), where c is
    cos (to_radians lat) floored at 1e-10, a divisor that is never zero, at
    the poles too. *)
Theorem km_to_degrees_spec (km lat : R) :
  (km < 0 \/ Rabs lat > 90 ->
     exists what, km_to_degrees km lat = Err (InvalidArgument what)) /\
  (0 <= km /\ Rabs lat <= 90 ->
     let c := Rmax (cos (to_radians lat)) 1e-10 in
     111.32 * c <> 0 /\ km_to_degrees km lat = Ok (km / (111.32 * c))).
Proof.
  split.
  - apply km_to_degrees_rejects.
  - intros [Hkm Hlat] c.
    assert (Hc : 1e-10 <= c) by apply Rmax_r.
    split; [lra|]. apply km_to_degrees_value; assumption.
Qed.

(** At the north pole the cosine is 0 and the floor 1e-10 is the divisor. *)
Lemma km_to_degrees_spec_witness :
  km_to_degrees 1 90 = Ok (1 / (111.32 * Rmax (cos (to_radians 90)) 1e-10)).
Proof.
  apply (proj2 (km_to_degrees_spec 1 90)).
  split; [lra|]. rewrite Rabs_right; lra.
Defined.

Lemma km_to_degrees_pole (km : R) :
  0 <= km -> km_to_degrees km 90 = Ok (km / (111.32 * 1e-10)).
Proof.
  intros H.
  rewrite km_to_degrees_value by (try rewrite Rabs_right; lra).
  unfold to_radians.
  replace (90 * PI / 180) with (PI / 2) by lra.
  rewrite cos_PI2. unfold Rmax.
  destruct (Rle_dec 0 1e-10); [reflexivity|lra].
Qed.

(** ** Longitude normalisation *)

Lemma nat_above (z : R) : exists n : nat, z <= INR n.
Proof.
  destruct (Rle_dec z 0) as [Hz|Hz].
  - exists 0%nat. simpl. lra.
  - destruct (archimed z) as [Hup _].
    assert (Hpos : (0 < up z)%Z) by (apply lt_IZR; lra).
    exists (Z.to_nat (up z)).
    rewrite INR_IZR_INZ, Z2Nat.id by lia. lra.
Qed.

Section ShiftLoops.
Variable rnd : R -> R.

Lemma shift_down_more_fuel (n m : nat) (x r : R) :
  shift_down rnd n x = Some r -> (n <= m)%nat -> shift_down rnd m x = Some r.
Proof.
  revert m x. induction n as [|n IH]; intros m x H Hle.
  - simpl in H. destruct (Rgtb x 180) eqn:E; [discriminate|].
    destruct m; simpl; rewrite E; exact H.
  - destruct m as [|m]; [lia|]. simpl in *.
    destruct (Rgtb x 180); [|exact H].
    apply IH; [exact H|lia].
Qed.

Lemma shift_up_more_fuel (n m : nat) (x r : R) :
  shift_up rnd n x = Some r -> (n <= m)%nat -> shift_up rnd m x = Some r.
Proof.
  revert m x. induction n as [|n IH]; intros m x H Hle.
  - simpl in H. destruct (Rltb x (-180)) eqn:E; [discriminate|].
    destruct m; simpl; rewrite E; exact H.
  - destruct m as [|m]; [lia|]. simpl in *.
    destruct (Rltb x (-180)); [|exact H].
    apply IH; [exact H|lia].
Qed.

(** The loops end on every input of magnitude at most [B] as soon as each
    shift moves the longitude by at least [delta] towards the interval. *)
Variables B delta : R.
Hypothesis delta_pos : 0 < delta.
Hypothesis rnd_mono : forall x y, x <= y -> rnd x <= rnd y.
Hypothesis rnd_180 : rnd 180 = 180.
Hypothesis rnd_m180 : rnd (-180) = -180.
Hypothesis down_progress :
  forall x, 180 < x -> x <= B ->
            rnd (x - 360) <= 180 \/ rnd (x - 360) <= x - delta.
Hypothesis up_progress :
  forall x, x < -180 -> - B <= x ->
            -180 <= rnd (x + 360) \/ x + delta <= rnd (x + 360).

Lemma shift_down_ends (n : nat) :
  forall x, x <= B -> x <= 180 + delta * INR n ->
  exists r, shift_down rnd n x = Some r /\ r <= 180 /\
            (x <= 180 -> r = x) /\ (180 < x -> -180 <= r).
Proof.
  induction n as [|n IH]; intros x HB Hn.
  - simpl in Hn. simpl.
    destruct (Rgtb x 180) eqn:E; [apply Rgtb_true in E; lra|].
    apply Rgtb_false in E. exists x. repeat split; auto; lra.
  - simpl shift_down.
    destruct (Rgtb x 180) eqn:E.
    + apply Rgtb_true in E.
      assert (Hp := down_progress x E HB).
      assert (Hlow : -180 <= rnd (x - 360)).
      { rewrite <- rnd_m180. apply rnd_mono. lra. }
      rewrite S_INR in Hn.
      assert (0 <= delta * INR n) by
        (apply Rmult_le_pos; [lra|apply pos_INR]).
      destruct (IH (rnd (x - 360))) as (r & Hr & Hr180 & Heq & Hgt);
        [destruct Hp; lra|destruct Hp; lra|].
      exists r. split; [exact Hr|]. split; [exact Hr180|].
      split; [intros; lra|].
      intros _. destruct (Rle_dec (rnd (x - 360)) 180) as [L|L].
      * rewrite (Heq L). exact Hlow.
      * apply Hgt. lra.
    + apply Rgtb_false in E. exists x. repeat split; auto; lra.
Qed.

Lemma shift_up_ends (n : nat) :
  forall x, - B <= x -> -180 - delta * INR n <= x ->
  exists r, shift_up rnd n x = Some r /\ -180 <= r /\
            (-180 <= x -> r = x) /\ (x < -180 -> r <= 180).
Proof.
  induction n as [|n IH]; intros x HB Hn.
  - simpl in Hn. simpl.
    destruct (Rltb x (-180)) eqn:E; [apply Rltb_true in E; lra|].
    apply Rltb_false in E. exists x. repeat split; auto; lra.
  - simpl shift_up.
    destruct (Rltb x (-180)) eqn:E.
    + apply Rltb_true in E.
      assert (Hp := up_progress x E HB).
      assert (Hhigh : rnd (x + 360) <= 180).
      { rewrite <- rnd_180. apply rnd_mono. lra. }
      rewrite S_INR in Hn.
      assert (0 <= delta * INR n) by
        (apply Rmult_le_pos; [lra|apply pos_INR]).
      destruct (IH (rnd (x + 360))) as (r & Hr & Hr180 & Heq & Hlt);
        [destruct Hp; lra|destruct Hp; lra|].
      exists r. split; [exact Hr|]. split; [exact Hr180|].
      split; [intros; lra|].
      intros _. destruct (Rle_dec (-180) (rnd (x + 360))) as [L|L].
      * rewrite (Heq L). exact Hhigh.
      * apply Hlt. lra.
    + apply Rltb_false in E. exists x. repeat split; auto; lra.
Qed.

Lemma adjust_longitude_ends (x : R) :
  - B <= x <= B ->
  exists fuel r,
    (forall fuel', (fuel <= fuel')%nat ->
                   adjust_longitude rnd fuel' x = Some r) /\
    -180 <= r <= 180.
Proof.
  intros [HB1 HB2].
  destruct (nat_above ((x - 180) / delta)) as [n1 Hn1].
  assert (Hx1 : x <= 180 + delta * INR n1).
  { apply (Rmult_le_compat_l delta) in Hn1; [|lra].
    replace (delta * ((x - 180) / delta)) with (x - 180) in Hn1
      by (field; lra).
    lra. }
  destruct (shift_down_ends n1 x HB2 Hx1) as (r1 & Hr1 & Hle1 & Heq1 & Hgt1).
  assert (Hr1B : - B <= r1).
  { destruct (Rle_dec x 180) as [L|L]; [rewrite (Heq1 L); exact HB1|].
    assert (-180 <= r1) by (apply Hgt1; lra).
    assert (180 < B) by lra. lra. }
  destruct (nat_above ((-180 - r1) / delta)) as [n2 Hn2].
  assert (Hx2 : -180 - delta * INR n2 <= r1).
  { apply (Rmult_le_compat_l delta) in Hn2; [|lra].
    replace (delta * ((-180 - r1) / delta)) with (-180 - r1) in Hn2
      by (field; lra).
    lra. }
  destruct (shift_up_ends n2 r1 Hr1B Hx2) as (r2 & Hr2 & Hge2 & Heq2 & Hlt2).
  exists (Nat.max n1 n2), r2. split.
  - intros fuel' Hf. unfold adjust_longitude.
    rewrite (shift_down_more_fuel n1 fuel' x r1 Hr1) by lia.
    apply (shift_up_more_fuel n2); [exact Hr2|lia].
  - split; [exact Hge2|].
    destruct (Rle_dec (-180) r1) as [L|L].
    + rewrite (Heq2 L). exact Hle1.
    + apply Hlt2. lra.
Qed.
End ShiftLoops.

(** In exact arithmetic the loops end on every real number. *)
Lemma adjust_longitude_exact (x : R) :
  exists fuel r, adjust_longitude (fun y => y) fuel x = Some r /\
                 -180 <= r <= 180.
Proof.
  assert (H : exists fuel r,
             (forall fuel', (fuel <= fuel')%nat ->
                            adjust_longitude (fun y => y) fuel' x = Some r) /\
             -180 <= r <= 180).
  { apply (adjust_longitude_ends (fun y => y) (Rabs x) 360);
      try (intros; lra).
    unfold Rabs; destruct (Rcase_abs x); lra. }
  destruct H as (fuel & r & H & Hr).
  exists fuel, r. split; [apply H; lia|exact Hr].
Qed.

(** C9, as amended.  With the shifts rounded to nearest as in binary64,
    [adjust_longitude] ends on every input of magnitude at most 2^60, and
    its result lies in [-180, 180]. *)
Theorem adjust_longitude_terminates (rnd : R -> R) (x : R) :
  rounding rnd ->
  Rabs x <= 1152921504606846976 ->
  exists fuel r,
    (forall fuel', (fuel <= fuel')%nat ->
                   adjust_longitude rnd fuel' x = Some r) /\
    -180 <= r <= 180.
Proof.
  intros (Hmono & H180 & Hm180 & Hrel) Hx.
  apply Rabs_le_inv in Hx.
  apply (adjust_longitude_ends rnd 1152921504606846976 232);
    auto; try lra.
  - intros y Hy HB.
    assert (Hr := Hrel (y - 360)).
    destruct (Rle_dec (y - 360) 180) as [L|L].
    + left. rewrite <- H180. apply Hmono. exact L.
    + right. rewrite (Rabs_right (y - 360)) in Hr by lra.
      specialize (Hr ltac:(lra)).
      apply Rabs_le_inv in Hr. lra.
  - intros y Hy HB.
    assert (Hr := Hrel (y + 360)).
    destruct (Rle_dec (-180) (y + 360)) as [L|L].
    + left. rewrite <- Hm180. apply Hmono. exact L.
    + right. rewrite (Rabs_left (y + 360)) in Hr by lra.
      specialize (Hr ltac:(lra)).
      apply Rabs_le_inv in Hr. lra.
Qed.

Lemma rounding_exact : rounding (fun y => y).
Proof.
  repeat split; auto; intros.
  replace (x - x) with 0 by lra. rewrite Rabs_R0.
  assert (0 <= Rabs x) by apply Rabs_pos. lra.
Qed.

(** The longitude 200 is brought to -160. *)
Lemma adjust_longitude_terminates_witness :
  exists fuel r,
    (forall fuel', (fuel <= fuel')%nat ->
                   adjust_longitude (fun y => y) fuel' 200 = Some r) /\
    -180 <= r <= 180.
Proof.
  apply (adjust_longitude_terminates (fun y => y) 200).
  - exact rounding_exact.
  - rewrite Rabs_right; lra.
Defined.

(** C9, as stated, fails on binary64 numbers: 2^1000 is finite and larger
    than 180, and 2^1000 - 360 rounds back to 2^1000, so the first loop never
    leaves its starting point and no number of iterations ends it. *)
Lemma adjust_longitude_f64_diverges :
  F64.finite F64.two_pow_1000 = true /\
  ~ (exists fuel r, F64.adjust_longitude fuel F64.two_pow_1000 = Some r).
Proof.
  split; [vm_compute; reflexivity|].
  assert (H : forall fuel, F64.shift_down fuel F64.two_pow_1000 = None).
  { induction fuel as [|fuel IH].
    - vm_compute. reflexivity.
    - change (F64.shift_down (S fuel) F64.two_pow_1000)
        with (if PrimFloat.ltb 180%float F64.two_pow_1000
              then F64.shift_down fuel (F64.two_pow_1000 - 360)%float
              else Some F64.two_pow_1000).
      replace (PrimFloat.ltb 180%float F64.two_pow_1000) with true
        by (vm_compute; reflexivity).
      replace (F64.two_pow_1000 - 360)%float with F64.two_pow_1000
        by (vm_compute; reflexivity).
      exact IH. }
  intros (fuel & r & Hr). unfold F64.adjust_longitude in Hr.
  rewrite H in Hr. discriminate.
Qed.

(** On longitudes of ordinary size the binary64 loops do what the exact
    ones do. *)
Example adjust_longitude_f64_200 :
  F64.adjust_longitude 1 200%float = Some (-160)%float.
Proof. vm_compute. reflexivity. Qed.

Example adjust_longitude_f64_360 :
  F64.adjust_longitude 1 (-360)%float = Some 0%float.
Proof. vm_compute. reflexivity. Qed.

Example adjust_longitude_f64_180 :
  F64.adjust_longitude 0 180%float = Some 180%float.
Proof. vm_compute. reflexivity. Qed.

(** ** Distances *)

Lemma atan2_quadrant (y x : R) :
  0 <= y -> 0 <= x -> 0 <= atan2 y x <= PI / 2.
Proof.
  intros Hy Hx. unfold atan2. assert (Hpi := PI_RGT_0).
  cmp_lt 0 x.
  - destruct (atan_bound (y / x)) as [_ Hub].
    split; [|lra].
    destruct (Req_dec y 0) as [->|Hy0].
    + unfold Rdiv. rewrite Rmult_0_l, atan_0. lra.
    + rewrite <- atan_0. left. apply atan_increasing.
      apply Rdiv_lt_0_compat; lra.
  - cmp_lt x 0; [lra|].
    cmp_lt 0 y; [lra|].
    cmp_lt y 0; lra.
Qed.

Lemma DBL_MAX_large : 100000 < DBL_MAX.
Proof. unfold DBL_MAX. lra. Qed.

Lemma euclidean_bound (dx dy : R) :
  Rabs dx <= 720 -> Rabs dy <= 180 -> sqrt (dx * dx + dy * dy) <= 900.
Proof.
  intros Hx Hy. apply Rabs_le_inv in Hx, Hy.
  rewrite <- (sqrt_square 900) by lra.
  apply sqrt_le_1_alt. nra.
Qed.

(** The quantity [a] of the Haversine formula lies in [0, 1] on well-formed
    latitudes: both square roots are taken of non-negative numbers. *)
Lemma haversine_a_range (lat1 lat2 dlon : R) :
  Rabs lat1 <= 90 -> Rabs lat2 <= 90 ->
  let a := sin (to_radians (lat2 - lat1) / 2) * sin (to_radians (lat2 - lat1) / 2) +
           cos (to_radians lat1) * cos (to_radians lat2) *
             sin (dlon / 2) * sin (dlon / 2) in
  0 <= a <= 1.
Proof.
  intros H1 H2 a.
  assert (Hc1 := cos_lat_nonneg lat1 H1).
  assert (Hc2 := cos_lat_nonneg lat2 H2).
  set (x := to_radians (lat2 - lat1) / 2) in *.
  set (s := sin (dlon / 2)) in *.
  assert (Hs : 0 <= s * s <= 1).
  { assert (Hb := SIN_bound (dlon / 2)). fold s in Hb. nra. }
  assert (Hcc : cos (to_radians lat1) * cos (to_radians lat2)
                <= 1 - sin x * sin x).
  { assert (Hm : cos (to_radians lat2 - to_radians lat1) = 1 - 2 * sin x * sin x).
    { replace (to_radians lat2 - to_radians lat1) with (2 * x)
        by (unfold x, to_radians; lra).
      apply cos_2a_sin. }
    assert (Hp := COS_bound (to_radians lat2 + to_radians lat1)).
    rewrite cos_minus in Hm. rewrite cos_plus in Hp. lra. }
  assert (Hprod : 0 <= cos (to_radians lat1) * cos (to_radians lat2))
    by (apply Rmult_le_pos; assumption).
  assert (Hx : 0 <= sin x * sin x) by nra.
  unfold a. split; nra.
Qed.

(** On well-formed coordinates [compute_distance] returns, and its result is
    non-negative and far below [DBL_MAX]. *)
Lemma compute_distance_valid (lon1 lat1 lon2 lat2 : R) (metric : DistanceMetric) :
  Rabs lat1 <= 90 -> Rabs lon1 <= 360 -> Rabs lat2 <= 90 -> Rabs lon2 <= 360 ->
  exists d, compute_distance lon1 lat1 lon2 lat2 metric = Ok d /\
            0 <= d < DBL_MAX.
Proof.
  intros Ha1 Ho1 Ha2 Ho2. unfold compute_distance.
  rewrite (proj2 (Rgtb_false _ _) Ha1), (proj2 (Rgtb_false _ _) Ha2),
    (proj2 (Rgtb_false _ _) Ho1), (proj2 (Rgtb_false _ _) Ho2).
  simpl. assert (HM := DBL_MAX_large). destruct metric.
  - eexists; split; [reflexivity|]. split; [apply sqrt_pos|].
    apply Rle_lt_trans with 900; [|lra].
    apply Rabs_le_inv in Ha1, Ha2, Ho1, Ho2.
    apply euclidean_bound; apply Rabs_le; lra.
  - eexists; split; [reflexivity|].
    match goal with |- context [atan2 ?y ?x] =>
      destruct (atan2_quadrant y x) as [Hlo Hhi]; try apply sqrt_pos
    end.
    assert (Hpi := PI_4). split; nra.
Qed.

(** Conversely a returned distance tells that the coordinates were
    well-formed. *)
Lemma compute_distance_inv (lon1 lat1 lon2 lat2 d : R) (metric : DistanceMetric) :
  compute_distance lon1 lat1 lon2 lat2 metric = Ok d ->
  (Rabs lat1 <= 90 /\ Rabs lon1 <= 360 /\ Rabs lat2 <= 90 /\ Rabs lon2 <= 360) /\
  0 <= d < DBL_MAX.
Proof.
  intros H.
  assert (Hv : Rabs lat1 <= 90 /\ Rabs lon1 <= 360 /\
               Rabs lat2 <= 90 /\ Rabs lon2 <= 360).
  { unfold compute_distance in H.
    destruct (Rgtb (Rabs lat1) 90) eqn:E1; [discriminate|].
    destruct (Rgtb (Rabs lat2) 90) eqn:E2; [discriminate|].
    destruct (Rgtb (Rabs lon1) 360) eqn:E3; [discriminate|].
    destruct (Rgtb (Rabs lon2) 360) eqn:E4; [discriminate|].
    apply Rgtb_false in E1, E2, E3, E4. tauto. }
  split; [exact Hv|].
  destruct Hv as (H1 & H2 & H3 & H4).
  destruct (compute_distance_valid lon1 lat1 lon2 lat2 metric H1 H2 H3 H4)
    as (d' & Hd' & Hb).
  congruence.
Qed.

(** ** The loop over the targets *)

Lemma for_each_target_inv {A : Type} (body : nat -> SpatialData -> outcome A)
    (targets : list SpatialData) :
  forall t_idx ms,
    for_each_target body t_idx targets = Ok ms ->
    length ms = length targets /\
    forall j target, nth_error targets j = Some target ->
      exists m, nth_error ms j = Some m /\ body (t_idx + j)%nat target = Ok m.
Proof.
  induction targets as [|t rest IH]; intros t_idx ms H; simpl in H.
  - inversion H; subst. split; [reflexivity|].
    intros [|j] target Hj; discriminate.
  - destruct (body t_idx t) as [m|e] eqn:Em; simpl in H; [|discriminate].
    destruct (for_each_target body (S t_idx) rest) as [ms'|e] eqn:Er;
      simpl in H; [|discriminate].
    inversion H; subst. destruct (IH _ _ Er) as [Hlen Hnth].
    split; [simpl; congruence|].
    intros [|j] target Hj; simpl in Hj.
    + inversion Hj; subst. exists m. rewrite Nat.add_0_r. auto.
    + destruct (Hnth j target Hj) as (m' & Hm' & Hb).
      exists m'. split; [exact Hm'|].
      replace (t_idx + S j)%nat with (S t_idx + j)%nat by lia. exact Hb.
Qed.

Lemma for_each_target_total {A : Type} (body : nat -> SpatialData -> outcome A)
    (targets : list SpatialData) :
  forall t_idx,
    (forall j target, nth_error targets j = Some target ->
                      exists m, body (t_idx + j)%nat target = Ok m) ->
    exists ms, for_each_target body t_idx targets = Ok ms.
Proof.
  induction targets as [|t rest IH]; intros t_idx H; simpl.
  - eauto.
  - destruct (H 0%nat t eq_refl) as (m & Hm).
    rewrite Nat.add_0_r in Hm. rewrite Hm. simpl.
    destruct (IH (S t_idx)) as (ms & Hms).
    { intros j target Hj. destruct (H (S j) target Hj) as (m' & Hm').
      exists m'. replace (S t_idx + j)%nat with (t_idx + S j)%nat by lia.
      exact Hm'. }
    rewrite Hms. simpl. eauto.
Qed.

Lemma In_nth_error_iff {A : Type} (l : list A) (x : A) :
  In x l <-> exists j, nth_error l j = Some x.
Proof.
  split; [apply In_nth_error|].
  intros [j Hj]. eapply nth_error_In; eauto.
Qed.

(** Every element of the result is the body run on one target. *)
Lemma for_each_target_In {A : Type} (body : nat -> SpatialData -> outcome A)
    (targets : list SpatialData) (ms : list A) (m : A) :
  for_each_target body 0 targets = Ok ms -> In m ms ->
  exists j target, nth_error targets j = Some target /\ body j target = Ok m.
Proof.
  intros H Hin. destruct (for_each_target_inv body targets 0 ms H) as [Hlen Hnth].
  apply In_nth_error_iff in Hin. destruct Hin as [j Hj].
  assert (Hlt : (j < length targets)%nat).
  { rewrite <- Hlen. apply nth_error_Some. congruence. }
  destruct (nth_error targets j) as [target|] eqn:Et.
  - destruct (Hnth j target Et) as (m' & Hm' & Hb).
    exists j, target. split; [exact Et|]. simpl in Hb. congruence.
  - apply nth_error_None in Et. lia.
Qed.

(** ** The scan for the nearest source *)

Section Scan.
Variable self : SpatialIndex.t.
Variable target : SpatialData.

Let metric := distance_metric (SpatialIndex.config_ self).

(** The scan either leaves its state as it was, when no source is nearer
    than the current minimum, or ends on the first of the nearest sources
    of the list. *)
Lemma nearest_scan_spec (sources : list SpatialData) :
  forall m lon lat,
    Forall (fun s => exists d, distance_to metric target s = Ok d) sources ->
    exists m' lon' lat',
      SpatialIndex.nearest_scan self target sources (m, lon, lat)
        = Ok (m', lon', lat') /\
      ((m' = m /\ lon' = lon /\ lat' = lat /\
        forall j s d, nth_error sources j = Some s ->
                      distance_to metric target s = Ok d -> m <= d)
       \/
       (exists k source,
          first_nearest metric target sources k source m' /\
          lon' = longitude (gridPoint source) /\
          lat' = latitude (gridPoint source) /\
          m' < m)).
Proof.
  induction sources as [|s rest IH]; intros m lon lat Hall.
  - simpl. exists m, lon, lat. split; [reflexivity|]. left.
    repeat split; auto. intros [|j]; discriminate.
  - inversion Hall as [|? ? [d0 Hd0] Hrest]; subst.
    simpl. unfold distance_to in Hd0. fold metric. rewrite Hd0. simpl.
    cmp_lt d0 m.
    + destruct (IH d0 (longitude (gridPoint s)) (latitude (gridPoint s)) Hrest)
        as (m' & lon' & lat' & Hscan & Hcase).
      exists m', lon', lat'. split; [exact Hscan|]. right.
      destruct Hcase as [(-> & -> & -> & Hmin) | (k & src & Hfn & Hlo & Hla & Hlt)].
      * exists 0%nat, s. repeat split; auto.
        -- destruct j as [|j]; simpl in H.
           ++ inversion H; subst. unfold distance_to in H0. 
              rewrite Hd0 in H0. inversion H0; lra.
           ++ eapply Hmin; eauto.
        -- lia.
      * destruct Hfn as (Hk & Hdk & Hall').
        exists (S k), src. repeat split; auto.
        -- destruct j as [|j]; simpl in H.
           ++ inversion H; subst. unfold distance_to in H0.
              rewrite Hd0 in H0. inversion H0; lra.
           ++ eapply Hall'; eauto.
        -- destruct j as [|j]; simpl in H.
           ++ inversion H; subst. unfold distance_to in H0.
              rewrite Hd0 in H0. inversion H0; lra.
           ++ intros Hj. eapply Hall'; eauto. lia.
        -- lra.
    + destruct (IH m lon lat Hrest) as (m' & lon' & lat' & Hscan & Hcase).
      exists m', lon', lat'. split; [exact Hscan|].
      destruct Hcase as [(-> & -> & -> & Hmin) | (k & src & Hfn & Hlo & Hla & Hlt)].
      * left. repeat split; auto.
        intros [|j] s' d' Hj Hd'; simpl in Hj.
        -- inversion Hj; subst. unfold distance_to in Hd'.
           rewrite Hd0 in Hd'. inversion Hd'; lra.
        -- eapply Hmin; eauto.
      * right. destruct Hfn as (Hk & Hdk & Hall').
        exists (S k), src. repeat split; auto.
        -- destruct j as [|j]; simpl in H.
           ++ inversion H; subst. unfold distance_to in H0.
              rewrite Hd0 in H0. inversion H0; lra.
           ++ eapply Hall'; eauto.
        -- destruct j as [|j]; simpl in H.
           ++ inversion H; subst. unfold distance_to in H0.
              rewrite Hd0 in H0. inversion H0; lra.
           ++ intros Hj. eapply Hall'; eauto. lia.
Qed.

(** From [DBL_MAX] and a non-empty list the scan always ends on a source. *)
Lemma nearest_scan_winner (sources : list SpatialData) :
  sources <> [] ->
  Forall (fun s => exists d, distance_to metric target s = Ok d) sources ->
  exists k source d,
    SpatialIndex.nearest_scan self target sources (DBL_MAX, 0, 0)
      = Ok (d, longitude (gridPoint source), latitude (gridPoint source)) /\
    first_nearest metric target sources k source d /\
    0 <= d < DBL_MAX.
Proof.
  intros Hne Hall.
  destruct (nearest_scan_spec sources DBL_MAX 0 0 Hall)
    as (m' & lon' & lat' & Hscan & Hcase).
  destruct Hcase as [(_ & _ & _ & Hmin) | (k & src & Hfn & -> & -> & Hlt)].
  - destruct sources as [|s rest]; [congruence|].
    inversion Hall as [|? ? [d0 Hd0] _]; subst.
    specialize (Hmin 0%nat s d0 eq_refl Hd0).
    apply compute_distance_inv in Hd0. lra.
  - exists k, src, m'. split; [exact Hscan|]. split; [exact Hfn|].
    destruct Hfn as (_ & Hd & _). apply compute_distance_inv in Hd. tauto.
Qed.
End Scan.

(** ** The spatial mapper *)

Lemma SpatialIndex_new_inv (sources : list SpatialData) (cfg : RegridConfig)
    (self : SpatialIndex.t) :
  SpatialIndex.new sources cfg = Ok self ->
  self = SpatialIndex.mk sources cfg /\ sources <> [].
Proof.
  destruct sources; simpl; intros H; inversion H; split; congruence.
Qed.

Lemma valid_points_distance (metric : DistanceMetric) (target : SpatialData)
    (sources : list SpatialData) :
  valid_point target -> Forall valid_point sources ->
  Forall (fun s => exists d, distance_to metric target s = Ok d) sources.
Proof.
  intros [Ht1 Ht2] Hall. eapply Forall_impl; [|exact Hall].
  intros s [Hs1 Hs2]. unfold distance_to.
  destruct (compute_distance_valid (longitude (gridPoint target))
              (latitude (gridPoint target)) (longitude (gridPoint s))
              (latitude (gridPoint s)) metric) as (d & Hd & _); eauto.
Qed.

Lemma dist_km_in_km (self : SpatialIndex.t) (target : SpatialData) (d : R) :
  SpatialIndex.dist_km self target d
    = in_km (distance_metric (SpatialIndex.config_ self)) target d.
Proof.
  unfold SpatialIndex.dist_km, in_km.
  destruct (distance_metric (SpatialIndex.config_ self)); reflexivity.
Qed.

Lemma nearest_neighbor_spec (self : SpatialIndex.t) (t_idx : nat)
    (target : SpatialData) :
  SpatialIndex.source_points_ self <> [] ->
  Forall valid_point (SpatialIndex.source_points_ self) ->
  valid_point target ->
  exists k source d,
    first_nearest (distance_metric (SpatialIndex.config_ self)) target
      (SpatialIndex.source_points_ self) k source d /\
    SpatialIndex.nearest_neighbor self t_idx target
      = Ok (mkNNMapping (longitude (gridPoint target))
              (latitude (gridPoint target))
              (longitude (gridPoint source)) (latitude (gridPoint source))
              (in_km (distance_metric (SpatialIndex.config_ self)) target d)
              t_idx).
Proof.
  intros Hne Hsrc Htgt.
  destruct (nearest_scan_winner self target (SpatialIndex.source_points_ self)
              Hne (valid_points_distance _ _ _ Htgt Hsrc))
    as (k & source & d & Hscan & Hfn & Hd).
  exists k, source, d. split; [exact Hfn|].
  unfold SpatialIndex.nearest_neighbor. rewrite Hscan. simpl.
  rewrite (proj2 (Reqb_false d DBL_MAX)) by lra.
  rewrite dist_km_in_km. reflexivity.
Qed.


(** ** The IDW neighbor search *)

Lemma size_t_of_int_small (z : Z) :
  (0 <= z <= INT_MAX)%Z -> size_t_of_int z = z.
Proof.
  intros H. unfold size_t_of_int, INT_MAX in *. apply Z.mod_small. lia.
Qed.




(** A distance in degrees within [km_to_degrees (radius, lat)] is within the
    radius once expressed in kilometres. *)
Lemma euclidean_within_radius (r lat rd d : R) :
  km_to_degrees r lat = Ok rd -> 0 <= d -> d <= rd ->
  d * 111.32 * cos (to_radians lat) <= r.
Proof.
  intros H Hd0 Hd. apply km_to_degrees_inv in H.
  destruct H as (Hr & Hlat & Hrd).
  assert (Hcos := cos_lat_nonneg lat Hlat).
  set (c := Rmax (cos (to_radians lat)) 1e-10) in *.
  assert (Hc1 : 1e-10 <= c) by apply Rmax_r.
  assert (Hc2 : cos (to_radians lat) <= c) by apply Rmax_l.
  assert (Hprod : rd * (111.32 * c) = r) by (subst rd; field; lra).
  assert (Hrd0 : 0 <= rd) by lra.
  assert (H1 : d * cos (to_radians lat) <= rd * c)
    by (apply Rmult_le_compat; lra).
  nra.
Qed.

Section Idw.
Variable self : SpatialIndex.t.
Variable target : SpatialData.

Let cfg := SpatialIndex.config_ self.
Let metric := distance_metric cfg.

Let candidate_ok := candidate_ok cfg target.

Lemma admitted_passes (source : SpatialData) (d : R) (keep : bool) :
  distance_to metric target source = Ok d ->
  SpatialIndex.admitted self target d = Ok keep ->
  keep = passes cfg target source /\
  (keep = true -> in_km metric target d <= radius cfg).
Proof.
  intros Hd Hk. unfold passes. fold metric. rewrite Hd.
  unfold SpatialIndex.admitted in Hk. fold cfg metric in Hk.
  unfold in_km. destruct metric.
  - destruct (km_to_degrees (radius cfg) (latitude (gridPoint target)))
      as [rd|e] eqn:Ekm; simpl in Hk; [|discriminate].
    inversion Hk; subst. split; [reflexivity|].
    intros Hle. apply Rleb_true in Hle.
    apply compute_distance_inv in Hd.
    eapply euclidean_within_radius; eauto. lra.
  - inversion Hk; subst. split; [reflexivity|].
    intros Hle. apply Rleb_true in Hle. exact Hle.
Qed.

Lemma candidates_inv (sources : list SpatialData) :
  forall ns,
    SpatialIndex.candidates self target sources = Ok ns ->
    length ns = admitted_count cfg target sources /\
    Forall candidate_ok ns /\
    Forall (fun s => exists d, distance_to metric target s = Ok d) sources.
Proof.
  unfold admitted_count.
  induction sources as [|s rest IH]; intros ns H; simpl in H.
  - inversion H; subst. simpl. auto.
  - fold cfg metric in H.
    destruct (compute_distance _ _ _ _ metric) as [d|e] eqn:Ed;
      simpl in H; [|discriminate].
    destruct (SpatialIndex.admitted self target d) as [keep|e] eqn:Ek;
      simpl in H; [|discriminate].
    destruct (SpatialIndex.candidates self target rest) as [ns'|e] eqn:Er;
      simpl in H; [|discriminate].
    destruct (IH ns' eq_refl) as (Hlen & Hok & Hall).
    destruct (admitted_passes s d keep Ed Ek) as [Hkeep Hkm].
    inversion H; subst ns. simpl. rewrite <- Hkeep.
    split; [|split].
    + destruct keep; simpl; congruence.
    + destruct keep; [|exact Hok]. constructor; [|exact Hok].
      unfold candidate_ok, get2. simpl.
      apply compute_distance_inv in Ed.
      repeat split; try tauto; try (apply Hkm; reflexivity).
    + constructor; [|exact Hall]. exists d. exact Ed.
Qed.

Lemma candidates_total (sources : list SpatialData) :
  0 <= radius cfg -> valid_point target -> Forall valid_point sources ->
  exists ns, SpatialIndex.candidates self target sources = Ok ns.
Proof.
  intros Hr Ht Hall. induction Hall as [|s rest Hs Hrest IH]; simpl.
  - eauto.
  - fold cfg metric.
    destruct Ht as [Ht1 Ht2]. destruct Hs as [Hs1 Hs2].
    destruct (compute_distance_valid (longitude (gridPoint target))
                (latitude (gridPoint target)) (longitude (gridPoint s))
                (latitude (gridPoint s)) metric) as (d & Hd & _); auto.
    rewrite Hd. simpl.
    assert (Hadm : exists keep, SpatialIndex.admitted self target d = Ok keep).
    { unfold SpatialIndex.admitted. fold cfg metric. destruct metric.
      - rewrite km_to_degrees_value by assumption. simpl. eauto.
      - eauto. }
    destruct Hadm as [keep Hk]. rewrite Hk. simpl.
    destruct IH as [ns Hns]. rewrite Hns. simpl. eauto.
Qed.

Lemma convert_map (l : list neighbor) :
  SpatialIndex.convert self target l
    = map (fun nb : neighbor => (fst nb, in_km metric target (get2 nb))) l.
Proof.
  unfold SpatialIndex.convert, in_km. fold cfg metric.
  destruct metric; [reflexivity|].
  induction l as [|[p d] l IH]; simpl; [reflexivity|].
  rewrite <- IH. reflexivity.
Qed.







Lemma truncate_length (l : list neighbor) :
  (0 <= max_points cfg <= INT_MAX)%Z ->
  (Z.of_nat (length (SpatialIndex.truncate self l)) <= max_points cfg)%Z /\
  (length (SpatialIndex.truncate self l)
     = Nat.min (length l) (Z.to_nat (max_points cfg)))%nat.
Proof.
  intros H. unfold SpatialIndex.truncate. fold cfg.
  rewrite (size_t_of_int_small _ H).
  destruct (Z.of_nat (length l) >? max_points cfg)%Z eqn:E.
  - rewrite length_firstn. lia.
  - lia.
Qed.

Variable std_sort : list neighbor -> list neighbor.

(** What a returned mapping tells of the run that made it. *)
Lemma idw_neighbors_inv (t_idx : nat) (m : IDWMapping) :
  SpatialIndex.idw_neighbors std_sort self t_idx target = Ok m ->
  exists ns,
    SpatialIndex.candidates self target (SpatialIndex.source_points_ self)
      = Ok ns /\
    idw_target_lon m = longitude (gridPoint target) /\
    idw_target_lat m = latitude (gridPoint target) /\
    idw_target_idx m = t_idx /\
    idw_sources m <> [] /\
    (((Z.of_nat (length ns) < size_t_of_int (min_points cfg))%Z /\
      idw_is_fallback m = true /\
      exists d lon lat,
        SpatialIndex.nearest_scan self target
          (SpatialIndex.source_points_ self) (DBL_MAX, 0, 0)
          = Ok (d, lon, lat) /\
        d <> DBL_MAX /\
        idw_sources m = [(lon, lat, SpatialIndex.dist_km self target d)])
     \/
     ((size_t_of_int (min_points cfg) <= Z.of_nat (length ns))%Z /\
      idw_is_fallback m = false /\
      idw_sources m
        = SpatialIndex.convert self target
            (SpatialIndex.truncate self (std_sort ns)))).
Proof.
  unfold SpatialIndex.idw_neighbors. fold cfg. intros H.
  destruct (SpatialIndex.candidates self target
              (SpatialIndex.source_points_ self)) as [ns|e] eqn:Ec;
    simpl in H; [|discriminate].
  exists ns. split; [reflexivity|].
  destruct (Z.of_nat (length ns) <? size_t_of_int (min_points cfg))%Z eqn:E.
  - apply Z.ltb_lt in E.
    destruct (SpatialIndex.nearest_scan self target
                (SpatialIndex.source_points_ self) (DBL_MAX, 0, 0))
      as [[[d lon] lat]|e] eqn:Es; simpl in H; [|discriminate].
    destruct (Reqb d DBL_MAX) eqn:Eq; simpl in H; [discriminate|].
    apply Reqb_false in Eq.
    inversion H; subst m; simpl.
    repeat split; try congruence. left.
    repeat split; auto. exists d, lon, lat. auto.
  - apply Z.ltb_ge in E. simpl in H.
    destruct (SpatialIndex.convert self target
                (SpatialIndex.truncate self (std_sort ns)))
      as [|nb l] eqn:Ev; [discriminate|].
    inversion H; subst m; simpl.
    repeat split; try congruence. right. auto.
Qed.
End Idw.

Section IdwClaims.
Variable std_sort : list neighbor -> list neighbor.
Hypothesis std_sort_sorts : sorts std_sort.
Variable self : SpatialIndex.t.
Variable target : SpatialData.

Let cfg := SpatialIndex.config_ self.
Let metric := distance_metric cfg.
Let sources := SpatialIndex.source_points_ self.

Lemma candidates_from (l : list SpatialData) :
  forall ns, SpatialIndex.candidates self target l = Ok ns ->
             Forall (candidate_of cfg target l) ns.
Proof.
  induction l as [|s rest IH]; intros ns H; simpl in H.
  - inversion H; constructor.
  - fold cfg metric in H.
    destruct (compute_distance _ _ _ _ metric) as [d|e] eqn:Ed;
      simpl in H; [|discriminate].
    destruct (SpatialIndex.admitted self target d) as [keep|e] eqn:Ek;
      simpl in H; [|discriminate].
    destruct (SpatialIndex.candidates self target rest) as [ns'|e] eqn:Er;
      simpl in H; [|discriminate].
    assert (Hrest : Forall (candidate_of cfg target (s :: rest)) ns').
    { eapply Forall_impl; [|apply (IH ns' eq_refl)].
      intros nb (src & d' & Hin & Hd & Hp & Hnb).
      exists src, d'. simpl. auto. }
    destruct (admitted_passes self target s d keep Ed Ek) as [Hkeep _].
    inversion H; subst ns. destruct keep; [|exact Hrest].
    constructor; [|exact Hrest].
    exists s, d. simpl. auto.
Qed.


(** When a mapping is a fallback, and what it then holds. *)
Lemma idw_neighbors_fallback (t_idx : nat) (m : IDWMapping) :
  (0 <= min_points cfg <= INT_MAX)%Z ->
  SpatialIndex.idw_neighbors std_sort self t_idx target = Ok m ->
  (idw_is_fallback m = true <->
   (Z.of_nat (admitted_count cfg target sources) < min_points cfg)%Z) /\
  (idw_is_fallback m = true ->
   exists k source d,
     first_nearest metric target sources k source d /\
     idw_sources m
       = [(longitude (gridPoint source), latitude (gridPoint source),
           in_km metric target d)]).
Proof.
  intros Hmin H.
  destruct (idw_neighbors_inv self target std_sort t_idx m H)
    as (ns & Hc & _ & _ & _ & Hne & Hcase).
  destruct (candidates_inv self target _ ns Hc) as (Hlen & _ & Hall).
  fold cfg in Hcase. rewrite (size_t_of_int_small _ Hmin) in Hcase.
  fold sources cfg in Hlen. rewrite Hlen in Hcase.
  destruct Hcase as [(Hlt & Hf & d & lon & lat & Hscan & Hd & Hs)
                    | (Hge & Hf & Hs)].
  - split; [tauto|]. intros _.
    assert (Hsrc : sources <> []).
    { intros E. unfold sources in E. rewrite E in Hscan. simpl in Hscan.
      inversion Hscan. congruence. }
    destruct (nearest_scan_winner self target sources Hsrc Hall)
      as (k & source & d' & Hscan' & Hfn & _).
    fold sources in Hscan. rewrite Hscan in Hscan'. inversion Hscan'; subst.
    exists k, source, d'. split; [exact Hfn|].
    rewrite Hs, dist_km_in_km. reflexivity.
  - rewrite Hf. split; [split; [discriminate|lia]|discriminate].
Qed.

(** On well-formed inputs a mapping is returned. *)
Lemma idw_neighbors_total (t_idx : nat) :
  well_formed cfg -> sources <> [] ->
  Forall valid_point sources -> valid_point target ->
  exists m, SpatialIndex.idw_neighbors std_sort self t_idx target = Ok m.
Proof.
  intros (Hr & Hmin & Hmm & Hmax) Hne Hsrc Htgt.
  destruct (candidates_total self target sources Hr Htgt Hsrc) as [ns Hc].
  unfold SpatialIndex.idw_neighbors. fold sources cfg. rewrite Hc. simpl.
  rewrite size_t_of_int_small by lia.
  destruct (Z.of_nat (length ns) <? min_points cfg)%Z eqn:E.
  - destruct (nearest_scan_winner self target sources Hne
                (valid_points_distance _ _ _ Htgt Hsrc))
      as (k & source & d & Hscan & _ & Hd).
    rewrite Hscan. simpl.
    rewrite (proj2 (Reqb_false d DBL_MAX)) by lra. simpl. eauto.
  - apply Z.ltb_ge in E. simpl.
    destruct (SpatialIndex.convert self target
                (SpatialIndex.truncate self (std_sort ns)))
      as [|nb l] eqn:Ev; [|eauto].
    exfalso. apply (f_equal (@length neighbor)) in Ev.
    rewrite convert_map, length_map in Ev.
    destruct (truncate_length self (std_sort ns)) as [_ Hl];
      [fold cfg; lia|].
    fold cfg in Hl. rewrite Hl in Ev.
    destruct (std_sort_sorts ns) as [Hperm _].
    rewrite <- (Permutation_length Hperm) in Ev. simpl in Ev. lia.
Qed.
End IdwClaims.



(** ** The insertion sort is a [std::sort] *)

Lemma insert_neighbor_perm (n : neighbor) (l : list neighbor) :
  Permutation (n :: l) (insert_neighbor n l).
Proof.
  induction l as [|m l IH]; simpl; [reflexivity|].
  destruct (Rltb (get2 n) (get2 m)); [reflexivity|].
  rewrite perm_swap. constructor. exact IH.
Qed.

Lemma insert_neighbor_sorted (n : neighbor) (l : list neighbor) :
  StronglySorted (fun a b => get2 a <= get2 b) l ->
  StronglySorted (fun a b => get2 a <= get2 b) (insert_neighbor n l).
Proof.
  intros H. induction H as [|m l Hs IH Hall]; simpl.
  - constructor; constructor.
  - cmp_lt (get2 n) (get2 m).
    + constructor; [constructor; assumption|].
      constructor; [lra|].
      eapply Forall_impl; [|exact Hall]. intros; simpl in *; lra.
    + constructor; [exact IH|].
      eapply Permutation_Forall; [apply insert_neighbor_perm|].
      constructor; [exact Hcmp|exact Hall].
Qed.

Lemma insertion_sort_sorts : sorts insertion_sort.
Proof.
  intros l. unfold insertion_sort. induction l as [|n l [IHp IHs]]; simpl.
  - split; [reflexivity|constructor].
  - split.
    + rewrite <- insert_neighbor_perm. constructor. exact IHp.
    + apply insert_neighbor_sorted. exact IHs.
Qed.

(** ** A point is at distance zero from itself *)

Lemma atan2_0_1 : atan2 0 1 = 0.
Proof.
  unfold atan2. rewrite (proj2 (Rltb_true 0 1)) by lra.
  unfold Rdiv. rewrite Rmult_0_l. apply atan_0.
Qed.

Lemma distance_to_self (metric : DistanceMetric) (p : SpatialData) :
  valid_point p -> distance_to metric p p = Ok 0.
Proof.
  intros [Hlat Hlon]. unfold distance_to, compute_distance.
  rewrite (proj2 (Rgtb_false _ _) Hlat), (proj2 (Rgtb_false _ _) Hlon).
  simpl. destruct metric.
  - f_equal.
    replace (longitude (gridPoint p) - longitude (gridPoint p)) with 0 by lra.
    replace (latitude (gridPoint p) - latitude (gridPoint p)) with 0 by lra.
    replace (0 * 0 + 0 * 0) with 0 by lra. apply sqrt_0.
  - f_equal.
    replace (longitude (gridPoint p) - longitude (gridPoint p)) with 0 by lra.
    replace (latitude (gridPoint p) - latitude (gridPoint p)) with 0 by lra.
    unfold to_radians.
    replace (0 * PI / 180 / 2) with 0 by lra.
    rewrite sin_0.
    replace (0 * 0 + cos (latitude (gridPoint p) * PI / 180) *
                     cos (latitude (gridPoint p) * PI / 180) * 0 * 0)
      with 0 by lra.
    replace (1 - 0) with 1 by lra.
    rewrite sqrt_0, sqrt_1, atan2_0_1. lra.
Qed.

Lemma origin_valid : valid_point origin.
Proof. split; simpl; rewrite Rabs_R0; lra. Qed.

Lemma passes_origin (cfg : RegridConfig) :
  distance_metric cfg = HAVERSINE -> 0 <= radius cfg ->
  passes cfg origin origin = true.
Proof.
  intros Hm Hr. unfold passes.
  rewrite (distance_to_self _ _ origin_valid), Hm.
  apply Rleb_true. exact Hr.
Qed.

Lemma origin_list_valid : Forall valid_point [origin].
Proof. constructor; [apply origin_valid|constructor]. Qed.

(** ** Witnesses for the spatial mapper *)




(** ** The interpolator *)

Lemma Interpolator_new_inv (sources : list SpatialData) (cfg : RegridConfig)
    (self : Interpolator.t) :
  Interpolator.new sources cfg = Ok self ->
  self = Interpolator.mk sources cfg /\
  exists first rest,
    sources = first :: rest /\
    Forall (fun p => length (values p) = length (values first)) sources.
Proof.
  destruct sources as [|first rest]; simpl; [discriminate|].
  destruct (Nat.eqb _ _ && forallb _ rest) eqn:E; [|discriminate].
  intros H; inversion H; subst. split; [reflexivity|].
  exists first, rest. split; [reflexivity|].
  change (forallb (fun point => Nat.eqb (length (values point))
                                  (length (values first))) (first :: rest)
          = true) in E.
  rewrite forallb_forall in E. apply Forall_forall.
  intros p Hp. apply Nat.eqb_eq. apply E. exact Hp.
Qed.

Section Resolution.
Variable self : Interpolator.t.

Lemma find_source_resolve (sources : list SpatialData) (lon lat : R)
    (target : SpatialData) :
  Interpolator.find_source sources lon lat target
    = resolve sources lon lat target.
Proof.
  unfold resolve. induction sources as [|src rest IH]; simpl; [reflexivity|].
  destruct (Interpolator.same_point src lon lat target); [reflexivity|exact IH].
Qed.

Lemma find_and_copy_resolve (sources : list SpatialData)
    (target : SpatialData) (lon lat : R) (interpolated : SpatialData) :
  Interpolator.find_and_copy_from sources target lon lat interpolated
    = match resolve sources lon lat target with
      | Some src => (true, Interpolator.set_values interpolated (values src))
      | None => (false, interpolated)
      end.
Proof.
  unfold resolve. induction sources as [|src rest IH]; simpl; [reflexivity|].
  destruct (Interpolator.same_point src lon lat target); [reflexivity|exact IH].
Qed.


Lemma weight_of_idw_weight (d : R) :
  Interpolator.weight_of self d
    = idw_weight (power (Interpolator.config_ self)) d.
Proof. reflexivity. Qed.

Lemma idw_weight_pos (p d : R) : 0 < idw_weight p d.
Proof.
  unfold idw_weight. destruct (Rgtb d 1e-6); [|lra].
  unfold Rdiv. rewrite Rmult_1_l. apply Rinv_0_lt_compat.
  unfold Rpower. apply exp_pos.
Qed.

(** The two vectors of [collect] are the resolved neighbors, unzipped. *)
Lemma collect_resolved (target : SpatialData) (nbs : list neighbor) :
  forall weights source_points,
    Interpolator.collect self target nbs weights source_points
      = (weights ++ map fst
           (resolved_neighbors (Interpolator.source_points_ self)
              (power (Interpolator.config_ self)) target nbs),
         source_points ++ map snd
           (resolved_neighbors (Interpolator.source_points_ self)
              (power (Interpolator.config_ self)) target nbs)).
Proof.
  induction nbs as [|[[lon lat] d] rest IH]; intros ws sps; simpl.
  - now rewrite !app_nil_r.
  - rewrite find_source_resolve.
    destruct (resolve (Interpolator.source_points_ self) lon lat target)
      as [src|]; simpl.
    + rewrite IH, <- !app_assoc. reflexivity.
    + apply IH.
Qed.
End Resolution.

(** ** The accumulation loops *)

Lemma add_weighted_length (w : R) (src : list R) (vals : list R) :
  forall j0, length (Interpolator.add_weighted w src j0 vals) = length vals.
Proof.
  induction vals as [|v rest IH]; intros j0; simpl; [reflexivity|].
  now rewrite IH.
Qed.

Lemma add_weighted_nth (w : R) (src : list R) (vals : list R) :
  forall j0 j, (j < length vals)%nat ->
    nth j (Interpolator.add_weighted w src j0 vals) 0
      = nth j vals 0 + w * nth (j0 + j) src 0.
Proof.
  induction vals as [|v rest IH]; intros j0 j Hj; simpl in *; [lia|].
  destruct j as [|j].
  - now rewrite Nat.add_0_r.
  - rewrite IH by lia. now replace (j0 + S j)%nat with (S j0 + j)%nat by lia.
Qed.

Lemma fold_left_ext {A B : Type} (f g : A -> B -> A) :
  (forall a b, f a b = g a b) ->
  forall l a, fold_left f l a = fold_left g l a.
Proof.
  intros H l. induction l as [|b l IH]; intros a; simpl; [reflexivity|].
  now rewrite H, IH.
Qed.

Lemma fold_left_seq_shift {A : Type} (f : A -> nat -> A) (n : nat) :
  forall k a,
    fold_left f (seq (S k) n) a
      = fold_left (fun a i => f a (S i)) (seq k n) a.
Proof.
  induction n as [|n IH]; intros k a; simpl; [reflexivity|]. apply IH.
Qed.

(** The loop over the positions [i] of the two vectors is a loop over the
    pairs (weight, source). *)
Lemma accumulate_pairs (rs : list (R * SpatialData)) :
  forall st,
    Interpolator.accumulate (map fst rs) (map snd rs) st
      = fold_left
          (fun (st : R * list R) (r : R * SpatialData) =>
             (fst st + fst r,
              Interpolator.add_weighted (fst r) (values (snd r)) 0 (snd st)))
          rs st.
Proof.
  unfold Interpolator.accumulate.
  induction rs as [|[w s] rs IH]; intros [ws vals]; simpl; [reflexivity|].
  rewrite length_map in *. rewrite fold_left_seq_shift.
  rewrite <- IH. apply fold_left_ext. intros [a b] i. reflexivity.
Qed.

Lemma fold_pairs_closed (rs : list (R * SpatialData)) :
  forall weight_sum vals,
    let st := fold_left
          (fun (st : R * list R) (r : R * SpatialData) =>
             (fst st + fst r,
              Interpolator.add_weighted (fst r) (values (snd r)) 0 (snd st)))
          rs (weight_sum, vals) in
    fst st = weight_sum + Rsum (map fst rs) /\
    length (snd st) = length vals /\
    forall j, (j < length vals)%nat ->
      nth j (snd st) 0
        = nth j vals 0 +
          Rsum (map (fun r : R * SpatialData =>
                       fst r * nth j (values (snd r)) 0) rs).
Proof.
  induction rs as [|[w s] rs IH]; intros weight_sum vals; simpl.
  - repeat split; try lra. intros; lra.
  - destruct (IH (weight_sum + w)
                (Interpolator.add_weighted w (values s) 0 vals))
      as (Hs & Hl & Hn).
    rewrite add_weighted_length in Hl, Hn.
    split; [rewrite Hs; lra|]. split; [exact Hl|].
    intros j Hj. rewrite (Hn j Hj), add_weighted_nth by exact Hj.
    simpl. lra.
Qed.

(** ** The IDW branch proper *)


Lemma idw_values_spec (self : Interpolator.t) (target : SpatialData)
    (nbs : list neighbor) :
  let rs := resolved_neighbors (Interpolator.source_points_ self)
              (power (Interpolator.config_ self)) target nbs in
  match rs with
  | [] => Interpolator.idw_values self target nbs = None
  | r :: _ =>
      exists vals,
        Interpolator.idw_values self target nbs = Some vals /\
        length vals = length (values (snd r)) /\
        forall j, (j < length vals)%nat -> nth j vals 0 = weighted_mean rs j
  end.
Proof.
  intros rs. unfold Interpolator.idw_values.
  rewrite collect_resolved. fold rs. simpl.
  destruct rs as [|r rest] eqn:Ers; simpl; [reflexivity|].
  change (fst r :: map fst rest) with (map fst (r :: rest)).
  change (snd r :: map snd rest) with (map snd (r :: rest)).
  rewrite accumulate_pairs.
  destruct (fold_pairs_closed (r :: rest) 0
              (repeat 0 (length (values (snd r))))) as (Hs & Hl & Hn).
  destruct (fold_left _ (r :: rest) _) as [weight_sum vals] eqn:Ef.
  simpl in Hs, Hl, Hn. rewrite repeat_length in Hl, Hn.
  eexists. split; [reflexivity|].
  rewrite length_map. split; [exact Hl|].
  intros j Hj. rewrite Hl in Hj.
  rewrite (nth_indep _ 0 (0 / weight_sum)) by (rewrite length_map; lia).
  assert (Hmap : nth j (map (fun value => value / weight_sum) vals)
                   (0 / weight_sum) = nth j vals 0 / weight_sum)
    by apply (map_nth (fun value => value / weight_sum)).
  rewrite Hmap, (Hn j Hj), nth_repeat.
  unfold weighted_mean. simpl. rewrite Hs. f_equal; lra.
Qed.

Lemma idw_step_nonfallback (self : Interpolator.t)
    (targets : list SpatialData) (mapping : IDWMapping) (target : SpatialData)
    (result : list SpatialData) :
  idw_is_fallback mapping = false ->
  nth_error targets (idw_target_idx mapping) = Some target ->
  Interpolator.idw_step self targets mapping result
    = match Interpolator.idw_values self target (idw_sources mapping) with
      | None => Ok result
      | Some vals =>
          Ok (result ++ [mkSpatialData (gridPoint target) (time_step target)
                           vals])
      end.
Proof.
  intros Hnf Ht. unfold Interpolator.idw_step. rewrite Ht, Hnf.
  destruct (Interpolator.idw_values self target (idw_sources mapping));
    reflexivity.
Qed.



(** ** Errors of the interpolator *)

Section Errors.
Variable self : Interpolator.t.
Variable targets : list SpatialData.

Lemma nn_step_resolve (m : NNMapping) (target : SpatialData)
    (result : list SpatialData) :
  nth_error targets (nn_target_idx m) = Some target ->
  Interpolator.nn_step self targets m result
    = Ok (match resolve (Interpolator.source_points_ self)
                  (nn_source_lon m) (nn_source_lat m) target with
          | Some src => result ++ [Interpolator.set_values target (values src)]
          | None => result
          end).
Proof.
  intros Ht. unfold Interpolator.nn_step,
    Interpolator.find_and_copy_source_values.
  rewrite Ht, find_and_copy_resolve.
  destruct (resolve _ _ _ target); reflexivity.
Qed.

Lemma idw_step_fallback (m : IDWMapping) (target : SpatialData)
    (lon lat d : R) (result : list SpatialData) :
  nth_error targets (idw_target_idx m) = Some target ->
  idw_is_fallback m = true ->
  idw_sources m = [(lon, lat, d)] ->
  Interpolator.idw_step self targets m result
    = Ok (match resolve (Interpolator.source_points_ self) lon lat target with
          | Some src => result ++ [Interpolator.set_values target (values src)]
          | None => result
          end).
Proof.
  intros Ht Hf Hs. unfold Interpolator.idw_step,
    Interpolator.find_and_copy_source_values.
  rewrite Ht, Hf, Hs, find_and_copy_resolve.
  destruct (resolve _ lon lat target); reflexivity.
Qed.

Lemma nn_loop_errors (mappings : list NNMapping) :
  forall result e,
    Interpolator.nn_loop self targets mappings result = Err e ->
    e = InvalidTargetIndex.
Proof.
  induction mappings as [|m rest IH]; intros result e H; simpl in H;
    [discriminate|].
  unfold Interpolator.nn_step in H.
  destruct (nth_error targets (nn_target_idx m)) as [target|];
    simpl in H; [|congruence].
  destruct (Interpolator.find_and_copy_source_values _ _ _ _ _) as [found i].
  simpl in H. eapply IH; eauto.
Qed.

Lemma idw_loop_errors (mappings : list IDWMapping) :
  forall result e,
    Interpolator.idw_loop self targets mappings result = Err e ->
    e = InvalidTargetIndex \/ e = InvalidFallbackMapping.
Proof.
  induction mappings as [|m rest IH]; intros result e H; simpl in H;
    [discriminate|].
  destruct (Interpolator.idw_step self targets m result) as [r|e'] eqn:Es;
    simpl in H; [eapply IH; eauto|].
  inversion H; subst e'. clear H. unfold Interpolator.idw_step in Es.
  destruct (nth_error targets (idw_target_idx m)) as [target|];
    [|left; congruence].
  destruct (idw_is_fallback m).
  - destruct (idw_sources m) as [|[[lon lat] d] [|nb l]];
      try (right; congruence).
    destruct (Interpolator.find_and_copy_source_values _ _ _ _ _).
    discriminate.
  - destruct (Interpolator.idw_values self target (idw_sources m));
      discriminate.
Qed.
End Errors.

(** C5.  [interpolate] raises NoInterpolation exactly when the loop of the
    active mode ends with an empty result; the loops themselves raise only
    for an invalid target index or a malformed fallback mapping; and a
    mapping whose source does not resolve (in NN mode, in an IDW fallback,
    or for every neighbor of an IDW mapping proper) leaves the result as it
    was and the run goes on. *)
Theorem interpolate_no_interpolation (self : Interpolator.t)
    (targets : list SpatialData) :
  (forall nn idw,
     Interpolator.interpolate self targets nn idw = Err NoInterpolation <->
     match interp_method (Interpolator.config_ self) with
     | NEAREST_NEIGHBOR => Interpolator.nn_loop self targets nn [] = Ok []
     | INVERSE_DISTANCE_WEIGHTED =>
         Interpolator.idw_loop self targets idw [] = Ok []
     end) /\
  (forall nn result e,
     Interpolator.nn_loop self targets nn result = Err e ->
     e = InvalidTargetIndex) /\
  (forall idw result e,
     Interpolator.idw_loop self targets idw result = Err e ->
     e = InvalidTargetIndex \/ e = InvalidFallbackMapping) /\
  (forall m target result,
     nth_error targets (nn_target_idx m) = Some target ->
     resolve (Interpolator.source_points_ self) (nn_source_lon m)
       (nn_source_lat m) target = None ->
     Interpolator.nn_step self targets m result = Ok result) /\
  (forall m target lon lat d result,
     nth_error targets (idw_target_idx m) = Some target ->
     idw_is_fallback m = true ->
     idw_sources m = [(lon, lat, d)] ->
     resolve (Interpolator.source_points_ self) lon lat target = None ->
     Interpolator.idw_step self targets m result = Ok result) /\
  (forall m target result,
     nth_error targets (idw_target_idx m) = Some target ->
     idw_is_fallback m = false ->
     resolved_neighbors (Interpolator.source_points_ self)
       (power (Interpolator.config_ self)) target (idw_sources m) = [] ->
     Interpolator.idw_step self targets m result = Ok result).
Proof.
  repeat match goal with |- _ /\ _ => split end.
  - intros nn idw. unfold Interpolator.interpolate.
    destruct (interp_method (Interpolator.config_ self)).
    + unfold Interpolator.interpolate_nearest_neighbor.
      destruct (Interpolator.nn_loop self targets nn []) as [[|p l]|e] eqn:E;
        simpl; split; intros H; try congruence.
      inversion H; subst. apply nn_loop_errors in E. discriminate.
    + unfold Interpolator.interpolate_idw.
      destruct (Interpolator.idw_loop self targets idw []) as [[|p l]|e] eqn:E;
        simpl; split; intros H; try congruence.
      inversion H; subst. apply idw_loop_errors in E.
      destruct E; discriminate.
  - apply nn_loop_errors.
  - apply idw_loop_errors.
  - intros m target result Ht Hr.
    rewrite (nn_step_resolve self targets m target result Ht), Hr.
    reflexivity.
  - intros m target lon lat d result Ht Hf Hs Hr.
    rewrite (idw_step_fallback self targets m target lon lat d result Ht Hf Hs),
      Hr. reflexivity.
  - intros m target result Ht Hnf Hr.
    rewrite (idw_step_nonfallback _ _ _ _ _ Hnf Ht).
    assert (Hspec := idw_values_spec self target (idw_sources m)).
    simpl in Hspec. rewrite Hr in Hspec. now rewrite Hspec.
Qed.

(** A source of the year 2000 and a target of the year 2001 at the same
    place: the only mapping does not resolve, the result is empty and the
    run ends with NoInterpolation. *)
Lemma interpolate_no_interpolation_witness :
  Interpolator.interpolate
    (Interpolator.mk [source_2000]
       (Builder.with_interp_method default_config NEAREST_NEIGHBOR))
    [target_2001] [mkNNMapping 0 0 0 0 0 0] []
  = Err NoInterpolation.
Proof.
  pose (self := Interpolator.mk [source_2000]
                  (Builder.with_interp_method default_config NEAREST_NEIGHBOR)).
  destruct (interpolate_no_interpolation self [target_2001])
    as (Hiff & _ & _ & Hnn & _).
  apply Hiff. simpl.
  rewrite (Hnn (mkNNMapping 0 0 0 0 0 0) target_2001 []).
  - reflexivity.
  - reflexivity.
  - unfold resolve, Interpolator.same_point. simpl.
    rewrite andb_false_r. reflexivity.
Defined.

(** ** The round trip: sources regridded onto themselves *)

Lemma record_eta (t : SpatialData) :
  mkSpatialData (gridPoint t) (time_step t) (values t) = t.
Proof. destruct t; reflexivity. Qed.

Lemma same_point_self (t : SpatialData) :
  Interpolator.same_point t (longitude (gridPoint t))
    (latitude (gridPoint t)) t = true.
Proof.
  unfold Interpolator.same_point.
  replace (longitude (gridPoint t) - longitude (gridPoint t)) with 0 by lra.
  replace (latitude (gridPoint t) - latitude (gridPoint t)) with 0 by lra.
  rewrite Rabs_R0, (proj2 (Rltb_true 0 1e-6)) by lra.
  rewrite Z.eqb_refl. reflexivity.
Qed.

Lemma resolve_self (sources : list SpatialData) (t : SpatialData) :
  In t sources ->
  exists s,
    resolve sources (longitude (gridPoint t)) (latitude (gridPoint t)) t
      = Some s /\
    In s sources /\
    Interpolator.same_point s (longitude (gridPoint t))
      (latitude (gridPoint t)) t = true.
Proof.
  intros Hin. unfold resolve.
  destruct (find _ sources) as [s|] eqn:E.
  - exists s. apply find_some in E. tauto.
  - apply (find_none _ _ E) in Hin. rewrite same_point_self in Hin.
    discriminate.
Qed.




Section RoundTrip.
Variable sources : list SpatialData.
Variable cfg : RegridConfig.

Let metric := distance_metric cfg.
Let itp := Interpolator.mk sources cfg.

Hypothesis sources_valid : Forall valid_point sources.

(** Sources at distance zero are at the same place. *)
Hypothesis zero_same_place :
  forall s s', In s sources -> In s' sources ->
               distance_to metric s s' = Ok 0 -> gridPoint s' = gridPoint s.

(** Records of one time step that the tolerance does not tell apart carry
    the same values. *)
Hypothesis told_apart :
  forall s s', In s sources -> In s' sources ->
    Interpolator.same_point s' (longitude (gridPoint s))
      (latitude (gridPoint s)) s = true ->
    values s' = values s.





(** The same for IDW, when in addition every source within the radius of a
    source is at distance zero from it. *)
Variable std_sort : list neighbor -> list neighbor.
Hypothesis std_sort_sorts : sorts std_sort.
Hypothesis cfg_well_formed : well_formed cfg.
Hypothesis isolated :
  forall s s', In s sources -> In s' sources ->
               passes cfg s s' = true -> distance_to metric s s' = Ok 0.


End RoundTrip.

Lemma euclidean_zero_same_place (s s' : SpatialData) :
  distance_to EUCLIDEAN s s' = Ok 0 -> gridPoint s' = gridPoint s.
Proof.
  unfold distance_to, compute_distance.
  destruct (gridPoint s) as [lon lat], (gridPoint s') as [lon' lat'].
  simpl. intros H.
  destruct (_ || _); [discriminate|]. destruct (_ || _); [discriminate|].
  inversion H as [Hs]. clear H.
  assert (Hx := Rle_0_sqr (lon' - lon)).
  assert (Hy := Rle_0_sqr (lat' - lat)).
  unfold Rsqr in Hx, Hy.
  apply sqrt_eq_0 in Hs; [|lra].
  assert (lon' - lon = 0) by (apply Rsqr_0_uniq; unfold Rsqr; lra).
  assert (lat' - lat = 0) by (apply Rsqr_0_uniq; unfold Rsqr; lra).
  f_equal; lra.
Qed.



(** ** The round trip fails as stated *)
















(** An iteration of the IDW loop on a well-shaped mapping only ever adds to
    the result. *)
Lemma idw_step_extends (itp : Interpolator.t) (targets : list SpatialData)
    (m : IDWMapping) (t : SpatialData) (result : list SpatialData) :
  nth_error targets (idw_target_idx m) = Some t ->
  (idw_is_fallback m = true -> exists nb, idw_sources m = [nb]) ->
  exists tail,
    Interpolator.idw_step itp targets m result = Ok (result ++ tail).
Proof.
  intros Ht Hone. destruct (idw_is_fallback m) eqn:Ef.
  - destruct (Hone eq_refl) as [[[lon lat] d] Hs].
    rewrite (idw_step_fallback itp targets m t lon lat d result Ht Ef Hs).
    destruct (resolve _ lon lat t).
    + eexists. reflexivity.
    + exists []. now rewrite app_nil_r.
  - rewrite (idw_step_nonfallback itp targets m t result Ef Ht).
    destruct (Interpolator.idw_values itp t (idw_sources m)).
    + eexists. reflexivity.
    + exists []. now rewrite app_nil_r.
Qed.













(** * Further properties of the geodesy primitives *)

(** X1.  The distance does not depend on the order of its two points, and
    neither does the rejection of ill-formed coordinates. *)
Theorem compute_distance_symmetric (lon1 lat1 lon2 lat2 : R)
    (metric : DistanceMetric) :
  compute_distance lon1 lat1 lon2 lat2 metric
    = compute_distance lon2 lat2 lon1 lat1 metric.
Proof.
  unfold compute_distance.
  rewrite (orb_comm (Rgtb (Rabs lat1) 90)), (orb_comm (Rgtb (Rabs lon1) 360)).
  destruct (_ || _); [reflexivity|]. destruct (_ || _); [reflexivity|].
  destruct metric.
  - f_equal. f_equal. ring.
  - cbv zeta.
    replace (to_radians (lat1 - lat2) / 2)
      with (- (to_radians (lat2 - lat1) / 2)) by (unfold to_radians; lra).
    replace (to_radians (lon1 - lon2) / 2)
      with (- (to_radians (lon2 - lon1) / 2)) by (unfold to_radians; lra).
    rewrite !sin_neg.
    set (sa := sin (to_radians (lat2 - lat1) / 2)).
    set (so := sin (to_radians (lon2 - lon1) / 2)).
    replace (- sa * - sa + cos (to_radians lat2) * cos (to_radians lat1) *
                             - so * - so)
      with (sa * sa + cos (to_radians lat1) * cos (to_radians lat2) * so * so)
      by ring.
    reflexivity.
Qed.




(** A well-formed point is at distance 0 from itself under both metrics;
    under the Euclidean metric only equal coordinates are at distance 0. *)
Lemma distance_zero :
  (forall metric p, valid_point p -> distance_to metric p p = Ok 0) /\
  (forall s s', distance_to EUCLIDEAN s s' = Ok 0 ->
                gridPoint s' = gridPoint s).
Proof.
  split; [apply distance_to_self|apply euclidean_zero_same_place].
Qed.

Lemma distance_zero_witness : distance_to HAVERSINE origin origin = Ok 0.
Proof. apply (proj1 distance_zero). exact origin_valid. Defined.








(** What the two loops return in exact arithmetic. *)
Lemma shift_down_exact (n : nat) :
  forall x r, shift_down (fun y => y) n x = Some r ->
              r <= 180 /\ (x <= 180 -> r = x) /\
              exists k : nat, r = x - 360 * INR k.
Proof.
  induction n as [|n IH]; intros x r H; simpl in H;
    destruct (Rgtb x 180) eqn:E; try discriminate.
  - apply Rgtb_false in E. inversion H; subst.
    repeat split; auto. exists 0%nat. simpl. lra.
  - apply Rgtb_true in E. destruct (IH _ _ H) as (Hr & _ & k & Hk).
    split; [exact Hr|]. split; [intros; lra|].
    exists (S k). rewrite S_INR. lra.
  - apply Rgtb_false in E. inversion H; subst.
    repeat split; auto. exists 0%nat. simpl. lra.
Qed.

Lemma shift_up_exact (n : nat) :
  forall x r, shift_up (fun y => y) n x = Some r ->
              -180 <= r /\ (-180 <= x -> r = x) /\
              exists k : nat, r = x + 360 * INR k.
Proof.
  induction n as [|n IH]; intros x r H; simpl in H;
    destruct (Rltb x (-180)) eqn:E; try discriminate.
  - apply Rltb_false in E. inversion H; subst.
    repeat split; auto. exists 0%nat. simpl. lra.
  - apply Rltb_true in E. destruct (IH _ _ H) as (Hr & _ & k & Hk).
    split; [exact Hr|]. split; [intros; lra|].
    exists (S k). rewrite S_INR. lra.
  - apply Rltb_false in E. inversion H; subst.
    repeat split; auto. exists 0%nat. simpl. lra.
Qed.

(** X6.  In exact arithmetic [adjust_longitude] ends on every input; its result
    lies in [-180, 180] and is the input shifted by a whole number of
    turns, the input itself when that already lies in [-180, 180]. *)
Theorem adjust_longitude_turns (x : R) :
  exists fuel r,
    adjust_longitude (fun y => y) fuel x = Some r /\
    -180 <= r <= 180 /\
    (exists k : Z, r = x + 360 * IZR k) /\
    (-180 <= x <= 180 -> r = x).
Proof.
  destruct (adjust_longitude_exact x) as (fuel & r & H & Hr).
  exists fuel, r. split; [exact H|]. split; [exact Hr|].
  unfold adjust_longitude in H.
  destruct (shift_down (fun y => y) fuel x) as [r1|] eqn:E1; [|discriminate].
  destruct (shift_down_exact _ _ _ E1) as (_ & Hid1 & k1 & Hk1).
  destruct (shift_up_exact _ _ _ H) as (_ & Hid2 & k2 & Hk2).
  split.
  - exists (Z.of_nat k2 - Z.of_nat k1)%Z.
    rewrite minus_IZR, <- !INR_IZR_INZ. lra.
  - intros [Hlo Hhi]. rewrite Hid2; rewrite Hid1; lra.
Qed.

(** * Further properties of the configuration builder *)

Module BuilderMore.
Import Builder.

Ltac unfold_setters H :=
  unfold set_interpolation, set_distance_metric, set_data_layout,
    set_radius, set_power, set_max_points, set_min_points,
    set_adjust_longitude, set_precision, set_verbose, set_write_mappings,
    set_nn_mappings_file, set_idw_mappings_file, set_chunk_size,
    set_output_path in H.

(** Decide every test left in the equation of a setter call. *)
Ltac setter_cases H :=
  repeat match type of H with
         | context [if ?c then _ else _] => destruct c eqn:?
         end;
  try discriminate H; inversion H; subst; clear H.

Lemma call_precision (b b' : RegridConfigBuilder) (s : setter_call) :
  call b s = Ok b' ->
  (0 <= precision (config_ b))%Z -> (0 <= precision (config_ b'))%Z.
Proof.
  intros H Hp. destruct s; simpl in H; unfold_setters H; simpl in H;
    setter_cases H; simpl; try assumption.
  lia.
Qed.

(** X7.  [set_precision] rejects exactly the negative arguments, and whatever
    the sequence of setter calls on a fresh builder the precision of the
    built configuration is non-negative. *)
Theorem builder_precision :
  (forall b p, rejects (set_precision b p) <-> (p < 0)%Z) /\
  (forall calls, (0 <= precision (build (run new calls)))%Z).
Proof.
  split.
  - intros b p. unfold rejects, set_precision.
    destruct (p <? 0)%Z eqn:E.
    + apply Z.ltb_lt in E. split; [intros _; exact E|eauto].
    + apply Z.ltb_ge in E. split; [intros [w Hw]; discriminate|lia].
  - intros calls. unfold build.
    assert (H : forall b, (0 <= precision (config_ b))%Z ->
                          (0 <= precision (config_ (run b calls)))%Z).
    { induction calls as [|s rest IH]; intros b Hb; simpl; [exact Hb|].
      destruct (call b s) as [b'|e] eqn:E.
      - apply IH. eapply call_precision; eauto.
      - apply IH, Hb. }
    apply H. simpl. lia.
Qed.

(** X8.  A setter that succeeds changes the field it is named after and nothing
    else, with one exception: [set_max_points] may also change min_points. *)
Theorem setter_frame (b b' : RegridConfigBuilder) (s : setter_call) :
  call b s = Ok b' ->
  (interp_method (build b') = interp_method (build b)
   \/ exists v, s = SetInterpolation v) /\
  (distance_metric (build b') = distance_metric (build b)
   \/ exists v, s = SetDistanceMetric v) /\
  (data_layout (build b') = data_layout (build b)
   \/ exists v, s = SetDataLayout v) /\
  (radius (build b') = radius (build b) \/ exists v, s = SetRadius v) /\
  (power (build b') = power (build b) \/ exists v, s = SetPower v) /\
  (max_points (build b') = max_points (build b)
   \/ exists v, s = SetMaxPoints v) /\
  (min_points (build b') = min_points (build b)
   \/ (exists v, s = SetMinPoints v) \/ (exists v, s = SetMaxPoints v)) /\
  (adjust_longitude_flag (build b') = adjust_longitude_flag (build b)
   \/ exists v, s = SetAdjustLongitude v) /\
  (precision (build b') = precision (build b)
   \/ exists v, s = SetPrecision v) /\
  (verbose (build b') = verbose (build b) \/ exists v, s = SetVerbose v) /\
  (write_mappings (build b') = write_mappings (build b)
   \/ exists v, s = SetWriteMappings v) /\
  (nn_mappings_file (build b') = nn_mappings_file (build b)
   \/ exists v, s = SetNNMappingsFile v) /\
  (idw_mappings_file (build b') = idw_mappings_file (build b)
   \/ exists v, s = SetIDWMappingsFile v) /\
  (chunk_size (build b') = chunk_size (build b)
   \/ exists v, s = SetChunkSize v) /\
  (output_path (build b') = output_path (build b)
   \/ exists v, s = SetOutputPath v).
Proof.
  intros H. unfold build.
  destruct s; simpl in H; unfold_setters H; simpl in H; setter_cases H;
    simpl; repeat split; eauto.
Qed.

Lemma setter_frame_witness :
  radius (with_min_points (with_max_points default_config 3) 3)
    = radius default_config.
Proof.
  destruct (setter_frame new
              (mk (with_min_points (with_max_points default_config 3) 3))
              (SetMaxPoints 3) eq_refl)
    as (_ & _ & _ & [H|[v Hv]] & _); [exact H|discriminate Hv].
Defined.

(** X9.  To raise both bounds the maximum has to be set first: after
    [set_max_points (M)], [set_min_points (m)] succeeds for every
    0 < m <= M and the two bounds are exactly M and m; in the other order
    the chain is rejected as soon as m exceeds the current maximum. *)
Theorem max_before_min (b : RegridConfigBuilder) (M m : Z) :
  (0 < m <= M)%Z ->
  (exists b', chain b [SetMaxPoints M; SetMinPoints m] = Ok b' /\
              max_points (build b') = M /\ min_points (build b') = m) /\
  ((max_points (build b) < m)%Z ->
   rejects (chain b [SetMinPoints m; SetMaxPoints M])).
Proof.
  intros [Hm HM]. unfold build. split.
  - simpl. unfold set_max_points.
    destruct (M <=? 0)%Z eqn:E; [apply Z.leb_le in E; lia|]. simpl.
    destruct (min_points (config_ b) >? M)%Z; simpl; unfold set_min_points;
      simpl;
      (destruct (m <=? 0)%Z eqn:E1; [apply Z.leb_le in E1; lia|]);
      (destruct (m >? M)%Z eqn:E2;
       [rewrite Z.gtb_ltb in E2; apply Z.ltb_lt in E2; lia|]);
      eexists; repeat split.
  - intros Hlt. unfold rejects. simpl. unfold set_min_points.
    destruct (m <=? 0)%Z eqn:E1; [apply Z.leb_le in E1; lia|].
    destruct (m >? max_points (config_ b))%Z eqn:E2.
    + simpl. eauto.
    + rewrite Z.gtb_ltb in E2. apply Z.ltb_ge in E2. lia.
Qed.

(** On a fresh builder, whose bounds are both 5: 8 then 7 is accepted,
    7 then 8 is not. *)
Lemma max_before_min_witness :
  (exists b', chain new [SetMaxPoints 8; SetMinPoints 7] = Ok b' /\
              max_points (build b') = 8%Z /\ min_points (build b') = 7%Z) /\
  rejects (chain new [SetMinPoints 7; SetMaxPoints 8]).
Proof.
  destruct (max_before_min new 8 7) as [H1 H2]; [lia|].
  split; [exact H1|]. apply H2. simpl. lia.
Defined.

End BuilderMore.

(** * Further properties of the spatial mapper *)



Section ScanMore.
Variable self : SpatialIndex.t.
Variable target : SpatialData.

Let metric := distance_metric (SpatialIndex.config_ self).

Lemma nearest_scan_ok_inv (sources : list SpatialData) :
  forall st st',
    SpatialIndex.nearest_scan self target sources st = Ok st' ->
    Forall (fun s => exists d, distance_to metric target s = Ok d) sources.
Proof.
  induction sources as [|s rest IH]; intros st st' H; [constructor|].
  simpl in H. fold metric in H.
  destruct (compute_distance _ _ _ _ metric) as [d|e] eqn:Ed;
    simpl in H; [|discriminate].
  constructor; [exists d; exact Ed|].
  destruct st as [[m lon] lat]. destruct (Rltb d m); eapply IH; eauto.
Qed.


(** What a returned NN mapping tells of the scan that made it. *)
Lemma nearest_neighbor_inv (t_idx : nat) (m : NNMapping) :
  SpatialIndex.nearest_neighbor self t_idx target = Ok m ->
  exists k source d,
    first_nearest metric target (SpatialIndex.source_points_ self) k source d /\
    m = mkNNMapping (longitude (gridPoint target))
          (latitude (gridPoint target))
          (longitude (gridPoint source)) (latitude (gridPoint source))
          (in_km metric target d) t_idx.
Proof.
  unfold SpatialIndex.nearest_neighbor. intros H.
  destruct (SpatialIndex.nearest_scan self target _ (DBL_MAX, 0, 0))
    as [[[d lon] lat]|e] eqn:Es; simpl in H; [|discriminate].
  destruct (Reqb d DBL_MAX) eqn:Eq; [discriminate|].
  apply Reqb_false in Eq.
  assert (Hall := nearest_scan_ok_inv _ _ _ Es).
  destruct (nearest_scan_spec self target _ DBL_MAX 0 0 Hall)
    as (m' & lon' & lat' & Hscan & Hcase).
  rewrite Es in Hscan. inversion Hscan; subst m' lon' lat'.
  destruct Hcase as [(Hd & _) | (k & src & Hfn & -> & -> & _)];
    [congruence|].
  exists k, src, d. split; [exact Hfn|].
  inversion H. now rewrite dist_km_in_km.
Qed.

End ScanMore.

Lemma first_nearest_valid (metric : DistanceMetric) (target : SpatialData)
    (sources : list SpatialData) (k : nat) (source : SpatialData) (d : R) :
  first_nearest metric target sources k source d ->
  valid_point target /\ valid_point source /\ In source sources /\ 0 <= d.
Proof.
  intros (Hk & Hd & _). apply compute_distance_inv in Hd.
  unfold valid_point. repeat split; try tauto.
  eapply nth_error_In; eauto.
Qed.

Lemma in_km_nonneg_any (metric : DistanceMetric) (target : SpatialData) (d : R) :
  Rabs (latitude (gridPoint target)) <= 90 -> 0 <= d ->
  0 <= in_km metric target d.
Proof.
  intros Hlat Hd. unfold in_km. destruct metric; [|exact Hd].
  assert (Hcos := cos_lat_nonneg _ Hlat).
  rewrite Rmult_assoc. apply Rmult_le_pos; [exact Hd|nra].
Qed.

(** X10.  Every list of NN mappings that is returned has one mapping per target;
    the mapping at position [i] carries the index [i], below the number of
    targets, the coordinates of target [i] and those of one of the sources,
    and a non-negative distance. *)
Theorem nn_mappings_invariants (self : SpatialIndex.t)
    (targets : list SpatialData) (mappings : list NNMapping) :
  SpatialIndex.find_nearest_neighbors self targets = Ok mappings ->
  length mappings = length targets /\
  forall i m, nth_error mappings i = Some m ->
    nn_target_idx m = i /\
    (i < length targets)%nat /\
    0 <= nn_distance m /\
    (exists target,
       nth_error targets i = Some target /\
       nn_target_lon m = longitude (gridPoint target) /\
       nn_target_lat m = latitude (gridPoint target)) /\
    (exists source,
       In source (SpatialIndex.source_points_ self) /\
       nn_source_lon m = longitude (gridPoint source) /\
       nn_source_lat m = latitude (gridPoint source)).
Proof.
  intros H. destruct (for_each_target_inv _ _ _ _ H) as [Hlen Hnth].
  split; [exact Hlen|]. intros i m Hi.
  assert (Hlt : (i < length targets)%nat).
  { rewrite <- Hlen. apply nth_error_Some. congruence. }
  destruct (nth_error targets i) as [target|] eqn:Et;
    [|apply nth_error_None in Et; lia].
  destruct (Hnth i target Et) as (m' & Hm' & Hb). simpl in Hb.
  assert (m' = m) by congruence. subst m'.
  destruct (nearest_neighbor_inv self target i m Hb)
    as (k & source & d & Hfn & ->).
  destruct (first_nearest_valid _ _ _ _ _ _ Hfn) as ([Hlat _] & _ & Hin & Hd).
  simpl. repeat split; auto.
  - apply in_km_nonneg_any; assumption.
  - exists target. auto.
  - exists source. auto.
Qed.

Lemma origin_nn :
  exists m,
    SpatialIndex.find_nearest_neighbors
      (SpatialIndex.mk [origin] default_config) [origin] = Ok [m].
Proof.
  destruct (nearest_neighbor_spec (SpatialIndex.mk [origin] default_config)
              0 origin) as (k & s & d & _ & Hm);
    [discriminate|exact origin_list_valid|exact origin_valid|].
  eexists. unfold SpatialIndex.find_nearest_neighbors. simpl for_each_target.
  rewrite Hm. reflexivity.
Qed.

(** One source at the origin, the origin as target. *)
Lemma nn_mappings_invariants_witness :
  exists m,
    SpatialIndex.find_nearest_neighbors
      (SpatialIndex.mk [origin] default_config) [origin] = Ok [m] /\
    nn_target_idx m = 0%nat /\ 0 <= nn_distance m.
Proof.
  destruct origin_nn as [m Hm]. exists m. split; [exact Hm|].
  destruct (nn_mappings_invariants _ _ _ Hm) as [_ H].
  destruct (H 0%nat m eq_refl) as (Hidx & _ & Hd & _).
  split; assumption.
Defined.

Lemma all_valid_nn_ok (self : SpatialIndex.t) (targets : list SpatialData) :
  SpatialIndex.source_points_ self <> [] ->
  Forall valid_point (SpatialIndex.source_points_ self) ->
  Forall valid_point targets ->
  exists nn, SpatialIndex.find_nearest_neighbors self targets = Ok nn.
Proof.
  intros Hne Hsrc Htgt. apply for_each_target_total.
  intros j t Hj.
  destruct (nearest_neighbor_spec self (0 + j) t) as (k & s & d & _ & Hb);
    auto.
  - eapply Forall_forall; [exact Htgt|]. eapply nth_error_In; eauto.
  - eauto.
Qed.




Section FallbackMore.
Variable std_sort : list neighbor -> list neighbor.
Hypothesis std_sort_sorts : sorts std_sort.
Variable self : SpatialIndex.t.
Variable target : SpatialData.

Let cfg := SpatialIndex.config_ self.
Let metric := distance_metric cfg.
Let sources := SpatialIndex.source_points_ self.

Lemma truncate_nil_inv (l : list neighbor) :
  SpatialIndex.truncate self l <> [] -> l <> [].
Proof.
  unfold SpatialIndex.truncate. intros H ->.
  destruct (_ >? _)%Z; [rewrite firstn_nil in H|]; congruence.
Qed.

(** A returned IDW mapping tells that the sources are not empty and that
    every distance could be computed. *)
Lemma idw_ok_sources (t_idx : nat) (m : IDWMapping) :
  SpatialIndex.idw_neighbors std_sort self t_idx target = Ok m ->
  sources <> [] /\
  Forall (fun s => exists d, distance_to metric target s = Ok d) sources.
Proof.
  intros H.
  destruct (idw_neighbors_inv self target std_sort t_idx m H)
    as (ns & Hc & _ & _ & _ & Hne & Hcase).
  destruct (candidates_inv self target _ ns Hc) as (_ & _ & Hall).
  split; [|exact Hall].
  destruct Hcase as [(_ & _ & d & lon & lat & Hscan & Hd & _) | (_ & _ & Hs)].
  - intros E. unfold sources in E. rewrite E in Hscan. simpl in Hscan.
    inversion Hscan. congruence.
  - intros E. unfold sources in E. rewrite E in Hc. simpl in Hc.
    inversion Hc; subst ns. rewrite Hs in Hne.
    rewrite convert_map in Hne.
    assert (Hsort : std_sort [] = []).
    { destruct (std_sort_sorts []) as [Hp _].
      now apply Permutation_nil in Hp. }
    rewrite Hsort in Hne. unfold SpatialIndex.truncate in Hne.
    destruct (_ >? _)%Z; [rewrite firstn_nil in Hne|];
      simpl in Hne; apply Hne; reflexivity.
Qed.

Lemma idw_ok_nn_ok (t_idx : nat) (m : IDWMapping) :
  SpatialIndex.idw_neighbors std_sort self t_idx target = Ok m ->
  exists n,
    SpatialIndex.nearest_neighbor self t_idx target = Ok n /\
    (idw_is_fallback m = true ->
     idw_sources m = [(nn_source_lon n, nn_source_lat n, nn_distance n)]).
Proof.
  intros H. destruct (idw_ok_sources t_idx m H) as [Hne Hall].
  destruct (nearest_scan_winner self target sources Hne Hall)
    as (k & src & d & Hscan & _ & Hd).
  eexists. split.
  - unfold SpatialIndex.nearest_neighbor. fold sources. rewrite Hscan.
    simpl. rewrite (proj2 (Reqb_false d DBL_MAX)) by lra. reflexivity.
  - intros Hf. simpl.
    destruct (idw_neighbors_inv self target std_sort t_idx m H)
      as (ns & _ & _ & _ & _ & _ & Hcase).
    destruct Hcase as [(_ & _ & d' & lon & lat & Hscan' & _ & Hs)
                      | (_ & Hnf & _)]; [|congruence].
    fold sources in Hscan'. rewrite Hscan in Hscan'.
    inversion Hscan'; subst. exact Hs.
Qed.
End FallbackMore.

(** X12.  Whenever [find_idw_neighbors] returns, [find_nearest_neighbors] returns
    too on the same targets, and every fallback mapping holds exactly the
    source and the distance of the NN mapping of the same target. *)
Theorem fallback_is_nearest_neighbor
    (std_sort : list neighbor -> list neighbor) (self : SpatialIndex.t)
    (targets : list SpatialData) (idw : list IDWMapping) :
  sorts std_sort ->
  SpatialIndex.find_idw_neighbors std_sort self targets = Ok idw ->
  exists nn,
    SpatialIndex.find_nearest_neighbors self targets = Ok nn /\
    forall i m, nth_error idw i = Some m -> idw_is_fallback m = true ->
      exists n,
        nth_error nn i = Some n /\
        idw_sources m = [(nn_source_lon n, nn_source_lat n, nn_distance n)].
Proof.
  intros Hsort Hidw.
  destruct (for_each_target_inv _ _ _ _ Hidw) as [Hlen Hnth].
  destruct (for_each_target_total (SpatialIndex.nearest_neighbor self)
              targets 0) as (nn & Hnn).
  { intros j t Hj. destruct (Hnth j t Hj) as (m & _ & Hb).
    destruct (idw_ok_nn_ok std_sort Hsort self t _ m Hb) as (n & Hn & _).
    eauto. }
  exists nn. split; [exact Hnn|].
  destruct (for_each_target_inv _ _ _ _ Hnn) as [Hlen' Hnth'].
  intros i m Hi Hf.
  assert (Hlt : (i < length targets)%nat).
  { rewrite <- Hlen. apply nth_error_Some. congruence. }
  destruct (nth_error targets i) as [t|] eqn:Et;
    [|apply nth_error_None in Et; lia].
  destruct (Hnth i t Et) as (m' & Hm' & Hb).
  assert (m' = m) by congruence. subst m'.
  destruct (Hnth' i t Et) as (n & Hn & Hbn).
  destruct (idw_ok_nn_ok std_sort Hsort self t _ m Hb) as (n' & Hn' & Hs).
  assert (n' = n) by congruence. subst n'.
  exists n. split; [exact Hn|apply Hs, Hf].
Qed.

Lemma origin_idw_default :
  exists m,
    SpatialIndex.find_idw_neighbors insertion_sort
      (SpatialIndex.mk [origin] default_config) [origin] = Ok [m].
Proof.
  destruct (idw_neighbors_total insertion_sort insertion_sort_sorts
              (SpatialIndex.mk [origin] default_config) origin 0)
    as (m & Hm);
    [unfold well_formed, INT_MAX; simpl; repeat split; try lra; lia
    |discriminate|exact origin_list_valid|exact origin_valid|].
  exists m. unfold SpatialIndex.find_idw_neighbors. simpl for_each_target.
  rewrite Hm. reflexivity.
Qed.

(** One source and the default min_points = 5: the mapping is a fallback. *)
Lemma fallback_is_nearest_neighbor_witness :
  exists nn,
    SpatialIndex.find_nearest_neighbors
      (SpatialIndex.mk [origin] default_config) [origin] = Ok nn.
Proof.
  destruct origin_idw_default as [m Hm].
  destruct (fallback_is_nearest_neighbor insertion_sort
              (SpatialIndex.mk [origin] default_config) [origin] [m]
              insertion_sort_sorts Hm) as (nn & Hnn & _).
  exists nn. exact Hnn.
Defined.

Lemma StronglySorted_app_le {A : Type} (R : A -> A -> Prop) (a b : list A) :
  StronglySorted R (a ++ b) ->
  forall x y, In x a -> In y b -> R x y.
Proof.
  induction a as [|h a IH]; intros Hs x y Hx Hy; [destruct Hx|].
  simpl in Hs. inversion Hs as [|? ? Hs' Hall]; subst.
  destruct Hx as [<-|Hx].
  - eapply Forall_forall; [exact Hall|]. apply in_or_app. now right.
  - eapply IH; eauto.
Qed.


Lemma passes_mono (cfg : RegridConfig) (t s s' : SpatialData) (d d' : R) :
  distance_to (distance_metric cfg) t s = Ok d ->
  distance_to (distance_metric cfg) t s' = Ok d' ->
  d' <= d -> passes cfg t s = true -> passes cfg t s' = true.
Proof.
  unfold passes. intros Hd Hd' Hle. rewrite Hd, Hd'.
  destruct (distance_metric cfg).
  - destruct (km_to_degrees _ _) as [rd|]; [|discriminate].
    intros H. apply Rleb_true in H. apply Rleb_true. lra.
  - intros H. apply Rleb_true in H. apply Rleb_true. lra.
Qed.

Lemma in_km_mono_any (metric : DistanceMetric) (target : SpatialData)
    (d d' : R) :
  Rabs (latitude (gridPoint target)) <= 90 ->
  d <= d' -> in_km metric target d <= in_km metric target d'.
Proof.
  intros Hlat Hd. unfold in_km. destruct metric; [|exact Hd].
  assert (Hcos := cos_lat_nonneg _ Hlat).
  rewrite !Rmult_assoc. apply Rmult_le_compat_r; [|exact Hd]. nra.
Qed.

Section Closest.
Variable self : SpatialIndex.t.
Variable target : SpatialData.

Let cfg := SpatialIndex.config_ self.
Let metric := distance_metric cfg.
Let sources := SpatialIndex.source_points_ self.


(** Every admitted source is among the candidates. *)
Lemma candidates_complete (l : list SpatialData) :
  forall ns s d,
    SpatialIndex.candidates self target l = Ok ns ->
    In s l -> passes cfg target s = true ->
    distance_to metric target s = Ok d ->
    In (longitude (gridPoint s), latitude (gridPoint s), d) ns.
Proof.
  induction l as [|s0 rest IH]; intros ns s d H Hin Hp Hd; [destruct Hin|].
  simpl in H. fold cfg metric in H.
  destruct (compute_distance _ _ _ _ metric) as [d0|e] eqn:Ed0;
    simpl in H; [|discriminate].
  destruct (SpatialIndex.admitted self target d0) as [keep|e] eqn:Ek;
    simpl in H; [|discriminate].
  destruct (SpatialIndex.candidates self target rest) as [ns'|e] eqn:Er;
    simpl in H; [|discriminate].
  destruct (admitted_passes self target s0 d0 keep Ed0 Ek) as [Hkeep _].
  inversion H; subst ns. destruct Hin as [<-|Hin].
  - unfold distance_to in Hd. fold metric in Ed0. rewrite Ed0 in Hd.
    inversion Hd; subst d0. fold cfg in Hkeep. rewrite Hkeep, Hp.
    left. reflexivity.
  - assert (Hi := IH ns' s d eq_refl Hin Hp Hd).
    destruct keep; [right|]; exact Hi.
Qed.

Lemma truncate_split (l : list neighbor) :
  exists dropped,
    l = SpatialIndex.truncate self l ++ dropped.
Proof.
  unfold SpatialIndex.truncate. destruct (_ >? _)%Z.
  - eexists. symmetry. apply firstn_skipn.
  - exists []. now rewrite app_nil_r.
Qed.

Lemma truncate_head (l : list neighbor) (x : neighbor) (r : list neighbor) :
  SpatialIndex.truncate self l = x :: r -> exists r', l = x :: r'.
Proof.
  intros H. destruct (truncate_split l) as [dropped Hd].
  rewrite H in Hd. simpl in Hd. eauto.
Qed.

Variable std_sort : list neighbor -> list neighbor.
Hypothesis std_sort_sorts : sorts std_sort.

(** What the truncation keeps is what is nearest. *)
Lemma idw_neighbors_closest (t_idx : nat) (m : IDWMapping) :
  (0 <= max_points cfg <= INT_MAX)%Z ->
  SpatialIndex.idw_neighbors std_sort self t_idx target = Ok m ->
  idw_is_fallback m = false ->
  length (idw_sources m)
    = Nat.min (admitted_count cfg target sources)
              (Z.to_nat (max_points cfg)) /\
  forall source d,
    In source sources -> passes cfg target source = true ->
    distance_to metric target source = Ok d ->
    In (longitude (gridPoint source), latitude (gridPoint source),
        in_km metric target d) (idw_sources m)
    \/ forall nb, In nb (idw_sources m) -> get2 nb <= in_km metric target d.
Proof.
  intros Hmax H Hnf.
  destruct (idw_neighbors_inv self target std_sort t_idx m H)
    as (ns & Hc & _ & _ & _ & _ & [(_ & Hf & _) | (_ & _ & Hs)]);
    [congruence|].
  destruct (candidates_inv self target _ ns Hc) as (Hlen & Hok & _).
  destruct (std_sort_sorts ns) as [Hperm Hsorted].
  split.
  - rewrite Hs, convert_map, length_map.
    destruct (truncate_length self (std_sort ns) Hmax) as [_ ->].
    rewrite <- (Permutation_length Hperm). fold cfg sources in Hlen.
    now rewrite Hlen.
  - intros source d Hin Hp Hd.
    assert (Hc' := candidates_complete _ ns source d Hc Hin Hp Hd).
    apply (Permutation_in _ Hperm) in Hc'.
    destruct (truncate_split (std_sort ns)) as [dropped Hsplit].
    rewrite Hsplit in Hc', Hsorted.
    apply in_app_or in Hc'. destruct Hc' as [Hkept|Hdropped].
    + left. rewrite Hs, convert_map. apply in_map_iff.
      eexists. split; [|exact Hkept]. reflexivity.
    + right. intros nb Hnb. rewrite Hs, convert_map in Hnb.
      apply in_map_iff in Hnb. destruct Hnb as (nb0 & <- & Hnb0).
      assert (Hle := StronglySorted_app_le _ _ _ Hsorted nb0 _ Hnb0 Hdropped).
      unfold get2 at 1. simpl. unfold get2 in Hle at 2. simpl in Hle.
      apply in_km_mono_any; [|exact Hle].
      apply compute_distance_inv in Hd. tauto.
Qed.

(** The first neighbor of a mapping is at the distance of the nearest
    source. *)
Lemma idw_neighbors_head (t_idx : nat) (m : IDWMapping) (n : NNMapping) :
  SpatialIndex.idw_neighbors std_sort self t_idx target = Ok m ->
  SpatialIndex.nearest_neighbor self t_idx target = Ok n ->
  exists nb rest, idw_sources m = nb :: rest /\ get2 nb = nn_distance n.
Proof.
  intros H Hn.
  destruct (idw_ok_nn_ok std_sort std_sort_sorts self target t_idx m H)
    as (n' & Hn' & Hfb).
  assert (n' = n) by congruence. subst n'.
  destruct (idw_is_fallback m) eqn:Ef.
  - rewrite (Hfb eq_refl). eexists. eexists. split; reflexivity.
  - destruct (idw_neighbors_inv self target std_sort t_idx m H)
      as (ns & Hc & _ & _ & _ & Hne & [(_ & Hf & _) | (_ & _ & Hs)]);
      [congruence|].
    destruct (nearest_neighbor_inv self target t_idx n Hn)
      as (k & src & d & Hfn & ->).
    destruct (std_sort_sorts ns) as [Hperm Hsorted].
    assert (Hfrom := candidates_from self target _ ns Hc).
    rewrite convert_map in Hs.
    destruct (SpatialIndex.truncate self (std_sort ns)) as [|h r] eqn:Et;
      [rewrite Hs in Hne; simpl in Hne; exfalso; apply Hne; reflexivity|].
    destruct (truncate_head _ _ _ Et) as [r' Hsorted_eq].
    rewrite Hs. simpl. eexists. eexists. split; [reflexivity|].
    unfold get2 at 1. simpl. f_equal.
    (* the head is a candidate, hence an admitted source *)
    assert (Hh : In h ns).
    { apply (Permutation_in _ (Permutation_sym Hperm)).
      rewrite Hsorted_eq. now left. }
    eapply Forall_forall in Hfrom; [|exact Hh].
    destruct Hfrom as (sh & dh & Hsh & Hdh & Hph & ->).
    unfold get2. simpl.
    destruct (first_nearest_valid _ _ _ _ _ _ Hfn) as (_ & _ & Hsrc & _).
    destruct Hfn as (Hk & Hd & Hmin).
    destruct (In_nth_error _ _ Hsh) as [j Hj].
    destruct (Hmin j sh dh Hj Hdh) as [Hle _].
    (* the nearest source is admitted too, hence in the sorted list *)
    assert (Hpsrc : passes cfg target src = true)
      by (eapply passes_mono; [exact Hdh|exact Hd|exact Hle|exact Hph]).
    assert (Hin := candidates_complete _ ns src d Hc Hsrc Hpsrc Hd).
    apply (Permutation_in _ Hperm) in Hin.
    rewrite Hsorted_eq in Hin, Hsorted.
    destruct Hin as [Heq|Hin].
    + inversion Heq. reflexivity.
    + inversion Hsorted as [|? ? _ Hall]; subst.
      eapply Forall_forall in Hall; [|exact Hin].
      unfold get2 in Hall. simpl in Hall. lra.
Qed.
End Closest.

Lemma origin_idw_min1 :
  exists m,
    SpatialIndex.find_idw_neighbors insertion_sort
      (SpatialIndex.mk [origin] config_min1) [origin] = Ok [m] /\
    idw_is_fallback m = false.
Proof.
  assert (Hwf : well_formed config_min1).
  { unfold well_formed, INT_MAX; simpl; repeat split; try lra; lia. }
  destruct (idw_neighbors_total insertion_sort insertion_sort_sorts
              (SpatialIndex.mk [origin] config_min1) origin 0)
    as (m & Hm); simpl; auto; try discriminate;
    try exact origin_list_valid; try exact origin_valid.
  exists m. split.
  - unfold SpatialIndex.find_idw_neighbors. simpl for_each_target.
    rewrite Hm. reflexivity.
  - destruct (idw_neighbors_fallback insertion_sort
                (SpatialIndex.mk [origin] config_min1) origin 0 m)
      as [Hiff _]; [unfold INT_MAX; simpl; lia|exact Hm|].
    destruct (idw_is_fallback m); [|reflexivity].
    destruct Hiff as [Hiff _]. specialize (Hiff eq_refl).
    unfold admitted_count in Hiff. simpl in Hiff.
    rewrite passes_origin in Hiff by (simpl; try reflexivity; lra).
    simpl in Hiff. lia.
Qed.

(** X13.  In a mapping that is not a fallback the number of neighbors is the
    smaller of max_points and the number of admitted sources, and the
    truncation keeps the nearest: an admitted source is either reported or
    at least as far as every reported neighbor. *)
Theorem truncation_keeps_closest
    (std_sort : list neighbor -> list neighbor)
    (sources targets : list SpatialData) (cfg : RegridConfig)
    (self : SpatialIndex.t) (mappings : list IDWMapping) (m : IDWMapping) :
  sorts std_sort ->
  SpatialIndex.new sources cfg = Ok self ->
  (0 <= max_points cfg <= INT_MAX)%Z ->
  SpatialIndex.find_idw_neighbors std_sort self targets = Ok mappings ->
  In m mappings ->
  idw_is_fallback m = false ->
  exists target,
    nth_error targets (idw_target_idx m) = Some target /\
    length (idw_sources m)
      = Nat.min (admitted_count cfg target sources)
                (Z.to_nat (max_points cfg)) /\
    forall source d,
      In source sources -> passes cfg target source = true ->
      distance_to (distance_metric cfg) target source = Ok d ->
      In (longitude (gridPoint source), latitude (gridPoint source),
          in_km (distance_metric cfg) target d) (idw_sources m)
      \/ forall nb, In nb (idw_sources m) ->
                    get2 nb <= in_km (distance_metric cfg) target d.
Proof.
  intros Hsort Hnew Hmax Hfind Hin Hnf.
  apply SpatialIndex_new_inv in Hnew. destruct Hnew as [-> _].
  destruct (for_each_target_In _ _ _ _ Hfind Hin) as (j & target & Hj & Hb).
  exists target.
  destruct (idw_neighbors_inv _ _ _ _ _ Hb) as (_ & _ & _ & _ & Hidx & _).
  rewrite Hidx. split; [exact Hj|].
  apply (idw_neighbors_closest (SpatialIndex.mk sources cfg) target
           std_sort Hsort j m Hmax Hb Hnf).
Qed.

Lemma truncation_keeps_closest_witness :
  exists m,
    SpatialIndex.find_idw_neighbors insertion_sort
      (SpatialIndex.mk [origin] config_min1) [origin] = Ok [m] /\
    length (idw_sources m) = 1%nat.
Proof.
  destruct origin_idw_min1 as (m & Hm & Hnf). exists m.
  split; [exact Hm|].
  destruct (truncation_keeps_closest insertion_sort [origin] [origin]
              config_min1 (SpatialIndex.mk [origin] config_min1) [m] m)
    as (target & Ht & Hlen & _);
    [exact insertion_sort_sorts|reflexivity|unfold INT_MAX; simpl; lia
    |exact Hm|left; reflexivity|exact Hnf|].
  rewrite Hlen.
  destruct (idw_neighbors_inv (SpatialIndex.mk [origin] config_min1) origin
              insertion_sort 0 m) as (_ & _ & _ & _ & Hidx & _).
  { unfold SpatialIndex.find_idw_neighbors in Hm. simpl in Hm.
    destruct (SpatialIndex.idw_neighbors insertion_sort _ 0 origin);
      simpl in Hm; congruence. }
  rewrite Hidx in Ht. inversion Ht; subst target.
  unfold admitted_count. simpl filter.
  rewrite passes_origin by (simpl; try reflexivity; lra).
  reflexivity.
Defined.

(** X14.  Whenever [find_idw_neighbors] returns, the first neighbor of every
    mapping, fallback or not, is at the distance reported by the NN mapping
    of the same target: the nearest source is never left out. *)
Theorem first_neighbor_is_nearest
    (std_sort : list neighbor -> list neighbor) (self : SpatialIndex.t)
    (targets : list SpatialData) (idw : list IDWMapping) :
  sorts std_sort ->
  SpatialIndex.find_idw_neighbors std_sort self targets = Ok idw ->
  exists nn,
    SpatialIndex.find_nearest_neighbors self targets = Ok nn /\
    forall i m, nth_error idw i = Some m ->
      exists n nb rest,
        nth_error nn i = Some n /\
        idw_sources m = nb :: rest /\
        get2 nb = nn_distance n.
Proof.
  intros Hsort Hidw.
  destruct (for_each_target_inv _ _ _ _ Hidw) as [Hlen Hnth].
  destruct (for_each_target_total (SpatialIndex.nearest_neighbor self)
              targets 0) as (nn & Hnn).
  { intros j t Hj. destruct (Hnth j t Hj) as (m & _ & Hb).
    destruct (idw_ok_nn_ok std_sort Hsort self t _ m Hb) as (n & Hn & _).
    eauto. }
  exists nn. split; [exact Hnn|].
  destruct (for_each_target_inv _ _ _ _ Hnn) as [Hlen' Hnth'].
  intros i m Hi.
  assert (Hlt : (i < length targets)%nat).
  { rewrite <- Hlen. apply nth_error_Some. congruence. }
  destruct (nth_error targets i) as [t|] eqn:Et;
    [|apply nth_error_None in Et; lia].
  destruct (Hnth i t Et) as (m' & Hm' & Hb).
  assert (m' = m) by congruence. subst m'.
  destruct (Hnth' i t Et) as (n & Hn & Hbn).
  destruct (idw_neighbors_head self t std_sort Hsort _ m n Hb Hbn)
    as (nb & rest & Hs & Hd).
  exists n, nb, rest. auto.
Qed.

Lemma first_neighbor_is_nearest_witness :
  exists nn m n nb rest,
    SpatialIndex.find_nearest_neighbors
      (SpatialIndex.mk [origin] config_min1) [origin] = Ok nn /\
    nth_error nn 0 = Some n /\
    idw_is_fallback m = false /\
    idw_sources m = nb :: rest /\ get2 nb = nn_distance n.
Proof.
  destruct origin_idw_min1 as (m & Hm & Hnf).
  destruct (first_neighbor_is_nearest insertion_sort
              (SpatialIndex.mk [origin] config_min1) [origin] [m]
              insertion_sort_sorts Hm) as (nn & Hnn & H).
  destruct (H 0%nat m eq_refl) as (n & nb & rest & Hn & Hs & Hd).
  exists nn, m, n, nb, rest. auto.
Defined.



(** * Further properties of the interpolator *)

Lemma forallb_false_ex {A : Type} (f : A -> bool) (l : list A) :
  forallb f l = false -> exists x, In x l /\ f x = false.
Proof.
  induction l as [|a l IH]; simpl; [discriminate|].
  destruct (f a) eqn:Ea; simpl.
  - intros H. destruct (IH H) as (x & Hx & Hf). exists x. auto.
  - intros _. exists a. auto.
Qed.

(** X16.  The constructor accepts exactly the non-empty source lists in which any
    two records carry the same number of values; it raises "Source point
    list is empty" exactly for the empty list and "Inconsistent value sizes"
    exactly when two records differ in their number of values. *)
Theorem interpolator_new_spec (sources : list SpatialData)
    (cfg : RegridConfig) :
  (Interpolator.new sources cfg = Ok (Interpolator.mk sources cfg) <->
   sources <> [] /\
   forall p q, In p sources -> In q sources ->
               length (values p) = length (values q)) /\
  (Interpolator.new sources cfg = Err EmptySourceList <-> sources = []) /\
  (Interpolator.new sources cfg = Err InconsistentValueSizes <->
   exists p q, In p sources /\ In q sources /\
               length (values p) <> length (values q)).
Proof.
  destruct sources as [|first rest].
  - simpl. split; [|split]; split; try discriminate; try reflexivity.
    + intros [H _]. exfalso. apply H. reflexivity.
    + intros (p & q & [] & _).
  - unfold Interpolator.new.
    destruct (forallb _ (first :: rest)) eqn:E.
    + rewrite forallb_forall in E.
      assert (Hall : forall p, In p (first :: rest) ->
                               length (values p) = length (values first)).
      { intros p Hp. apply Nat.eqb_eq. apply E. exact Hp. }
      split; [|split]; split; try discriminate.
      * intros _. split; [discriminate|].
        intros p q Hp Hq. rewrite (Hall p Hp), (Hall q Hq). reflexivity.
      * reflexivity.
      * intros (p & q & Hp & Hq & Hne). exfalso. apply Hne.
        rewrite (Hall p Hp), (Hall q Hq). reflexivity.
    + apply forallb_false_ex in E. destruct E as (p & Hp & Hf).
      apply Nat.eqb_neq in Hf.
      split; [|split]; split; try discriminate.
      * intros [_ H]. exfalso. apply Hf. apply H; [exact Hp|left; reflexivity].
      * intros _. exists p, first.
        split; [exact Hp|]. split; [left; reflexivity|exact Hf].
      * reflexivity.
Qed.

Lemma resolve_same_point (sources : list SpatialData) (lon lat : R)
    (target src : SpatialData) :
  resolve sources lon lat target = Some src ->
  In src sources /\
  Rabs (longitude (gridPoint src) - lon) < 1e-6 /\
  Rabs (latitude (gridPoint src) - lat) < 1e-6 /\
  time_step src = time_step target.
Proof.
  unfold resolve. intros H. apply find_some in H. destruct H as [Hin Hs].
  unfold Interpolator.same_point in Hs.
  apply andb_true_iff in Hs. destruct Hs as [Hs Ht].
  apply andb_true_iff in Hs. destruct Hs as [Hlon Hlat].
  apply Rltb_true in Hlon. apply Rltb_true in Hlat. apply Z.eqb_eq in Ht.
  auto.
Qed.

Lemma resolved_neighbors_In (sources : list SpatialData) (p : R)
    (target : SpatialData) (nbs : list neighbor) (r : R * SpatialData) :
  In r (resolved_neighbors sources p target nbs) ->
  0 < fst r /\ In (snd r) sources /\ time_step (snd r) = time_step target.
Proof.
  unfold resolved_neighbors. rewrite in_flat_map.
  intros ([[lon lat] d] & _ & Hr).
  destruct (resolve sources lon lat target) as [src|] eqn:E; [|destruct Hr].
  destruct Hr as [<-|[]]. simpl.
  apply resolve_same_point in E. split; [apply idw_weight_pos|tauto].
Qed.

Lemma idw_values_some (self : Interpolator.t) (target : SpatialData)
    (nbs : list neighbor) (vals : list R) :
  Interpolator.idw_values self target nbs = Some vals ->
  exists r rest,
    resolved_neighbors (Interpolator.source_points_ self)
      (power (Interpolator.config_ self)) target nbs = r :: rest /\
    length vals = length (values (snd r)) /\
    forall j, (j < length vals)%nat ->
              nth j vals 0 = weighted_mean (r :: rest) j.
Proof.
  intros H. assert (Hspec := idw_values_spec self target nbs). simpl in Hspec.
  destruct (resolved_neighbors _ _ target nbs) as [|r rest]; [congruence|].
  destruct Hspec as (vals' & Hv & Hl & Hn).
  assert (vals' = vals) by congruence. subst vals'.
  exists r, rest. auto.
Qed.


(** ** Invariants of the two loops *)

Section LoopInvariants.
Variable self : Interpolator.t.
Variable targets : list SpatialData.
Variable P : SpatialData -> Prop.

Lemma nn_loop_inv (mappings : list NNMapping) :
  (forall m target src,
      In m mappings ->
      nth_error targets (nn_target_idx m) = Some target ->
      resolve (Interpolator.source_points_ self)
        (nn_source_lon m) (nn_source_lat m) target = Some src ->
      P (Interpolator.set_values target (values src))) ->
  forall result r,
    Forall P result ->
    Interpolator.nn_loop self targets mappings result = Ok r ->
    Forall P r /\ (length r <= length result + length mappings)%nat.
Proof.
  induction mappings as [|m rest IH]; intros Hstep result r Hres H;
    simpl in H.
  - inversion H; subst. split; [exact Hres|lia].
  - assert (Hstep' := fun m' t s Hin => Hstep m' t s (or_intror Hin)).
    destruct (nth_error targets (nn_target_idx m)) as [target|] eqn:Et.
    + rewrite (nn_step_resolve self targets m target result Et) in H.
      simpl in H.
      destruct (resolve _ _ _ target) as [src|] eqn:Er.
      * assert (Hres' : Forall P (result ++
                          [Interpolator.set_values target (values src)])).
        { apply Forall_app. split; [exact Hres|].
          constructor; [|constructor].
          apply (Hstep m target src); auto. left; reflexivity. }
        destruct (IH Hstep' _ r Hres' H) as [HP Hlen].
        split; [exact HP|]. rewrite length_app in Hlen. simpl in *. lia.
      * destruct (IH Hstep' _ r Hres H) as [HP Hlen].
        split; [exact HP|]. simpl. lia.
    + unfold Interpolator.nn_step in H. rewrite Et in H. discriminate.
Qed.

Lemma idw_loop_inv (mappings : list IDWMapping) :
  (forall m target lon lat d src,
      In m mappings ->
      nth_error targets (idw_target_idx m) = Some target ->
      idw_is_fallback m = true ->
      idw_sources m = [(lon, lat, d)] ->
      resolve (Interpolator.source_points_ self) lon lat target = Some src ->
      P (Interpolator.set_values target (values src))) ->
  (forall m target vals,
      In m mappings ->
      nth_error targets (idw_target_idx m) = Some target ->
      idw_is_fallback m = false ->
      Interpolator.idw_values self target (idw_sources m) = Some vals ->
      P (mkSpatialData (gridPoint target) (time_step target) vals)) ->
  forall result r,
    Forall P result ->
    Interpolator.idw_loop self targets mappings result = Ok r ->
    Forall P r /\ (length r <= length result + length mappings)%nat.
Proof.
  induction mappings as [|m rest IH]; intros Hfb Hpr result r Hres H;
    simpl in H.
  - inversion H; subst. split; [exact Hres|lia].
  - assert (Hfb' := fun m' t lon lat d s Hin =>
                      Hfb m' t lon lat d s (or_intror Hin)).
    assert (Hpr' := fun m' t v Hin => Hpr m' t v (or_intror Hin)).
    destruct (Interpolator.idw_step self targets m result) as [r1|e] eqn:Es;
      simpl in H; [|discriminate].
    assert (Hr1 : Forall P r1 /\ (length r1 <= S (length result))%nat).
    { destruct (nth_error targets (idw_target_idx m)) as [target|] eqn:Et.
      2:{ unfold Interpolator.idw_step in Es. rewrite Et in Es.
          discriminate. }
      destruct (idw_is_fallback m) eqn:Ef.
      - destruct (idw_sources m) as [|[[lon lat] d] [|nb l]] eqn:Esrc;
          try (unfold Interpolator.idw_step in Es;
               rewrite Et, Ef, Esrc in Es; discriminate).
        rewrite (idw_step_fallback self targets m target lon lat d result
                   Et Ef Esrc) in Es.
        inversion Es; subst r1. clear Es.
        destruct (resolve _ lon lat target) as [src|] eqn:Er.
        + split.
          * apply Forall_app. split; [exact Hres|].
            constructor; [|constructor].
            apply (Hfb m target lon lat d src); auto. left; reflexivity.
          * rewrite length_app. simpl. lia.
        + split; [exact Hres|lia].
      - rewrite (idw_step_nonfallback self targets m target result Ef Et)
          in Es.
        destruct (Interpolator.idw_values self target (idw_sources m))
          as [vals|] eqn:Ev; inversion Es; subst r1; clear Es.
        + split.
          * apply Forall_app. split; [exact Hres|].
            constructor; [|constructor].
            apply (Hpr m target vals); auto. left; reflexivity.
          * rewrite length_app. simpl. lia.
        + split; [exact Hres|lia]. }
    destruct Hr1 as [HP1 Hl1].
    destruct (IH Hfb' Hpr' r1 r HP1 H) as [HP Hlen].
    split; [exact HP|]. simpl. lia.
Qed.
End LoopInvariants.

(** The records of a result, for an interpolator whose sources agree in
    their number of values. *)
Lemma interpolate_records (sources targets : list SpatialData)
    (cfg : RegridConfig)
    (nn_mappings : list NNMapping) (idw_mappings : list IDWMapping)
    (result : list SpatialData) :
  (forall p q, In p sources -> In q sources ->
               length (values p) = length (values q)) ->
  Interpolator.interpolate (Interpolator.mk sources cfg) targets
    nn_mappings idw_mappings = Ok result ->
  result <> [] /\
  (length result <= match interp_method cfg with
                    | NEAREST_NEIGHBOR => length nn_mappings
                    | INVERSE_DISTANCE_WEIGHTED => length idw_mappings
                    end)%nat /\
  forall r, In r result ->
    (exists target, In target targets /\
                    gridPoint r = gridPoint target /\
                    time_step r = time_step target) /\
    (forall s, In s sources -> length (values r) = length (values s)).
Proof.
  intros Hsame H.
  set (P := fun r : SpatialData =>
              (exists target, In target targets /\
                              gridPoint r = gridPoint target /\
                              time_step r = time_step target) /\
              (forall s, In s sources ->
                         length (values r) = length (values s))).
  unfold Interpolator.interpolate in H. simpl in H.
  destruct (interp_method cfg).
  - unfold Interpolator.interpolate_nearest_neighbor in H.
    destruct (Interpolator.nn_loop _ targets nn_mappings []) as [r0|e] eqn:El;
      simpl in H; [|discriminate].
    destruct r0 as [|x r0]; inversion H; subst result. clear H.
    destruct (nn_loop_inv (Interpolator.mk sources cfg) targets P
                nn_mappings) with (3 := El) as [HP Hlen].
    + intros m target src _ Ht Hr. apply resolve_same_point in Hr.
      simpl in Hr. destruct Hr as (Hin & _). split.
      * exists target. split; [eapply nth_error_In; eauto|]. auto.
      * intros s Hs. simpl. apply Hsame; assumption.
    + constructor.
    + split; [discriminate|]. split; [simpl in *; lia|].
      rewrite Forall_forall in HP. exact HP.
  - unfold Interpolator.interpolate_idw in H.
    destruct (Interpolator.idw_loop _ targets idw_mappings []) as [r0|e]
      eqn:El; simpl in H; [|discriminate].
    destruct r0 as [|x r0]; inversion H; subst result. clear H.
    destruct (idw_loop_inv (Interpolator.mk sources cfg) targets P
                idw_mappings) with (4 := El) as [HP Hlen].
    + intros m target lon lat d src _ Ht _ _ Hr.
      apply resolve_same_point in Hr.
      simpl in Hr. destruct Hr as (Hin & _). split.
      * exists target. split; [eapply nth_error_In; eauto|]. auto.
      * intros s Hs. simpl. apply Hsame; assumption.
    + intros m target vals _ Ht _ Hv.
      apply idw_values_some in Hv.
      destruct Hv as (r & rs & Hrs & Hl & _). split.
      * exists target. split; [eapply nth_error_In; eauto|]. auto.
      * intros s Hs. simpl. rewrite Hl. apply Hsame; [|exact Hs].
        apply (resolved_neighbors_In sources (power cfg) target
                 (idw_sources m) r).
        simpl in Hrs. rewrite Hrs. left; reflexivity.
    + constructor.
    + split; [discriminate|]. split; [simpl in *; lia|].
      rewrite Forall_forall in HP. exact HP.
Qed.

(** X17.  What [interpolate] returns is never empty and never longer than the
    list of mappings of the active method; each of its records sits on one
    of the targets, with that target's coordinates and time_step, and has
    as many values as every source has. *)
Theorem interpolate_shape (sources targets : list SpatialData)
    (cfg : RegridConfig) (self : Interpolator.t)
    (nn_mappings : list NNMapping) (idw_mappings : list IDWMapping)
    (result : list SpatialData) :
  Interpolator.new sources cfg = Ok self ->
  Interpolator.interpolate self targets nn_mappings idw_mappings
    = Ok result ->
  result <> [] /\
  (length result <= match interp_method cfg with
                    | NEAREST_NEIGHBOR => length nn_mappings
                    | INVERSE_DISTANCE_WEIGHTED => length idw_mappings
                    end)%nat /\
  forall r, In r result ->
    (exists target, In target targets /\
                    gridPoint r = gridPoint target /\
                    time_step r = time_step target) /\
    (forall s, In s sources -> length (values r) = length (values s)).
Proof.
  intros Hnew H.
  apply Interpolator_new_inv in Hnew.
  destruct Hnew as (-> & first & rest & Hsrc & Hall).
  rewrite Forall_forall in Hall.
  apply interpolate_records; [|exact H].
  intros p q Hp Hq. rewrite (Hall p Hp), (Hall q Hq). reflexivity.
Qed.

Lemma origin_nn_step (cfg : RegridConfig) :
  Interpolator.nn_step (Interpolator.mk [origin] cfg) [origin]
    (mkNNMapping 0 0 0 0 0 0) [] = Ok [origin].
Proof.
  rewrite (nn_step_resolve (Interpolator.mk [origin] cfg) [origin]
             (mkNNMapping 0 0 0 0 0 0) origin [] eq_refl).
  destruct (resolve_self [origin] origin (or_introl eq_refl))
    as (s & Hs & [<-|[]] & _).
  change (resolve [origin] 0 0 origin = Some origin) in Hs.
  change (resolve _ _ _ origin) with (resolve [origin] 0 0 origin).
  rewrite Hs. reflexivity.
Qed.

Lemma origin_nn_interpolation :
  Interpolator.interpolate (Interpolator.mk [origin] config_nn)
    [origin] [mkNNMapping 0 0 0 0 0 0] [] = Ok [origin].
Proof.
  unfold Interpolator.interpolate. simpl interp_method. cbv iota.
  unfold Interpolator.interpolate_nearest_neighbor.
  change (Interpolator.nn_loop ?s ?t [?m] [])
    with (bind (Interpolator.nn_step s t m [])
            (fun r => Interpolator.nn_loop s t [] r)).
  rewrite origin_nn_step. reflexivity.
Qed.

Lemma interpolate_shape_witness :
  exists r,
    Interpolator.interpolate (Interpolator.mk [origin] config_nn)
      [origin] [mkNNMapping 0 0 0 0 0 0] [] = Ok [r] /\
    gridPoint r = gridPoint origin /\ length (values r) = 1%nat.
Proof.
  exists origin. split; [exact origin_nn_interpolation|].
  destruct (interpolate_shape [origin] [origin] config_nn
              (Interpolator.mk [origin] config_nn)
              [mkNNMapping 0 0 0 0 0 0] [] [origin] eq_refl
              origin_nn_interpolation)
    as (_ & _ & Hr).
  destruct (Hr origin (or_introl eq_refl)) as [_ Hlen].
  split; [reflexivity|]. apply (Hlen origin). left; reflexivity.
Defined.



(** ** Fallback mappings and the nearest-neighbor branch *)

(** The relation of an NN mapping and a fallback IDW mapping of the same
    target that name the same source. *)
Lemma fallback_step (self : Interpolator.t) (targets : list SpatialData)
    (n : NNMapping) (m : IDWMapping) (d : R) (result : list SpatialData) :
  idw_is_fallback m = true ->
  idw_target_idx m = nn_target_idx n ->
  idw_sources m = [(nn_source_lon n, nn_source_lat n, d)] ->
  Interpolator.idw_step self targets m result
    = Interpolator.nn_step self targets n result.
Proof.
  intros Hf Hi Hs.
  destruct (nth_error targets (nn_target_idx n)) as [target|] eqn:Et.
  - rewrite (nn_step_resolve self targets n target result Et).
    rewrite <- Hi in Et.
    rewrite (idw_step_fallback self targets m target _ _ d result Et Hf Hs).
    reflexivity.
  - unfold Interpolator.idw_step, Interpolator.nn_step.
    rewrite Hi, Et. reflexivity.
Qed.

Lemma fallback_loop (self : Interpolator.t) (targets : list SpatialData)
    (nn : list NNMapping) (idw : list IDWMapping) :
  Forall2 (fun n m =>
             idw_is_fallback m = true /\
             idw_target_idx m = nn_target_idx n /\
             exists d, idw_sources m
                       = [(nn_source_lon n, nn_source_lat n, d)]) nn idw ->
  forall result,
    Interpolator.idw_loop self targets idw result
      = Interpolator.nn_loop self targets nn result.
Proof.
  induction 1 as [|n m nn idw (Hf & Hi & d & Hs) _ IH]; intros result;
    simpl; [reflexivity|].
  rewrite (fallback_step self targets n m d result Hf Hi Hs).
  destruct (Interpolator.nn_step self targets n result); simpl;
    [apply IH|reflexivity].
Qed.

Lemma fallback_pairs (std_sort : list neighbor -> list neighbor)
    (self : SpatialIndex.t) (targets : list SpatialData) :
  sorts std_sort ->
  forall t_idx idw,
    for_each_target (SpatialIndex.idw_neighbors std_sort self) t_idx targets
      = Ok idw ->
    Forall (fun m => idw_is_fallback m = true) idw ->
    exists nn,
      for_each_target (SpatialIndex.nearest_neighbor self) t_idx targets
        = Ok nn /\
      Forall2 (fun n m =>
                 idw_is_fallback m = true /\
                 idw_target_idx m = nn_target_idx n /\
                 exists d, idw_sources m
                           = [(nn_source_lon n, nn_source_lat n, d)]) nn idw.
Proof.
  intros Hsort.
  induction targets as [|t rest IH]; intros t_idx idw H Hall; simpl in H.
  - inversion H; subst. exists []. split; [reflexivity|constructor].
  - destruct (SpatialIndex.idw_neighbors std_sort self t_idx t)
      as [m|e] eqn:Em; simpl in H; [|discriminate].
    destruct (for_each_target _ (S t_idx) rest) as [ms|e] eqn:Er;
      simpl in H; [|discriminate].
    inversion H; subst idw. clear H.
    inversion Hall as [|? ? Hf Hall']; subst.
    destruct (IH _ _ Er Hall') as (nn & Hnn & Hrel).
    destruct (idw_ok_nn_ok std_sort Hsort self t t_idx m Em)
      as (n & Hn & Hs).
    destruct (idw_neighbors_inv self t std_sort t_idx m Em)
      as (_ & _ & _ & _ & Hidx & _).
    destruct (nearest_neighbor_inv self t t_idx n Hn)
      as (k & src & d & _ & Heq).
    exists (n :: nn). split.
    + simpl. rewrite Hn. simpl. rewrite Hnn. reflexivity.
    + constructor; [|exact Hrel].
      split; [exact Hf|]. split.
      * rewrite Hidx, Heq. reflexivity.
      * exists (nn_distance n). apply Hs, Hf.
Qed.

(** X19.  When every target falls back, IDW regridding is nearest-neighbor
    regridding: the NN mappings of the same targets exist, and
    [interpolate_idw] on the IDW mappings returns, or throws, what
    [interpolate_nearest_neighbor] does on the NN mappings. *)
Theorem all_fallback_is_nearest_neighbor
    (std_sort : list neighbor -> list neighbor) (index : SpatialIndex.t)
    (itp : Interpolator.t) (targets : list SpatialData)
    (idw : list IDWMapping) :
  sorts std_sort ->
  SpatialIndex.find_idw_neighbors std_sort index targets = Ok idw ->
  Forall (fun m => idw_is_fallback m = true) idw ->
  exists nn,
    SpatialIndex.find_nearest_neighbors index targets = Ok nn /\
    Interpolator.interpolate_idw itp targets idw
      = Interpolator.interpolate_nearest_neighbor itp targets nn.
Proof.
  intros Hsort Hidw Hall.
  destruct (fallback_pairs std_sort index targets Hsort 0 idw Hidw Hall)
    as (nn & Hnn & Hrel).
  exists nn. split; [exact Hnn|].
  unfold Interpolator.interpolate_idw,
    Interpolator.interpolate_nearest_neighbor.
  rewrite (fallback_loop itp targets nn idw Hrel). reflexivity.
Qed.

(** One source and the default min_points = 5: the only mapping is a
    fallback. *)
Lemma all_fallback_is_nearest_neighbor_witness :
  exists idw nn,
    SpatialIndex.find_idw_neighbors insertion_sort
      (SpatialIndex.mk [origin] default_config) [origin] = Ok idw /\
    SpatialIndex.find_nearest_neighbors
      (SpatialIndex.mk [origin] default_config) [origin] = Ok nn /\
    Interpolator.interpolate_idw
      (Interpolator.mk [origin] default_config) [origin] idw
    = Interpolator.interpolate_nearest_neighbor
        (Interpolator.mk [origin] default_config) [origin] nn.
Proof.
  destruct origin_idw_default as [m Hm].
  assert (Hf : idw_is_fallback m = true).
  { assert (Hb : SpatialIndex.idw_neighbors insertion_sort
                   (SpatialIndex.mk [origin] default_config) 0 origin
                 = Ok m).
    { unfold SpatialIndex.find_idw_neighbors in Hm. simpl in Hm.
      destruct (SpatialIndex.idw_neighbors insertion_sort _ 0 origin);
        simpl in Hm; congruence. }
    destruct (idw_neighbors_fallback insertion_sort
                (SpatialIndex.mk [origin] default_config) origin 0 m)
      as [Hiff _]; [unfold INT_MAX; simpl; lia|exact Hb|].
    apply Hiff. unfold admitted_count. simpl. 
    destruct (passes default_config origin origin); simpl; lia. }
  destruct (all_fallback_is_nearest_neighbor insertion_sort
              (SpatialIndex.mk [origin] default_config)
              (Interpolator.mk [origin] default_config) [origin] [m]
              insertion_sort_sorts Hm)
    as (nn & Hnn & Heq).
  - constructor; [exact Hf|constructor].
  - exists [m], nn. auto.
Defined.

(** ** Target indices *)

Lemma nn_loop_index (self : Interpolator.t) (targets : list SpatialData)
    (mappings : list NNMapping) :
  forall result,
    (exists e, Interpolator.nn_loop self targets mappings result = Err e) <->
    exists m, In m mappings /\ (length targets <= nn_target_idx m)%nat.
Proof.
  induction mappings as [|m rest IH]; intros result; simpl.
  - split; [intros [e He]; discriminate|intros (m & [] & _)].
  - destruct (nth_error targets (nn_target_idx m)) as [target|] eqn:Et.
    + rewrite (nn_step_resolve self targets m target result Et). simpl.
      rewrite IH. 
      assert (Hlt : (nn_target_idx m < length targets)%nat)
        by (apply nth_error_Some; congruence).
      split.
      * intros (m' & Hin & Hle). exists m'. auto.
      * intros (m' & [<-|Hin] & Hle); [lia|]. exists m'. auto.
    + unfold Interpolator.nn_step. rewrite Et. simpl.
      apply nth_error_None in Et. split.
      * intros _. exists m. auto.
      * intros _. eexists. reflexivity.
Qed.

(** X20.  [interpolate_nearest_neighbor] throws "Invalid target index" exactly
    when some mapping carries an index that is not below the number of
    targets; whether the sources resolve plays no part. *)
Theorem nn_invalid_target_index (self : Interpolator.t)
    (targets : list SpatialData) (mappings : list NNMapping) :
  Interpolator.interpolate_nearest_neighbor self targets mappings
    = Err InvalidTargetIndex <->
  exists m, In m mappings /\ (length targets <= nn_target_idx m)%nat.
Proof.
  rewrite <- (nn_loop_index self targets mappings []).
  unfold Interpolator.interpolate_nearest_neighbor.
  destruct (Interpolator.nn_loop self targets mappings []) as [r|e] eqn:El;
    simpl.
  - split.
    + destruct r; discriminate.
    + intros [e He]. discriminate.
  - apply nn_loop_errors in El. subst e. split; eauto.
Qed.

Lemma nn_mapper_accepted (index : SpatialIndex.t) (itp : Interpolator.t)
    (targets : list SpatialData) (nn : list NNMapping) (e : error) :
  SpatialIndex.find_nearest_neighbors index targets = Ok nn ->
  Interpolator.interpolate_nearest_neighbor itp targets nn = Err e ->
  e = NoInterpolation.
Proof.
  intros Hnn H. unfold Interpolator.interpolate_nearest_neighbor in H.
  destruct (Interpolator.nn_loop itp targets nn []) as [r|e'] eqn:El;
    simpl in H.
  - destruct r; congruence.
  - exfalso.
    destruct (proj1 (nn_loop_index itp targets nn []) (ex_intro _ e' El))
      as (m & Hin & Hle).
    destruct (for_each_target_In _ _ _ _ Hnn Hin)
      as (j & target & Hj & Hb).
    destruct (nearest_neighbor_inv index target j m Hb)
      as (k & src & d & _ & Heq).
    rewrite Heq in Hle. simpl in Hle.
    assert (j < length targets)%nat by (apply nth_error_Some; congruence).
    lia.
Qed.

Lemma idw_mapper_accepted (std_sort : list neighbor -> list neighbor)
    (index : SpatialIndex.t) (itp : Interpolator.t)
    (targets : list SpatialData) (idw : list IDWMapping) (e : error) :
  SpatialIndex.find_idw_neighbors std_sort index targets = Ok idw ->
  Interpolator.interpolate_idw itp targets idw = Err e ->
  e = NoInterpolation.
Proof.
  intros Hidw H. unfold Interpolator.interpolate_idw in H.
  destruct (Interpolator.idw_loop itp targets idw []) as [r|e'] eqn:El;
    simpl in H.
  - destruct r; congruence.
  - exfalso. clear H.
    assert (Hgood : Forall (fun m =>
                       (idw_target_idx m < length targets)%nat /\
                       (idw_is_fallback m = true ->
                        exists nb, idw_sources m = [nb])) idw).
    { apply Forall_forall. intros m Hin.
      destruct (for_each_target_In _ _ _ _ Hidw Hin)
        as (j & target & Hj & Hb).
      destruct (idw_neighbors_inv index target std_sort j m Hb)
        as (ns & _ & _ & _ & Hi & _ & Hcase).
      split.
      - rewrite Hi. apply nth_error_Some. congruence.
      - intros Hf.
        destruct Hcase as [(_ & _ & d & lon & lat & _ & _ & Hs)
                          | (_ & Hnf & _)]; [eauto|congruence]. }
    clear Hidw. revert El. generalize (@nil SpatialData).
    induction Hgood as [|m rest [Hlt Hone] _ IH]; intros result El;
      simpl in El; [discriminate|].
    destruct (nth_error targets (idw_target_idx m)) as [t|] eqn:Et;
      [|apply nth_error_None in Et; lia].
    destruct (idw_step_extends itp targets m t result Et Hone)
      as (tail & Hstep).
    rewrite Hstep in El. simpl in El. eapply IH; eauto.
Qed.

(** X21.  The interpolator never rejects what the mapper computed for the same
    targets: with the mappings of the active method taken from
    [find_nearest_neighbors] or [find_idw_neighbors], the only exception
    [interpolate] can raise is "No points interpolated". *)
Theorem mappings_accepted (std_sort : list neighbor -> list neighbor)
    (index : SpatialIndex.t) (itp : Interpolator.t)
    (targets : list SpatialData) (nn : list NNMapping)
    (idw : list IDWMapping) (e : error) :
  (interp_method (Interpolator.config_ itp) = NEAREST_NEIGHBOR ->
   SpatialIndex.find_nearest_neighbors index targets = Ok nn) ->
  (interp_method (Interpolator.config_ itp) = INVERSE_DISTANCE_WEIGHTED ->
   SpatialIndex.find_idw_neighbors std_sort index targets = Ok idw) ->
  Interpolator.interpolate itp targets nn idw = Err e ->
  e = NoInterpolation.
Proof.
  intros Hnn Hidw H. unfold Interpolator.interpolate in H.
  destruct (interp_method (Interpolator.config_ itp)).
  - apply (nn_mapper_accepted index itp targets nn e (Hnn eq_refl) H).
  - apply (idw_mapper_accepted std_sort index itp targets idw e
             (Hidw eq_refl) H).
Qed.

(** A source of the year 2000 and a target of the year 2001 at the same
    place: the mapper returns, the interpolator ends with "No points
    interpolated". *)
Lemma mappings_accepted_witness :
  exists nn,
    SpatialIndex.find_nearest_neighbors
      (SpatialIndex.mk [source_2000] config_nn) [target_2001] = Ok nn /\
    Interpolator.interpolate (Interpolator.mk [source_2000] config_nn)
      [target_2001] nn [] = Err NoInterpolation.
Proof.
  destruct (all_valid_nn_ok (SpatialIndex.mk [source_2000] config_nn)
              [target_2001]) as [nn Hnn].
  - discriminate.
  - constructor; [|constructor]. split; simpl; apply Rabs_le; lra.
  - constructor; [|constructor]. split; simpl; apply Rabs_le; lra.
  - exists nn. split; [exact Hnn|].
    destruct (Interpolator.interpolate
                (Interpolator.mk [source_2000] config_nn)
                [target_2001] nn []) as [r|e] eqn:E.
    + exfalso.
      change (Interpolator.interpolate_nearest_neighbor
                (Interpolator.mk [source_2000] config_nn)
                [target_2001] nn = Ok r) in E.
      unfold Interpolator.interpolate_nearest_neighbor in E.
      destruct (Interpolator.nn_loop _ [target_2001] nn []) as [r0|e]
        eqn:El; simpl in E; [|discriminate].
      destruct (nn_loop_inv (Interpolator.mk [source_2000] config_nn)
                  [target_2001] (fun _ => False) nn) with (3 := El)
        as [HF _].
      * intros m target src _ Ht Hr. apply resolve_same_point in Hr.
        destruct Hr as ([<-|[]] & _ & _ & Hts).
        apply nth_error_In in Ht. destruct Ht as [<-|[]].
        discriminate Hts.
      * constructor.
      * destruct r0; [discriminate|]. inversion HF; assumption.
    + f_equal.
      apply (mappings_accepted insertion_sort
               (SpatialIndex.mk [source_2000] config_nn)
               (Interpolator.mk [source_2000] config_nn)
               [target_2001] nn [] e); [intros _; exact Hnn| |exact E].
      intros Hm. discriminate Hm.
Defined.

(** * Paths, the output directory and the logger *)

Lemma string_app_nil_r (s : string) : (s ++ "")%string = s.
Proof. induction s as [|c s IH]; simpl; [reflexivity|now rewrite IH]. Qed.

Lemma string_app_assoc (s t u : string) :
  ((s ++ t) ++ u)%string = (s ++ (t ++ u))%string.
Proof. induction s as [|c s IH]; simpl; [reflexivity|now rewrite IH]. Qed.

Lemma back_app (s : string) (c : ascii) (t : string) :
  filesystem.back (s ++ String c t) = filesystem.back (String c t).
Proof.
  induction s as [|a s IH]; [reflexivity|].
  change (String a s ++ String c t)%string
    with (String a (s ++ String c t)%string).
  destruct (s ++ String c t)%string as [|a' s'] eqn:E.
  - destruct s; discriminate E.
  - rewrite <- IH. reflexivity.
Qed.

Lemma back_ne_app (s : string) (c : ascii) (t : string) (x : ascii) :
  filesystem.back_ne (s ++ String c t) x
    = filesystem.back_ne (String c t) x.
Proof. unfold filesystem.back_ne. now rewrite back_app. Qed.

Lemma empty_app (s : string) (c : ascii) (t : string) :
  Builder.empty (s ++ String c t) = false.
Proof. destruct s; reflexivity. Qed.

(** The separator is put in once. *)
Lemma div_nil_idem (p : filesystem.path) :
  filesystem.div (filesystem.div p "") "" = filesystem.div p "".
Proof.
  unfold filesystem.div. simpl. rewrite !string_app_nil_r.
  destruct (negb (Builder.empty (filesystem.path_ p)) &&
            filesystem.back_ne (filesystem.path_ p) "/" &&
            filesystem.back_ne (filesystem.path_ p) filesystem.backslash)
    eqn:E.
  - rewrite (back_ne_app (filesystem.path_ p) "/" "" "/").
    unfold filesystem.back_ne at 1. simpl.
    rewrite andb_false_r. reflexivity.
  - rewrite E. reflexivity.
Qed.

Lemma div_split (p : filesystem.path) (other : string) :
  filesystem.path_ (filesystem.div p other)
    = (filesystem.path_ (filesystem.div p "") ++ other)%string.
Proof. unfold filesystem.div. simpl. now rewrite string_app_nil_r. Qed.

Lemma div_app (x : string) (c : ascii) (a : string) :
  filesystem.path_
    (filesystem.div (filesystem.mk_path (x ++ String c a)) "")
  = (x ++ filesystem.path_
            (filesystem.div (filesystem.mk_path (String c a)) ""))%string.
Proof.
  unfold filesystem.div.
  cbn [filesystem.path_]. rewrite !string_app_nil_r.
  rewrite empty_app, !back_ne_app.
  change (Builder.empty (String c a)) with false.
  destruct (negb false && filesystem.back_ne (String c a) "/" &&
            filesystem.back_ne (String c a) filesystem.backslash).
  - apply string_app_assoc.
  - reflexivity.
Qed.

(** X22.  [operator/] is associative: joining [a] to [p] and then [b] to the
    result gives the path that joining [a / b] to [p] gives.  The empty path
    is a left unit, and joining the empty string puts the separator in, at
    most once. *)
Theorem path_div_assoc (p : filesystem.path) (a b : string) :
  filesystem.div (filesystem.div p a) b
    = filesystem.div p
        (filesystem.string_of (filesystem.div (filesystem.mk_path a) b)) /\
  filesystem.div (filesystem.mk_path "") a = filesystem.mk_path a /\
  filesystem.div (filesystem.div p "") "" = filesystem.div p "".
Proof.
  split; [|split; [reflexivity|apply div_nil_idem]].
  assert (H : forall q r : filesystem.path,
             filesystem.path_ q = filesystem.path_ r -> q = r).
  { intros [q] [r]. simpl. now intros ->. }
  apply H. unfold filesystem.string_of.
  rewrite (div_split (filesystem.div p a) b).
  rewrite (div_split p (filesystem.path_ _)).
  rewrite (div_split (filesystem.mk_path a) b).
  rewrite <- string_app_assoc. f_equal.
  destruct a as [|c a].
  - change (filesystem.path_ (filesystem.div (filesystem.mk_path "") ""))
      with ""%string.
    rewrite string_app_nil_r, div_nil_idem. reflexivity.
  - assert (E : filesystem.div p (String c a)
                = filesystem.mk_path
                    (filesystem.path_ (filesystem.div p "") ++ String c a)).
    { apply H. apply div_split. }
    rewrite E. apply div_app.
Qed.

(** ** The directory of the writer *)

Lemma normalized_div (config : RegridConfig) :
  OutputWriter.normalized config
    = filesystem.path_
        (filesystem.div
           (filesystem.mk_path
              (if Builder.empty (output_path config) then "./"%string
               else output_path config)) "").
Proof.
  unfold OutputWriter.normalized, filesystem.div. cbn [filesystem.path_].
  rewrite string_app_nil_r.
  destruct (output_path config) as [|c s]; [reflexivity|].
  reflexivity.
Qed.

Lemma div_nil_back (p : filesystem.path) :
  filesystem.path_ p <> ""%string ->
  exists c,
    filesystem.back (filesystem.path_ (filesystem.div p "")) = Some c /\
    (c = "/"%char \/ c = filesystem.backslash).
Proof.
  intros Hne. unfold filesystem.div. cbn [filesystem.path_].
  rewrite string_app_nil_r.
  destruct (filesystem.path_ p) as [|a s] eqn:Ep; [congruence|].
  change (Builder.empty (String a s)) with false.
  assert (Hsep : forall x,
             filesystem.back_ne (String a s) x = false ->
             filesystem.back (String a s) = Some x).
  { intros x. unfold filesystem.back_ne.
    destruct (filesystem.back (String a s)) as [c|]; [|discriminate].
    intros E. apply negb_false_iff in E. apply Ascii.eqb_eq in E.
    now subst. }
  destruct (filesystem.back_ne (String a s) "/") eqn:E1.
  - destruct (filesystem.back_ne (String a s) filesystem.backslash) eqn:E2.
    + exists "/"%char. split; [|left; reflexivity].
      apply (back_app (String a s) "/" "").
    + exists filesystem.backslash. split; [|right; reflexivity].
      apply Hsep, E2.
  - exists "/"%char. split; [|left; reflexivity]. apply Hsep, E1.
Qed.

(** X23.  The directory prefix of a writer that could be constructed is the
    configured output path, "./" when that is empty, with a separator put
    after it unless it ends in '/' or '\\' already: it always ends in a
    separator, and a configuration that carries the prefix itself as its
    output path leads to the same prefix. *)
Theorem output_writer_prefix (mkdir_fails : string -> bool)
    (config : RegridConfig) (writer : OutputWriter.t) :
  OutputWriter.new mkdir_fails config = Some writer ->
  OutputWriter.config_ writer = config /\
  OutputWriter.output_path_ writer
    = filesystem.string_of
        (filesystem.div
           (filesystem.mk_path
              (if Builder.empty (output_path config) then "./"%string
               else output_path config)) "") /\
  (exists c, filesystem.back (OutputWriter.output_path_ writer) = Some c /\
             (c = "/"%char \/ c = filesystem.backslash)) /\
  OutputWriter.normalized
    (Builder.with_output_path config (OutputWriter.output_path_ writer))
    = OutputWriter.output_path_ writer.
Proof.
  intros H.
  assert (Hw : writer = OutputWriter.mk config (OutputWriter.normalized config)).
  { unfold OutputWriter.new in H.
    destruct (negb _ && negb _); [destruct (mkdir_fails _)|]; congruence. }
  subst writer. cbn [OutputWriter.config_ OutputWriter.output_path_].
  split; [reflexivity|]. split; [apply normalized_div|].
  set (base := if Builder.empty (output_path config) then "./"%string
               else output_path config).
  assert (Hbase : base <> ""%string).
  { unfold base. destruct (output_path config); discriminate. }
  split.
  - rewrite normalized_div. apply (div_nil_back (filesystem.mk_path base)).
    exact Hbase.
  - rewrite (normalized_div (Builder.with_output_path _ _)).
    cbn [output_path Builder.with_output_path].
    rewrite normalized_div. fold base.
    destruct (div_nil_back (filesystem.mk_path base) Hbase) as (c & Hc & _).
    destruct (filesystem.path_ (filesystem.div (filesystem.mk_path base) ""))
      as [|a s] eqn:E; [discriminate Hc|].
    change (Builder.empty (String a s)) with false. cbv iota.
    rewrite <- E.
    change (filesystem.mk_path
              (filesystem.path_
                 (filesystem.div (filesystem.mk_path base) "")))
      with (filesystem.mk_path
              (filesystem.path_
                 (filesystem.div (filesystem.mk_path base) ""))).
    assert (Heta : forall q : filesystem.path,
               filesystem.mk_path (filesystem.path_ q) = q)
      by (intros [q]; reflexivity).
    rewrite Heta, div_nil_idem. reflexivity.
Qed.

(** The default output path "./": no directory is made, whatever [mkdir]
    would answer. *)
Lemma output_writer_prefix_witness :
  exists writer,
    OutputWriter.new (fun _ => true) default_config = Some writer /\
    OutputWriter.output_path_ writer = "./"%string.
Proof.
  exists (OutputWriter.mk default_config "./").
  assert (H : OutputWriter.new (fun _ => true) default_config
              = Some (OutputWriter.mk default_config "./"))
    by reflexivity.
  split; [exact H|].
  destruct (output_writer_prefix (fun _ => true) default_config _ H)
    as (_ & Hp & _).
  rewrite Hp. reflexivity.
Defined.

(** ** The logger *)

(** X24.  [log] puts nothing out exactly when the logger is not initialised or
    the level is below the minimum.  Otherwise every line it puts out is
    the same text, one of them goes to [std::cout], one goes to [std::cerr]
    exactly for an ERROR, and one goes to the log file exactly when that is
    open: no message is written to the file alone. *)
Theorem log_reaches_cout (self : FastRegridLogger.t) (timestamp : string)
    (level : FastRegridLogger.LogLevel) (message details : string) :
  (FastRegridLogger.log self timestamp level message details = [] <->
   FastRegridLogger.initialized_ self = false \/
   (FastRegridLogger.rank level
      < FastRegridLogger.rank (FastRegridLogger.minLevel_ self))%nat) /\
  (FastRegridLogger.initialized_ self = true ->
   (FastRegridLogger.rank (FastRegridLogger.minLevel_ self)
      <= FastRegridLogger.rank level)%nat ->
   exists text,
     In (FastRegridLogger.cout, text)
        (FastRegridLogger.log self timestamp level message details) /\
     (forall s t,
        In (s, t) (FastRegridLogger.log self timestamp level message details)
        -> t = text) /\
     (In (FastRegridLogger.cerr, text)
         (FastRegridLogger.log self timestamp level message details)
      <-> level = FastRegridLogger.ERROR) /\
     (In (FastRegridLogger.logFile, text)
         (FastRegridLogger.log self timestamp level message details)
      <-> FastRegridLogger.logFile_is_open self = true)).
Proof.
  destruct self as [is_open minLevel initialized].
  unfold FastRegridLogger.log.
  cbn [FastRegridLogger.initialized_ FastRegridLogger.minLevel_
       FastRegridLogger.logFile_is_open].
  set (text := if negb (Builder.empty details) then _ else _).
  split.
  - destruct initialized; simpl.
    + destruct (Nat.ltb_spec (FastRegridLogger.rank level)
                  (FastRegridLogger.rank minLevel)) as [Hlt|Hge].
      * split; auto.
      * split; [|intros [H|H]; [discriminate|lia]].
        destruct level, minLevel; simpl in Hge; try lia;
          destruct is_open; discriminate.
    + split; auto.
  - intros -> Hle. simpl.
    destruct (Nat.ltb_spec (FastRegridLogger.rank level)
                (FastRegridLogger.rank minLevel)) as [Hlt|_]; [lia|].
    exists text.
    destruct level, minLevel; simpl in Hle; try lia; destruct is_open;
      simpl;
      (split; [tauto|]);
      (split; [intros s t Hin;
               repeat (destruct Hin as [Hin|Hin];
                       [inversion Hin; reflexivity|]);
               destruct Hin|]);
      (split; split; intros Hin; try reflexivity; try discriminate;
       try tauto;
       repeat (destruct Hin as [Hin|Hin]; [discriminate Hin|]);
       try destruct Hin).
Qed.

(** A DEBUG message on a logger whose minimum is DEBUG. *)
Lemma log_reaches_cout_witness :
  exists text,
    In (FastRegridLogger.cout, text)
       (FastRegridLogger.log
          (FastRegridLogger.setMinLevel
             (FastRegridLogger.mk true FastRegridLogger.INFO true)
             FastRegridLogger.DEBUG)
          "now" FastRegridLogger.DEBUG "message" "").
Proof.
  destruct (log_reaches_cout
              (FastRegridLogger.setMinLevel
                 (FastRegridLogger.mk true FastRegridLogger.INFO true)
                 FastRegridLogger.DEBUG)
              "now" FastRegridLogger.DEBUG "message" "")
    as [_ H].
  destruct (H eq_refl (le_n _)) as (text & Hin & _).
  exists text. exact Hin.
Defined.

(** * The reader *)

Section ReadLoops.
Variable rnd : R -> R.

Lemma shift_down_stop (fuel : nat) (x : R) :
  x <= 180 -> shift_down rnd fuel x = Some x.
Proof.
  intros H. destruct fuel; simpl;
    rewrite (proj2 (Rgtb_false x 180) H); reflexivity.
Qed.

Lemma shift_up_stop (fuel : nat) (x : R) :
  -180 <= x -> shift_up rnd fuel x = Some x.
Proof.
  intros H. destruct fuel; simpl;
    rewrite (proj2 (Rltb_false x (-180)) H); reflexivity.
Qed.

Hypothesis rnd_rounding : rounding rnd.

(** On a longitude that the reader lets through, each loop of
    [adjust_longitude] runs at most once. *)
Lemma adjust_longitude_read (lon : R) :
  Rabs lon <= 360 ->
  exists r,
    -180 <= r <= 180 /\
    (forall fuel, adjust_longitude rnd (S fuel) lon = Some r) /\
    (forall r', adjust_longitude rnd 0 lon = Some r' -> r' = r).
Proof.
  destruct rnd_rounding as (Hmono & H180 & Hm180 & _).
  intros Hlon. apply Rabs_le_inv in Hlon.
  assert (Hrange : forall y, -180 <= y <= 180 -> -180 <= rnd y <= 180).
  { intros y [Hl Hu]. split.
    - rewrite <- Hm180. apply Hmono, Hl.
    - rewrite <- H180. apply Hmono, Hu. }
  unfold adjust_longitude.
  cmp_lt 180 lon.
  - assert (Hr := Hrange (lon - 360) ltac:(lra)).
    exists (rnd (lon - 360)). split; [exact Hr|]. split.
    + intros fuel. simpl. unfold Rgtb. rewrite (proj2 (Rltb_true 180 lon) Hcmp).
      rewrite shift_down_stop by lra.
      change (shift_up rnd (S fuel) (rnd (lon - 360))
              = Some (rnd (lon - 360))).
      apply shift_up_stop. lra.
    + intros r'. simpl. unfold Rgtb.
      rewrite (proj2 (Rltb_true 180 lon) Hcmp). discriminate.
  - cmp_lt lon (-180).
    + assert (Hr := Hrange (lon + 360) ltac:(lra)).
      exists (rnd (lon + 360)). split; [exact Hr|]. split.
      * intros fuel. rewrite shift_down_stop by lra.
        simpl. rewrite (proj2 (Rltb_true lon (-180)) Hcmp0).
        apply shift_up_stop. lra.
      * intros r'. rewrite shift_down_stop by lra. simpl.
        rewrite (proj2 (Rltb_true lon (-180)) Hcmp0). discriminate.
    + exists lon. split; [lra|]. split.
      * intros fuel. rewrite shift_down_stop by lra.
        apply shift_up_stop. lra.
      * intros r'. rewrite shift_down_stop by lra.
        rewrite shift_up_stop by lra. congruence.
Qed.

Variable config : RegridConfig.

Lemma read_line_inv (fuel : nat) (line_num : N) (l : InputReader.line)
    (p : SpatialData) :
  InputReader.read_line rnd fuel config line_num l
    = InputReader.Returns (Some p) ->
  well_read config p.
Proof.
  unfold InputReader.read_line.
  destruct (InputReader.coords l) as [[[lon lat] ts]|]; [|discriminate].
  cmp_lt 90 (Rabs lat);
    unfold Rgtb at 1; rewrite ?(proj2 (Rltb_true _ _) Hcmp),
                            ?(proj2 (Rltb_false _ _) Hcmp);
    [discriminate|].
  cmp_lt 360 (Rabs lon);
    unfold Rgtb at 1; rewrite ?(proj2 (Rltb_true _ _) Hcmp0),
                            ?(proj2 (Rltb_false _ _) Hcmp0);
    [discriminate|].
  cbn [orb].
  destruct (adjust_longitude_read lon Hcmp0) as (r & Hr & Hsucc & Hzero).
  assert (Hlon : forall lon',
             (if adjust_longitude_flag config
              then adjust_longitude rnd fuel lon else Some lon) = Some lon' ->
             Rabs lon' <= 360 /\
             (adjust_longitude_flag config = true -> -180 <= lon' <= 180)).
  { intros lon'. destruct (adjust_longitude_flag config).
    - intros E. assert (lon' = r).
      { destruct fuel; [apply Hzero, E|rewrite Hsucc in E; congruence]. }
      subst lon'. split; [apply Rabs_le; lra|intros _; exact Hr].
    - intros E. inversion E; subst. split; [exact Hcmp0|discriminate]. }
  destruct (if adjust_longitude_flag config then _ else _) as [lon'|];
    [|discriminate].
  destruct (Hlon lon' eq_refl) as [H360 H180].
  unfold well_read, valid_point.
  destruct (data_layout config).
  - destruct (InputReader.numbers l) as [|v vs] eqn:En; [discriminate|].
    intros E. injection E as <-.
    cbn [latitude longitude gridPoint values length].
    split; [split; assumption|]. split; [exact H180|lia].
  - destruct (Nat.ltb_spec (length (InputReader.numbers l)) 12) as [|Hge];
      [discriminate|].
    intros E. injection E as <-.
    cbn [latitude longitude gridPoint values].
    split; [split; assumption|]. split; [exact H180|].
    exact (firstn_length_le (InputReader.numbers l) Hge).
Qed.

Lemma read_line_fuel (fuel : nat) (line_num : N) (l : InputReader.line) :
  InputReader.read_line rnd (S fuel) config line_num l
    <> InputReader.OutOfFuel /\
  InputReader.read_line rnd (S fuel) config line_num l
    = InputReader.read_line rnd 1 config line_num l.
Proof.
  unfold InputReader.read_line.
  destruct (InputReader.coords l) as [[[lon lat] ts]|];
    [|split; [discriminate|reflexivity]].
  cmp_lt 90 (Rabs lat);
    unfold Rgtb at 1 3 5; rewrite ?(proj2 (Rltb_true _ _) Hcmp),
                                ?(proj2 (Rltb_false _ _) Hcmp);
    [split; [discriminate|reflexivity]|].
  cmp_lt 360 (Rabs lon);
    unfold Rgtb at 1 2 3; rewrite ?(proj2 (Rltb_true _ _) Hcmp0),
                                ?(proj2 (Rltb_false _ _) Hcmp0);
    [split; [discriminate|reflexivity]|].
  cbn [orb].
  destruct (adjust_longitude_read lon Hcmp0) as (r & _ & Hsucc & _).
  rewrite !Hsucc.
  destruct (adjust_longitude_flag config); split; try reflexivity;
    destruct (data_layout config);
    try (destruct (InputReader.numbers l); discriminate);
    try (destruct (_ <? _)%nat; discriminate).
Qed.

Lemma read_lines_inv (fuel : nat) (lines : list InputReader.line) :
  forall line_num points result,
    Forall (well_read config) points ->
    InputReader.read_lines rnd fuel config line_num lines points
      = InputReader.Returns result ->
    Forall (well_read config) result /\
    (length result <= length points + length lines)%nat.
Proof.
  induction lines as [|l rest IH]; intros line_num points result Hp H;
    simpl in H.
  - inversion H; subst. split; [exact Hp|lia].
  - destruct (InputReader.read_line rnd fuel config (line_num + 1) l)
      as [[p|]|f|] eqn:El; try discriminate.
    + apply read_line_inv in El.
      destruct (IH _ _ _ (proj2 (Forall_app _ _ _)
                            (conj Hp (Forall_cons _ El (Forall_nil _)))) H)
        as [HF Hlen].
      split; [exact HF|]. rewrite length_app in Hlen. simpl in *. lia.
    + destruct (IH _ _ _ Hp H) as [HF Hlen].
      split; [exact HF|]. simpl. lia.
Qed.

Lemma read_lines_fuel (fuel : nat) (lines : list InputReader.line) :
  forall line_num points,
    InputReader.read_lines rnd (S fuel) config line_num lines points
      <> InputReader.OutOfFuel /\
    InputReader.read_lines rnd (S fuel) config line_num lines points
      = InputReader.read_lines rnd 1 config line_num lines points.
Proof.
  induction lines as [|l rest IH]; intros line_num points; simpl.
  - split; [discriminate|reflexivity].
  - destruct (read_line_fuel fuel (line_num + 1) l) as [Hne Heq].
    rewrite Heq in *.
    destruct (InputReader.read_line rnd 1 config (line_num + 1) l)
      as [[p|]|f|]; try apply IH.
    + split; [discriminate|reflexivity].
    + congruence.
Qed.
End ReadLoops.

Lemma read_lines_none (rnd : R -> R) (fuel : nat) (config : RegridConfig)
    (lines : list InputReader.line) :
  forall line_num points result,
    InputReader.read_lines rnd fuel config line_num lines points
      = InputReader.Returns result ->
    (length points <= length result)%nat /\
    (length result <= length points ->
     Forall (fun l => InputReader.coords l = None) lines)%nat.
Proof.
  induction lines as [|l rest IH]; intros line_num points result H;
    simpl in H.
  - inversion H; subst. split; [lia|constructor].
  - destruct (InputReader.read_line rnd fuel config (line_num + 1) l)
      as [[p|]|f|] eqn:El; try discriminate.
    + destruct (IH _ _ _ H) as [Hlen _]. rewrite length_app in Hlen.
      simpl in Hlen. split; lia.
    + destruct (IH _ _ _ H) as [Hlen Hall]. split; [exact Hlen|].
      intros Hle. constructor; [|apply Hall, Hle].
      unfold InputReader.read_line in El.
      destruct (InputReader.coords l) as [[[lon lat] ts]|]; [|reflexivity].
      exfalso.
      destruct (_ || _); [discriminate|].
      destruct (if adjust_longitude_flag config then _ else _);
        [|discriminate].
      destruct (data_layout config).
      * destruct (InputReader.numbers l); discriminate.
      * destruct (_ <? _)%nat; discriminate.
Qed.

Lemma read_lines_all_none (rnd : R -> R) (fuel : nat) (config : RegridConfig)
    (lines : list InputReader.line) :
  Forall (fun l => InputReader.coords l = None) lines ->
  forall line_num points,
    InputReader.read_lines rnd fuel config line_num lines points
      = InputReader.Returns points.
Proof.
  induction 1 as [|l rest Hl _ IH]; intros line_num points; simpl;
    [reflexivity|].
  unfold InputReader.read_line. rewrite Hl. apply IH.
Qed.

(** X25.  What [read_grid] returns is never empty, holds at most one record per
    line, and every record of it has a latitude within 90 degrees, a
    longitude within 360 degrees (within 180 when [adjust_longitude] is
    set), and twelve values under GRID_BY_TIME, at least one under
    YEAR_BY_YEAR: the coordinates the mapper insists on. *)
Theorem read_grid_postcondition (rnd : R -> R) (fuel : nat)
    (config : RegridConfig) (lines : list InputReader.line)
    (points : list SpatialData) :
  rounding rnd ->
  InputReader.read_grid rnd fuel config lines = InputReader.Returns points ->
  points <> [] /\
  (length points <= length lines)%nat /\
  Forall (well_read config) points /\
  Forall valid_point points.
Proof.
  intros Hrnd H. unfold InputReader.read_grid in H.
  destruct (InputReader.read_lines rnd fuel config 1 lines [])
    as [pts|f|] eqn:E; try discriminate.
  destruct pts as [|p pts]; [discriminate|].
  inversion H; subst points. clear H.
  destruct (read_lines_inv rnd Hrnd config fuel lines 1 [] _
              (Forall_nil _) E) as [HF Hlen].
  split; [discriminate|]. split; [exact Hlen|]. split; [exact HF|].
  eapply Forall_impl; [|exact HF]. intros q Hq. apply Hq.
Qed.

Lemma sample_read :
  InputReader.read_grid (fun y => y) 1 default_config
    [malformed_line; sample_line]
  = InputReader.Returns
      [mkSpatialData (mkGridPoint (190 - 360) 45) 2000
         [1; 2; 3; 4; 5; 6; 7; 8; 9; 10; 11; 12]].
Proof.
  unfold InputReader.read_grid.
  cbn [InputReader.read_lines].
  change (InputReader.read_line (fun y => y) 1 default_config (1 + 1)
            malformed_line) with (@InputReader.Returns (option SpatialData) None).
  cbv iota.
  assert (E : InputReader.read_line (fun y => y) 1 default_config (1 + 1 + 1)
                sample_line
              = InputReader.Returns
                  (Some (mkSpatialData (mkGridPoint (190 - 360) 45) 2000
                           [1; 2; 3; 4; 5; 6; 7; 8; 9; 10; 11; 12]))).
  { unfold InputReader.read_line, sample_line.
    cbn [InputReader.coords InputReader.numbers].
    rewrite (proj2 (Rgtb_false (Rabs 45) 90)) by (apply Rabs_le; lra).
    rewrite (proj2 (Rgtb_false (Rabs 190) 360)) by (apply Rabs_le; lra).
    cbn [orb adjust_longitude_flag default_config data_layout].
    unfold adjust_longitude. cbn [shift_down].
    rewrite (proj2 (Rgtb_true 190 180)) by lra.
    rewrite (proj2 (Rgtb_false (190 - 360) 180)) by lra.
    cbn [shift_up].
    rewrite (proj2 (Rltb_false (190 - 360) (-180))) by lra.
    reflexivity. }
  rewrite E. reflexivity.
Qed.

Lemma read_grid_postcondition_witness :
  Forall valid_point
    [mkSpatialData (mkGridPoint (190 - 360) 45) 2000
       [1; 2; 3; 4; 5; 6; 7; 8; 9; 10; 11; 12]].
Proof.
  apply (read_grid_postcondition (fun y => y) 1 default_config
           [malformed_line; sample_line] _ rounding_exact sample_read).
Defined.

(** X26.  With fuel for one iteration the reader never runs out of it, and more
    fuel changes nothing: on the longitudes that pass the check of the
    coordinates each loop of [adjust_longitude] runs at most once. *)
Theorem read_grid_fuel (rnd : R -> R) (fuel : nat) (config : RegridConfig)
    (lines : list InputReader.line) :
  rounding rnd ->
  (1 <= fuel)%nat ->
  InputReader.read_grid rnd fuel config lines <> InputReader.OutOfFuel /\
  InputReader.read_grid rnd fuel config lines
    = InputReader.read_grid rnd 1 config lines.
Proof.
  intros Hrnd Hfuel. destruct fuel as [|fuel]; [lia|].
  unfold InputReader.read_grid.
  destruct (read_lines_fuel rnd Hrnd config fuel lines 1 []) as [Hne Heq].
  rewrite Heq in *.
  destruct (InputReader.read_lines rnd 1 config 1 lines []) as [[|p l]|f|];
    split; try discriminate; try reflexivity.
  congruence.
Qed.

Lemma read_grid_fuel_witness :
  InputReader.read_grid (fun y => y) 7 default_config
    [malformed_line; sample_line]
  = InputReader.Returns
      [mkSpatialData (mkGridPoint (190 - 360) 45) 2000
         [1; 2; 3; 4; 5; 6; 7; 8; 9; 10; 11; 12]].
Proof.
  destruct (read_grid_fuel (fun y => y) 7 default_config
              [malformed_line; sample_line] rounding_exact)
    as [_ Heq]; [lia|].
  rewrite Heq. exact sample_read.
Defined.

(** X27.  "Empty input file" is raised exactly when no line after the header
    yields a longitude, a latitude and a time step. *)
Theorem read_grid_empty (rnd : R -> R) (fuel : nat) (config : RegridConfig)
    (lines : list InputReader.line) :
  InputReader.read_grid rnd fuel config lines
    = InputReader.Throws InputReader.EmptyInputFile <->
  Forall (fun l => InputReader.coords l = None) lines.
Proof.
  unfold InputReader.read_grid. split.
  - intros H.
    destruct (InputReader.read_lines rnd fuel config 1 lines [])
      as [pts|f|] eqn:E; try discriminate.
    + destruct pts as [|p pts]; [|discriminate].
      apply (read_lines_none rnd fuel config lines 1 [] [] E). simpl. lia.
    + exfalso. inversion H; subst f. clear H.
      revert E. generalize 1%N, (@nil SpatialData).
      induction lines as [|l rest IH]; intros n pts E; simpl in E;
        [discriminate|].
      destruct (InputReader.read_line rnd fuel config (n + 1) l)
        as [[p|]|f|] eqn:El; try discriminate; try (eapply IH; eauto; fail).
      inversion E; subst f. clear E.
      unfold InputReader.read_line in El.
      destruct (InputReader.coords l) as [[[lon lat] ts]|]; [|discriminate].
      destruct (_ || _); [discriminate|].
      destruct (if adjust_longitude_flag config then _ else _);
        [|discriminate].
      destruct (data_layout config).
      * destruct (InputReader.numbers l); discriminate.
      * destruct (_ <? _)%nat; discriminate.
  - intros Hall. rewrite (read_lines_all_none rnd fuel config lines Hall).
    reflexivity.
Qed.

(** * The pipeline *)

Lemma all_valid_idw_ok (std_sort : list neighbor -> list neighbor)
    (self : SpatialIndex.t) (targets : list SpatialData) :
  sorts std_sort ->
  well_formed (SpatialIndex.config_ self) ->
  SpatialIndex.source_points_ self <> [] ->
  Forall valid_point (SpatialIndex.source_points_ self) ->
  Forall valid_point targets ->
  exists idw, SpatialIndex.find_idw_neighbors std_sort self targets = Ok idw.
Proof.
  intros Hsort Hwf Hne Hsrc Htgt. apply for_each_target_total.
  intros j t Hj. apply (idw_neighbors_total std_sort Hsort); auto.
  eapply Forall_forall; [exact Htgt|]. eapply nth_error_In; eauto.
Qed.



Section Pipeline.
Variable std_sort : list neighbor -> list neighbor.
Variable self : Regridder.t.
Variable input : Regridder.inputs.

Let cfg := Regridder.config_ self.
Let sp := Regridder.source_points input.
Let tp := Regridder.target_points input.
Let hs := Regridder.headers input.
Let ths := Regridder.target_headers input.

(** On valid points and a well-formed configuration the two mappers return,
    and [regrid] comes down to the checks of the headers, the constructor
    of the interpolator and [interpolate]. *)
Lemma regrid_normal_form :
  sorts std_sort -> well_formed cfg -> sp <> [] ->
  Forall valid_point sp -> Forall valid_point tp ->
  exists nn0 idw0,
    SpatialIndex.find_nearest_neighbors (SpatialIndex.mk sp cfg) tp = Ok nn0 /\
    SpatialIndex.find_idw_neighbors std_sort (SpatialIndex.mk sp cfg) tp
      = Ok idw0 /\
    Regridder.regrid std_sort self input
    = if (length hs <? 3)%nat || (length ths <? 3)%nat
      then Regridder.Throws Regridder.InvalidHeaders
      else if Regridder.is_grid_by_time (data_layout cfg) &&
              negb (length hs =? 15)%nat
      then Regridder.Throws Regridder.GridByTimeColumns
      else if negb (length hs =? length ths)%nat
      then Regridder.Throws Regridder.DifferentColumns
      else
        Regridder.and_then (Regridder.lift (Interpolator.new sp cfg))
          (fun interpolator =>
        Regridder.and_then
          (Regridder.lift
             (Interpolator.interpolate interpolator tp
                (if Regridder.is_nearest_neighbor (interp_method cfg) ||
                    write_mappings cfg then nn0 else [])
                (if Regridder.is_idw (interp_method cfg) ||
                    write_mappings cfg then idw0 else [])))
          (fun interpolated_points =>
        Regridder.Returns
          (Regridder.mkOutputs
             (if write_mappings cfg &&
                 Regridder.nonempty
                   (if Regridder.is_nearest_neighbor (interp_method cfg) ||
                       write_mappings cfg then nn0 else [])
              then Some (if Regridder.is_nearest_neighbor (interp_method cfg)
                            || write_mappings cfg then nn0 else [])
              else None)
             (if write_mappings cfg &&
                 Regridder.nonempty
                   (if Regridder.is_idw (interp_method cfg) ||
                       write_mappings cfg then idw0 else [])
              then Some (if Regridder.is_idw (interp_method cfg) ||
                            write_mappings cfg then idw0 else [])
              else None)
             interpolated_points hs))).
Proof.
  intros Hsort Hwf Hne Hsrc Htgt.
  destruct (all_valid_nn_ok (SpatialIndex.mk sp cfg) tp Hne Hsrc Htgt)
    as [nn0 Hnn].
  destruct (all_valid_idw_ok std_sort (SpatialIndex.mk sp cfg) tp
              Hsort Hwf Hne Hsrc Htgt) as [idw0 Hidw].
  exists nn0, idw0. split; [exact Hnn|]. split; [exact Hidw|].
  unfold Regridder.regrid. fold cfg sp tp hs ths.
  destruct ((length hs <? 3)%nat || (length ths <? 3)%nat); [reflexivity|].
  destruct (Regridder.is_grid_by_time (data_layout cfg) &&
            negb (length hs =? 15)%nat); [reflexivity|].
  destruct (negb (length hs =? length ths)%nat); [reflexivity|].
  assert (Hnew : SpatialIndex.new sp cfg = Ok (SpatialIndex.mk sp cfg)).
  { destruct sp; [congruence|reflexivity]. }
  rewrite Hnew. cbn [Regridder.lift Regridder.and_then].
  rewrite Hnn, Hidw.
  destruct (Regridder.is_nearest_neighbor (interp_method cfg) ||
            write_mappings cfg),
           (Regridder.is_idw (interp_method cfg) || write_mappings cfg);
    reflexivity.
Qed.
End Pipeline.



(** X29.  What [regrid] hands to [write_regridded_data]: the headers of the source
    file, at least three and as many as the target file has, fifteen under
    GRID_BY_TIME; at least one row and at most one per target record; every
    row on a target record, with as many values as every source record has,
    so that twelve values per source record give rows that fill the fifteen
    columns.  Mappings are written only under [write_mappings]. *)
Theorem regrid_rows (std_sort : list neighbor -> list neighbor)
    (self : Regridder.t) (input : Regridder.inputs)
    (out : Regridder.outputs) :
  Regridder.regrid std_sort self input = Regridder.Returns out ->
  Regridder.regridded_headers out = Regridder.headers input /\
  (3 <= length (Regridder.headers input))%nat /\
  length (Regridder.target_headers input)
    = length (Regridder.headers input) /\
  (data_layout (Regridder.config_ self) = GRID_BY_TIME ->
   length (Regridder.headers input) = 15%nat) /\
  Regridder.interpolated_points out <> [] /\
  (length (Regridder.interpolated_points out)
     <= length (Regridder.target_points input))%nat /\
  (forall r, In r (Regridder.interpolated_points out) ->
     (exists target, In target (Regridder.target_points input) /\
                     gridPoint r = gridPoint target /\
                     time_step r = time_step target) /\
     (forall s, In s (Regridder.source_points input) ->
                length (values r) = length (values s))) /\
  (data_layout (Regridder.config_ self) = GRID_BY_TIME ->
   Forall (well_read (Regridder.config_ self))
     (Regridder.source_points input) ->
   forall r, In r (Regridder.interpolated_points out) ->
             (length (values r) + 3)%nat
             = length (Regridder.headers input)) /\
  (write_mappings (Regridder.config_ self) = false ->
   Regridder.nn_mappings_written out = None /\
   Regridder.idw_mappings_written out = None).
Proof.
  intros H. unfold Regridder.regrid in H.
  set (cfg := Regridder.config_ self) in *.
  set (sp := Regridder.source_points input) in *.
  set (tp := Regridder.target_points input) in *.
  set (hs := Regridder.headers input) in *.
  set (ths := Regridder.target_headers input) in *.
  destruct ((length hs <? 3)%nat || (length ths <? 3)%nat) eqn:E1;
    [discriminate|].
  destruct (Regridder.is_grid_by_time (data_layout cfg) &&
            negb (length hs =? 15)%nat) eqn:E2; [discriminate|].
  destruct (negb (length hs =? length ths)%nat) eqn:E3; [discriminate|].
  apply orb_false_iff in E1. destruct E1 as [E1 _].
  apply Nat.ltb_ge in E1.
  apply negb_false_iff, Nat.eqb_eq in E3.
  destruct (SpatialIndex.new sp cfg) as [index|e] eqn:Ex;
    cbn [Regridder.lift Regridder.and_then] in H; [|discriminate].
  apply SpatialIndex_new_inv in Ex. destruct Ex as [-> Hne].
  set (nn_stage := if Regridder.is_nearest_neighbor (interp_method cfg) ||
                      write_mappings cfg
                   then Regridder.lift
                          (SpatialIndex.find_nearest_neighbors
                             (SpatialIndex.mk sp cfg) tp)
                   else Regridder.Returns []) in *.
  destruct nn_stage as [nn|g] eqn:Enn;
    cbn [Regridder.and_then] in H; [|discriminate].
  set (idw_stage := if Regridder.is_idw (interp_method cfg) ||
                       write_mappings cfg
                    then Regridder.lift
                           (SpatialIndex.find_idw_neighbors std_sort
                              (SpatialIndex.mk sp cfg) tp)
                    else Regridder.Returns []) in *.
  destruct idw_stage as [idw|g] eqn:Eidw;
    cbn [Regridder.and_then] in H; [|discriminate].
  destruct (Interpolator.new sp cfg) as [itp|e] eqn:En;
    cbn [Regridder.lift Regridder.and_then] in H; [|discriminate].
  destruct (Interpolator.interpolate itp tp nn idw) as [rows|e] eqn:Ei;
    cbn [Regridder.lift Regridder.and_then] in H; [|discriminate].
  inversion H; subst out. clear H.
  cbn [Regridder.regridded_headers Regridder.interpolated_points
       Regridder.nn_mappings_written Regridder.idw_mappings_written].
  apply Interpolator_new_inv in En.
  destruct En as (-> & first & rest & Hsrc & Hall).
  rewrite Forall_forall in Hall.
  destruct (interpolate_records sp tp cfg nn idw rows) as (Hrne & Hrlen & Hrows);
    [|exact Ei|].
  { intros p q Hp Hq. rewrite (Hall p Hp), (Hall q Hq). reflexivity. }
  assert (Hlen : (length rows <= length tp)%nat).
  { subst nn_stage idw_stage.
    destruct (interp_method cfg); simpl in Enn, Eidw.
    - destruct (SpatialIndex.find_nearest_neighbors _ tp) as [nn'|e] eqn:Ef;
        [|discriminate].
      inversion Enn; subst nn'.
      destruct (for_each_target_inv _ _ _ _ Ef) as [Hl _]. lia.
    - destruct (SpatialIndex.find_idw_neighbors std_sort _ tp)
        as [idw'|e] eqn:Ef; [|discriminate].
      inversion Eidw; subst idw'.
      destruct (for_each_target_inv _ _ _ _ Ef) as [Hl _]. lia. }
  assert (H15 : data_layout cfg = GRID_BY_TIME -> length hs = 15%nat).
  { intros El. rewrite El in E2. simpl in E2.
    apply negb_false_iff, Nat.eqb_eq in E2. exact E2. }
  repeat match goal with |- _ /\ _ => split end; auto.
  - intros El Hread r Hr. rewrite (H15 El).
    destruct sp as [|s0 sp'] eqn:Esp; [congruence|].
    destruct (Hrows r Hr) as [_ Hv].
    rewrite (Hv s0 (or_introl eq_refl)).
    inversion Hread as [|? ? (_ & _ & H12) _]; subst.
    rewrite El in H12. rewrite H12. reflexivity.
  - intros Hw. rewrite Hw. split; reflexivity.
Qed.

Lemma single_nn (cfg : RegridConfig) (p : SpatialData)
    (nn : list NNMapping) :
  SpatialIndex.find_nearest_neighbors (SpatialIndex.mk [p] cfg) [p] = Ok nn ->
  exists d,
    nn = [mkNNMapping (longitude (gridPoint p)) (latitude (gridPoint p))
            (longitude (gridPoint p)) (latitude (gridPoint p)) d 0].
Proof.
  intros H. destruct (for_each_target_inv _ _ _ _ H) as [Hlen Hnth].
  destruct (Hnth 0%nat p eq_refl) as (m & Hm & Hb).
  destruct (nearest_neighbor_inv (SpatialIndex.mk [p] cfg) p _ m Hb)
    as (k & src & d & (Hk & _) & ->).
  apply nth_error_In in Hk. destruct Hk as [<-|[]].
  exists (in_km (distance_metric cfg) p d).
  destruct nn as [|m' [|m'' nn']]; simpl in Hlen; try discriminate.
  simpl in Hm. inversion Hm. reflexivity.
Qed.

Lemma single_nn_step (cfg : RegridConfig) (p : SpatialData) (d : R) :
  Interpolator.nn_step (Interpolator.mk [p] cfg) [p]
    (mkNNMapping (longitude (gridPoint p)) (latitude (gridPoint p))
       (longitude (gridPoint p)) (latitude (gridPoint p)) d 0) []
  = Ok [p].
Proof.
  rewrite (nn_step_resolve (Interpolator.mk [p] cfg) [p]
             (mkNNMapping (longitude (gridPoint p)) (latitude (gridPoint p))
                (longitude (gridPoint p)) (latitude (gridPoint p)) d 0)
             p [] eq_refl).
  destruct (resolve_self [p] p (or_introl eq_refl))
    as (s & Hs & [<-|[]] & _).
  cbn [Interpolator.source_points_ nn_source_lon nn_source_lat].
  rewrite Hs. unfold Interpolator.set_values. rewrite record_eta.
  reflexivity.
Qed.

Lemma regrid_single :
  Regridder.regrid insertion_sort sample_regridder sample_inputs
  = Regridder.Returns
      (Regridder.mkOutputs None None [origin] sample_headers).
Proof.
  destruct (regrid_normal_form insertion_sort sample_regridder sample_inputs
              insertion_sort_sorts)
    as (nn0 & idw0 & Hnn & _ & Heq).
  - unfold well_formed, INT_MAX; simpl; repeat split; try lra; lia.
  - discriminate.
  - exact origin_list_valid.
  - exact origin_list_valid.
  - rewrite Heq. clear Heq.
    cbn [sample_regridder sample_inputs Regridder.config_
         Regridder.source_points Regridder.target_points Regridder.headers
         Regridder.target_headers] in *.
    destruct (single_nn config_year_nn origin nn0 Hnn) as [d ->].
    change (Interpolator.new [origin] config_year_nn)
      with (Ok (Interpolator.mk [origin] config_year_nn)).
    change ((length sample_headers <? 3)%nat) with false.
    change ((length sample_headers =? length sample_headers)%nat) with true.
    change (data_layout config_year_nn) with YEAR_BY_YEAR.
    change (interp_method config_year_nn) with NEAREST_NEIGHBOR.
    change (write_mappings config_year_nn) with false.
    cbn [orb andb negb Regridder.is_grid_by_time
         Regridder.is_nearest_neighbor Regridder.is_idw
         Regridder.lift Regridder.and_then].
    unfold Interpolator.interpolate.
    change (interp_method
              (Interpolator.config_
                 (Interpolator.mk [origin] config_year_nn)))
      with NEAREST_NEIGHBOR.
    cbv iota. unfold Interpolator.interpolate_nearest_neighbor.
    change (Interpolator.nn_loop ?s ?t [?m] [])
      with (bind (Interpolator.nn_step s t m [])
              (fun r => Interpolator.nn_loop s t [] r)).
    rewrite (single_nn_step config_year_nn origin d). reflexivity.
Qed.

(** One record at the origin, regridded onto itself. *)
Lemma regrid_rows_witness :
  Regridder.regrid insertion_sort sample_regridder sample_inputs
    = Regridder.Returns
        (Regridder.mkOutputs None None [origin] sample_headers) /\
  (length [origin] <= length [origin])%nat.
Proof.
  split; [exact regrid_single|].
  destruct (regrid_rows insertion_sort sample_regridder sample_inputs _
              regrid_single) as (_ & _ & _ & _ & _ & Hlen & _).
  exact Hlen.
Defined.


